(** * Password-Manager: the vault engine of password_manager_v2.py and
      password_manager_v2.5.py, embedded in Rocq.

    The two programs share their cryptographic and persistence code
    ([get_salt], [hash_password], [get_key], [encrypt], [decrypt]) and differ
    in the interactive methods ([add], [update], [backup], [check_strength]).
    Shared code is modelled once; where the versions differ there is one
    module per program, [V2] and [V25].

    Data: Python [bytes] are [list byte]; a Python [str] is the list of its
    code points ([list N]); the SQLite table [accounts] is the list of its
    rows in rowid order.  Effects: every method is a function in a small
    state-and-exception monad over a [world] that holds the terminal, the
    files, the clock and the entropy source. *)

From Stdlib Require Import Strings.Byte Strings.Ascii Strings.String.
From Stdlib Require Import List NArith ZArith Bool Lia Arith PeanoNat.
From Stdlib Require Import Sorting.Permutation Sorting.Sorted.
Import ListNotations.

Set Implicit Arguments.

Local Open Scope string_scope.
Local Open Scope list_scope.
Local Open Scope N_scope.

(** ** Bytes *)

Definition bytes := list byte.

(** The byte whose value is [n mod 256]: what a store into an
    [unsigned char] keeps. *)
Definition byte_of_N (n : N) : byte :=
  match Byte.of_N (n mod 256) with
  | Some b => b
  | None => x00
  end.

Definition byte_xor (a b : byte) : byte :=
  byte_of_N (N.lxor (Byte.to_N a) (Byte.to_N b)).

Fixpoint bytes_eqb (a b : bytes) : bool :=
  match a, b with
  | [], [] => true
  | x :: a', y :: b' => Byte.eqb x y && bytes_eqb a' b'
  | _, _ => false
  end.

(** [xor_bytes a b] is [bytes(x ^ y for x, y in zip(a, b))]. *)
Fixpoint xor_bytes (a b : bytes) : bytes :=
  match a, b with
  | x :: a', y :: b' => byte_xor x y :: xor_bytes a' b'
  | _, _ => []
  end.

(** [n.to_bytes(len, "big")], for [n] below [256 ^ len]. *)
Fixpoint to_bytes_big (len : nat) (n : N) : bytes :=
  match len with
  | O => []
  | S len' => to_bytes_big len' (n / 256) ++ [byte_of_N n]
  end.

(** [int.from_bytes(bs, "big")]. *)
Definition from_bytes_big (bs : bytes) : N :=
  fold_left (fun acc b => acc * 256 + Byte.to_N b) bs 0.

(** Python slices [data[i:]], [data[:i]] and [data[i:j]] for non-negative
    [i], [j], and [data[:-k]], [data[-k:]] for the negative ones the
    programs use: out-of-range bounds are clamped, never an error. *)
Definition slice_from {A} (i : nat) (l : list A) : list A := skipn i l.
Definition slice_to {A} (i : nat) (l : list A) : list A := firstn i l.
Definition slice {A} (i j : nat) (l : list A) : list A :=
  firstn (j - i) (skipn i l).
Definition drop_last {A} (k : nat) (l : list A) : list A :=
  firstn (length l - k) l.
Definition take_last {A} (k : nat) (l : list A) : list A :=
  skipn (length l - k) l.

(** Flipping one bit of a byte string: bit [i mod 8] of byte [i / 8]. *)
Definition flip_byte (k : nat) (b : byte) : byte :=
  byte_of_N (N.lxor (Byte.to_N b) (2 ^ N.of_nat k)).

Fixpoint flip_bit (i : nat) (bs : bytes) : bytes :=
  match bs with
  | [] => []
  | b :: bs' =>
      if (i <? 8)%nat then flip_byte i b :: bs'
      else b :: flip_bit (i - 8) bs'
  end.

(** [c'] is [c] with exactly one bit inverted. *)
Definition single_bit_mutation (c c' : bytes) : Prop :=
  exists i, (i < 8 * length c)%nat /\ c' = flip_bit i c.

(** ** base64: [base64.urlsafe_b64encode] and [base64.urlsafe_b64decode]

    Library model (CPython's [base64] and [binascii]); the programs call
    these through [get_key] and through Fernet. *)
Module Base64.

Definition pad_char : byte := "=".

(** The URL-safe alphabet: [A-Z a-z 0-9 - _]. *)
Definition b2a (s : N) : byte :=
  if s <? 26 then byte_of_N (65 + s)
  else if s <? 52 then byte_of_N (97 + (s - 26))
  else if s <? 62 then byte_of_N (48 + (s - 52))
  else if s =? 62 then "-" else "_".

(** [urlsafe_b64decode] first translates [-] to [+] and [_] to [/] and
    then decodes with the standard table, so both alphabets are
    accepted; every other byte has no value. *)
Definition a2b (c : byte) : option N :=
  let n := Byte.to_N c in
  if (65 <=? n) && (n <=? 90) then Some (n - 65)
  else if (97 <=? n) && (n <=? 122) then Some (n - 97 + 26)
  else if (48 <=? n) && (n <=? 57) then Some (n - 48 + 52)
  else if (n =? 45) || (n =? 43) then Some 62
  else if (n =? 95) || (n =? 47) then Some 63
  else None.

Fixpoint urlsafe_b64encode (bs : bytes) : bytes :=
  match bs with
  | [] => []
  | [a] =>
      let a := Byte.to_N a in
      [b2a (N.shiftr a 2); b2a (N.shiftl (N.land a 3) 4); pad_char; pad_char]
  | [a; b] =>
      let a := Byte.to_N a in
      let b := Byte.to_N b in
      [b2a (N.shiftr a 2);
       b2a (N.lor (N.shiftl (N.land a 3) 4) (N.shiftr b 4));
       b2a (N.shiftl (N.land b 15) 2); pad_char]
  | a :: b :: c :: rest =>
      let a := Byte.to_N a in
      let b := Byte.to_N b in
      let c := Byte.to_N c in
      b2a (N.shiftr a 2)
      :: b2a (N.lor (N.shiftl (N.land a 3) 4) (N.shiftr b 4))
      :: b2a (N.lor (N.shiftl (N.land b 15) 2) (N.shiftr c 6))
      :: b2a (N.land c 63)
      :: urlsafe_b64encode rest
  end.

(** [binascii.a2b_base64] in its default, non-strict mode: the loop over
    the input keeps the position in the current quad ([quad_pos]), the
    bits left over from the previous character ([leftchar]) and the
    number of consecutive pad characters ([pads]).  Bytes outside the
    alphabet are skipped; a pad that completes a quad ends the decoding
    and whatever follows is ignored; the bits left in [leftchar] when the
    pad arrives are dropped without being checked.  [None] is
    [binascii.Error]. *)
Fixpoint a2b_loop (input : bytes) (quad_pos : nat) (leftchar : N)
    (pads : nat) : option bytes :=
  match input with
  | [] => if (quad_pos =? 0)%nat then Some [] else None
  | ch :: rest =>
      if Byte.eqb ch pad_char then
        if (2 <=? quad_pos)%nat then
          if (4 <=? quad_pos + S pads)%nat then Some []
          else a2b_loop rest quad_pos leftchar (S pads)
        else a2b_loop rest quad_pos leftchar pads
      else
        match a2b ch with
        | None => a2b_loop rest quad_pos leftchar pads
        | Some v =>
            match quad_pos with
            | 0%nat => a2b_loop rest 1 v 0
            | 1%nat =>
                option_map
                  (cons (byte_of_N (N.lor (N.shiftl leftchar 2) (N.shiftr v 4))))
                  (a2b_loop rest 2 (N.land v 15) 0)
            | 2%nat =>
                option_map
                  (cons (byte_of_N (N.lor (N.shiftl leftchar 4) (N.shiftr v 2))))
                  (a2b_loop rest 3 (N.land v 3) 0)
            | _ =>
                option_map
                  (cons (byte_of_N (N.lor (N.shiftl leftchar 6) v)))
                  (a2b_loop rest 0 0 0)
            end
        end
  end.

Definition urlsafe_b64decode (s : bytes) : option bytes := a2b_loop s 0 0 0.

End Base64.


(** ** The [cryptography] package

    The programs import PBKDF2HMAC, SHA256 and Fernet from the
    [cryptography] package.  Its two primitives, the SHA-256 compression
    and AES-128 in CBC mode, are parameters of the model; HMAC, PBKDF2,
    PKCS7 padding and the Fernet token format are written out on top of
    them (RFC 2104, RFC 8018, RFC 5652 and the Fernet specification). *)

Class Cryptography := {
  (** [hashlib.sha256(m).digest()] *)
  sha256 : bytes -> bytes;
  (** AES-128-CBC on whole blocks: key, IV, data. *)
  aes_cbc_encrypt : bytes -> bytes -> bytes -> bytes;
  (** [None]: the data is not a whole number of blocks. *)
  aes_cbc_decrypt : bytes -> bytes -> bytes -> option bytes
}.

(** What the model uses of the primitives: the digest size, and that CBC
    decryption undoes CBC encryption of whole blocks under the same key
    and IV. *)
Class CryptographyLaws (C : Cryptography) : Prop := {
  sha256_length : forall m, length (sha256 m) = 32%nat;
  aes_cbc_roundtrip : forall k iv p,
    length k = 16%nat -> length iv = 16%nat ->
    (length p mod 16 = 0)%nat ->
    aes_cbc_decrypt k iv (aes_cbc_encrypt k iv p) = Some p
}.

Section CryptoModel.
Context {C : Cryptography}.

(** HMAC-SHA256 (block size 64): keys longer than a block are hashed, then
    the key is zero-padded to a block. *)
Definition hmac_block_key (key : bytes) : bytes :=
  let k0 := if (64 <? length key)%nat then sha256 key else key in
  k0 ++ repeat x00 (64 - length k0).

Definition hmac_sha256 (key msg : bytes) : bytes :=
  let k := hmac_block_key key in
  sha256 (map (byte_xor x5c) k ++ sha256 (map (byte_xor x36) k ++ msg)).

(** PBKDF2 (RFC 8018, section 5.2): block [i] of the derived key is
    [U_1 xor ... xor U_c] with [U_1 = PRF(P, S || INT(i))] and
    [U_j = PRF(P, U_(j-1))]. *)
Definition pbkdf2_step (pw : bytes) (ut : bytes * bytes) : bytes * bytes :=
  let u' := hmac_sha256 pw (fst ut) in (u', xor_bytes (snd ut) u').

Definition pbkdf2_block (pw salt : bytes) (c : N) (i : N) : bytes :=
  let u1 := hmac_sha256 pw (salt ++ to_bytes_big 4 i) in
  snd (N.iter (c - 1) (pbkdf2_step pw) (u1, u1)).

(** [PBKDF2HMAC(algorithm=SHA256(), length=dklen, salt=salt,
    iterations=c).derive(pw)]. *)
Definition pbkdf2_hmac_sha256 (pw salt : bytes) (c : N) (dklen : nat) : bytes :=
  firstn dklen
    (flat_map (fun i => pbkdf2_block pw salt c (N.of_nat i))
       (seq 1 ((dklen + 31) / 32))).

(** PKCS7 padding to 16-byte blocks. *)
Definition pkcs7_pad (data : bytes) : bytes :=
  let n := (16 - length data mod 16)%nat in
  data ++ repeat (byte_of_N (N.of_nat n)) n.

(** [None] is the [ValueError] of the unpadder: the data is empty or not
    whole blocks, or the last byte [n] is not in [1..16], or the last [n]
    bytes are not all [n]. *)
Definition pkcs7_unpad (padded : bytes) : option bytes :=
  if (length padded =? 0)%nat || negb (length padded mod 16 =? 0)%nat then None
  else
    let n := N.to_nat (Byte.to_N (last padded x00)) in
    if (1 <=? n)%nat && (n <=? 16)%nat
       && forallb (Byte.eqb (last padded x00)) (take_last n padded)
    then Some (drop_last n padded)
    else None.

(** *** Fernet

    A token is [urlsafe_b64encode(0x80 || timestamp (8 bytes, big endian)
    || IV (16) || AES-128-CBC ciphertext || HMAC-SHA256 (32))]; the HMAC
    covers everything before it. *)
Record fernet := Fernet_ {
  signing_key : bytes;
  encryption_key : bytes
}.

(** [Fernet(key)]: the key is the URL-safe base64 text of 32 bytes, signing
    key first.  [None] is the constructor's [ValueError]. *)
Definition Fernet (key : bytes) : option fernet :=
  match Base64.urlsafe_b64decode key with
  | Some raw =>
      if (length raw =? 32)%nat
      then Some (Fernet_ (firstn 16 raw) (skipn 16 raw))
      else None
  | None => None
  end.

(** [Fernet._encrypt_from_parts(data, current_time, iv)]. *)
Definition fernet_basic_parts (f : fernet) (data : bytes) (current_time : N)
    (iv : bytes) : bytes :=
  x80 :: to_bytes_big 8 current_time
      ++ iv ++ aes_cbc_encrypt (encryption_key f) iv (pkcs7_pad data).

Definition fernet_encrypt_from_parts (f : fernet) (data : bytes)
    (current_time : N) (iv : bytes) : bytes :=
  let basic_parts := fernet_basic_parts f data current_time iv in
  Base64.urlsafe_b64encode
    (basic_parts ++ hmac_sha256 (signing_key f) basic_parts).

(** [Fernet._verify_signature(data)]. *)
Definition fernet_verify_signature (f : fernet) (data : bytes) : bool :=
  bytes_eqb (hmac_sha256 (signing_key f) (drop_last 32 data)) (take_last 32 data).

(** [Fernet.decrypt(token)] with no [ttl]: decode, check the version byte
    and the length, verify the HMAC, decrypt [data[25:-32]] under the IV
    [data[9:25]], remove the padding.  [None] is [InvalidToken]. *)
Definition fernet_decrypt (f : fernet) (token : bytes) : option bytes :=
  match Base64.urlsafe_b64decode token with
  | None => None
  | Some data =>
      match data with
      | [] => None
      | v :: _ =>
          if negb (Byte.eqb v x80) then None
          else if (length data <? 9)%nat then None
          else if negb (fernet_verify_signature f data) then None
          else
            let iv := slice 9 25 data in
            let ciphertext := drop_last 32 (slice_from 25 data) in
            match aes_cbc_decrypt (encryption_key f) iv ciphertext with
            | None => None
            | Some plaintext_padded => pkcs7_unpad plaintext_padded
            end
      end
  end.

End CryptoModel.

(** ** Python text

    A [str] is the list of its code points.  The conversion tables of the
    interpreter (the UTF-8 codec, the Unicode character database beyond
    ASCII, the [int] parser) are parameters. *)

Definition pystr := list N.

Definition str_lit (s : string) : pystr :=
  map N_of_ascii (list_ascii_of_string s).

Fixpoint pystr_eqb (a b : pystr) : bool :=
  match a, b with
  | [], [] => true
  | x :: a', y :: b' => (x =? y) && pystr_eqb a' b'
  | _, _ => false
  end.

(** Truth value of a sequence: [if s:]. *)
Definition truthy {A} (s : list A) : bool :=
  match s with [] => false | _ :: _ => true end.

Class Python := {
  (** [s.encode()]; [None] is [UnicodeEncodeError]. *)
  str_encode : pystr -> option bytes;
  (** [b.decode()]; [None] is [UnicodeDecodeError]. *)
  bytes_decode : bytes -> option pystr;
  (** [c.isupper()], [c.islower()], [c.isdigit()] for code points from 128. *)
  unicode_isupper : N -> bool;
  unicode_islower : N -> bool;
  unicode_isdigit : N -> bool;
  (** [int(s)]; [None] is [ValueError]. *)
  int_of_str : pystr -> option Z
}.

(** Decoding what was encoded gives the text back. *)
Class PythonLaws (P : Python) : Prop := {
  decode_encode : forall s b, str_encode s = Some b -> bytes_decode b = Some s
}.

(** [c.isspace()]: the code points [str.strip()] removes. *)
Definition isspace (c : N) : bool :=
  ((9 <=? c) && (c <=? 13)) || ((28 <=? c) && (c <=? 32))
  || (c =? 133) || (c =? 160) || (c =? 5760)
  || ((8192 <=? c) && (c <=? 8202))
  || (c =? 8232) || (c =? 8233) || (c =? 8239) || (c =? 8287) || (c =? 12288).

Fixpoint lstrip (s : pystr) : pystr :=
  match s with
  | [] => []
  | c :: s' => if isspace c then lstrip s' else s
  end.

Definition strip (s : pystr) : pystr := rev (lstrip (rev (lstrip s))).

(** [c in string.punctuation]. *)
Definition ispunct (c : N) : bool :=
  ((33 <=? c) && (c <=? 47)) || ((58 <=? c) && (c <=? 64))
  || ((91 <=? c) && (c <=? 96)) || ((123 <=? c) && (c <=? 126)).

(** [s.lower() == 'y']. *)
Definition lower_is_y (s : pystr) : bool :=
  pystr_eqb s (str_lit "y") || pystr_eqb s (str_lit "Y").

Definition hexdigit (n : N) : N :=
  if n <? 10 then 48 + n else 97 + (n - 10).

(** [digest.hex()]: two lower-case hexadecimal digits per byte. *)
Definition hex (bs : bytes) : pystr :=
  flat_map (fun b => [hexdigit (Byte.to_N b / 16); hexdigit (Byte.to_N b mod 16)]) bs.

Section PythonText.
Context {P : Python}.

Definition isupper (c : N) : bool :=
  if c <? 128 then (65 <=? c) && (c <=? 90) else unicode_isupper c.

Definition islower (c : N) : bool :=
  if c <? 128 then (97 <=? c) && (c <=? 122) else unicode_islower c.

Definition isdigit (c : N) : bool :=
  if c <? 128 then (48 <=? c) && (c <=? 57) else unicode_isdigit c.

(** [int(s or default)] inside [try: ... except: fallback]. *)
Definition int_or (s : pystr) (default : Z) : option Z :=
  if truthy s then int_of_str s else Some default.

End PythonText.

(** ** The store and the outside world *)

(** A row of [accounts].  The [created] and [updated] columns hold
    [datetime.now().isoformat()]; the model keeps the clock reading the
    text denotes. *)
Record row := Row {
  r_id : Z;
  r_service : pystr;
  r_username : pystr;
  r_password : bytes;
  r_url : pystr;
  r_notes : pystr;
  r_created : N;
  r_updated : N
}.

(** A file [backups/backup_<stamp>.db]: its stamp (the second of the clock
    reading the name is formatted from), its modification time and its
    contents. *)
Record artifact := Artifact {
  a_stamp : N;
  a_mtime : N;
  a_rows : list row
}.

(** One entry of the JSON list [export] writes. *)
Record exported := Exported {
  e_service : pystr;
  e_username : pystr;
  e_password : pystr;
  e_url : pystr;
  e_notes : pystr;
  e_created : N;
  e_updated : N
}.

Inductive level := LSuccess | LError | LWarning | LInfo | LPlain.

(** What a run shows on the terminal.  [Print] carries the fixed text of a
    status message (interpolated values are left out); banners, prompts
    and table rulings are not recorded. *)
Inductive event :=
| Print (l : level) (text : string)
| ShowAccount (r : row) (password : pystr)
| ShowGenerated (password : pystr)
| ShowStrength (score : Z).

(** SQLite and the file system, as far as the programs rely on them. *)
Class Host := {
  (** [text LIKE pattern] *)
  sqlite_like : pystr -> pystr -> bool;
  (** The integer a text parameter compared with the INTEGER PRIMARY KEY
      column converts to, if it converts. *)
  sqlite_int_of_text : pystr -> option Z;
  (** The order in which [Path.glob] enumerates a directory. *)
  glob_order : list artifact -> list artifact
}.

Class HostLaws (H : Host) : Prop := {
  glob_order_perm : forall l, Permutation (glob_order l) l
}.

(** The password generators ([PasswordGenerator.generate],
    [PasswordGenerator.generate_memorable], v2.0's [generate_password]):
    out of the vault engine's scope, they are taken as functions of the
    requested size and of the entropy they consume (the source and the
    position in it), returning the password and the new position. *)
Class Generators := {
  generate : Z -> (nat -> byte) -> nat -> pystr * nat;
  generate_memorable : Z -> (nat -> byte) -> nat -> pystr * nat;
  generate_password : Z -> (nat -> byte) -> nat -> pystr * nat
}.

Record world := World {
  (** lines still to be typed at the terminal *)
  w_stdin : list pystr;
  (** what has been shown, oldest first *)
  w_out : list event;
  (** the clock: reading number [w_tick] is next; microseconds *)
  w_clock : nat -> N;
  w_tick : nat;
  (** [os.urandom]: byte number [w_rpos] is next *)
  w_rand : nat -> byte;
  w_rpos : nat;
  (** SALT_FILE, MASTER_FILE *)
  w_salt : option bytes;
  w_master : option pystr;
  (** DB_FILE: the rows of [accounts] and the file's modification time *)
  w_rows : list row;
  w_db_mtime : N;
  (** BACKUP_DIR *)
  w_backups : list artifact;
  (** files written by [export], latest first *)
  w_exports : list (pystr * list exported);
  (** [None]: pyperclip is not installed (CLIPBOARD is False) *)
  w_clipboard : option pystr;
  (** [self.key] *)
  w_key : option bytes;
  (** [self.config] *)
  w_auto_backup : bool;
  w_backup_count : Z
}.

Definition set_stdin (v : list pystr) (w : world) : world :=
  World v (w_out w) (w_clock w) (w_tick w) (w_rand w) (w_rpos w) (w_salt w)
    (w_master w) (w_rows w) (w_db_mtime w) (w_backups w) (w_exports w)
    (w_clipboard w) (w_key w) (w_auto_backup w) (w_backup_count w).

Definition set_out (v : list event) (w : world) : world :=
  World (w_stdin w) v (w_clock w) (w_tick w) (w_rand w) (w_rpos w) (w_salt w)
    (w_master w) (w_rows w) (w_db_mtime w) (w_backups w) (w_exports w)
    (w_clipboard w) (w_key w) (w_auto_backup w) (w_backup_count w).

Definition set_tick (v : nat) (w : world) : world :=
  World (w_stdin w) (w_out w) (w_clock w) v (w_rand w) (w_rpos w) (w_salt w)
    (w_master w) (w_rows w) (w_db_mtime w) (w_backups w) (w_exports w)
    (w_clipboard w) (w_key w) (w_auto_backup w) (w_backup_count w).

Definition set_rpos (v : nat) (w : world) : world :=
  World (w_stdin w) (w_out w) (w_clock w) (w_tick w) (w_rand w) v (w_salt w)
    (w_master w) (w_rows w) (w_db_mtime w) (w_backups w) (w_exports w)
    (w_clipboard w) (w_key w) (w_auto_backup w) (w_backup_count w).

Definition set_salt (v : option bytes) (w : world) : world :=
  World (w_stdin w) (w_out w) (w_clock w) (w_tick w) (w_rand w) (w_rpos w) v
    (w_master w) (w_rows w) (w_db_mtime w) (w_backups w) (w_exports w)
    (w_clipboard w) (w_key w) (w_auto_backup w) (w_backup_count w).

Definition set_master_file (v : option pystr) (w : world) : world :=
  World (w_stdin w) (w_out w) (w_clock w) (w_tick w) (w_rand w) (w_rpos w)
    (w_salt w) v (w_rows w) (w_db_mtime w) (w_backups w) (w_exports w)
    (w_clipboard w) (w_key w) (w_auto_backup w) (w_backup_count w).

Definition set_db (rows : list row) (mtime : N) (w : world) : world :=
  World (w_stdin w) (w_out w) (w_clock w) (w_tick w) (w_rand w) (w_rpos w)
    (w_salt w) (w_master w) rows mtime (w_backups w) (w_exports w)
    (w_clipboard w) (w_key w) (w_auto_backup w) (w_backup_count w).

Definition set_backups (v : list artifact) (w : world) : world :=
  World (w_stdin w) (w_out w) (w_clock w) (w_tick w) (w_rand w) (w_rpos w)
    (w_salt w) (w_master w) (w_rows w) (w_db_mtime w) v (w_exports w)
    (w_clipboard w) (w_key w) (w_auto_backup w) (w_backup_count w).

Definition set_exports (v : list (pystr * list exported)) (w : world) : world :=
  World (w_stdin w) (w_out w) (w_clock w) (w_tick w) (w_rand w) (w_rpos w)
    (w_salt w) (w_master w) (w_rows w) (w_db_mtime w) (w_backups w) v
    (w_clipboard w) (w_key w) (w_auto_backup w) (w_backup_count w).

Definition set_clipboard (v : option pystr) (w : world) : world :=
  World (w_stdin w) (w_out w) (w_clock w) (w_tick w) (w_rand w) (w_rpos w)
    (w_salt w) (w_master w) (w_rows w) (w_db_mtime w) (w_backups w)
    (w_exports w) v (w_key w) (w_auto_backup w) (w_backup_count w).

Definition set_key (v : option bytes) (w : world) : world :=
  World (w_stdin w) (w_out w) (w_clock w) (w_tick w) (w_rand w) (w_rpos w)
    (w_salt w) (w_master w) (w_rows w) (w_db_mtime w) (w_backups w)
    (w_exports w) (w_clipboard w) v (w_auto_backup w) (w_backup_count w).

(** ** The monad: state and exceptions

    A method takes the world and returns either its value or the exception
    it raised, with the world as it left it: effects made before an
    exception stay. *)
Inductive exn :=
| EOFError
| UnicodeEncodeError
| UnicodeDecodeError
| ValueError
| TypeError
| InvalidToken
| OSError.

(** ** The directory the programs run in

    [export] opens the path that is typed to it.  What the path names
    decides what the write does: it may be one of the vault's own files. *)
Inductive target :=
| Unopenable     (** [open] raises [OSError]: a directory, a missing
                     parent directory, no permission *)
| SaltFile       (** SALT_FILE *)
| MasterFile     (** MASTER_FILE *)
| DatabaseFile   (** DB_FILE *)
| ConfigFile     (** CONFIG_FILE *)
| BackupFile     (** a [backup_*.db] of BACKUP_DIR *)
| OwnFile.       (** any other file, there already or not *)

Class FileSystem := {
  (** What [open(path, 'w')] finds.  The directory tree is not part of
      [world], and it can change during a session; the answer is a
      function of the world at the call and of the path. *)
  open_for_writing : world -> pystr -> target;
  (** The text [json.dump(data, f, indent=4)] writes. *)
  json_dump : list exported -> pystr;
  (** The bytes a file opened in text mode holds once a text is written
      to it (the encoding and the line ends are the platform's). *)
  text_file_bytes : pystr -> bytes
}.

Definition M (A : Type) : Type := world -> (A + exn) * world.

Definition ret {A} (a : A) : M A := fun w => (inl a, w).

Definition raise {A} (e : exn) : M A := fun w => (inr e, w).

Definition bind {A B} (m : M A) (k : A -> M B) : M B :=
  fun w =>
    match m w with
    | (inl a, w') => k a w'
    | (inr e, w') => (inr e, w')
    end.

(** [try: m  except: h] *)
Definition try_except {A} (m : M A) (h : exn -> M A) : M A :=
  fun w =>
    match m w with
    | (inl a, w') => (inl a, w')
    | (inr e, w') => h e w'
    end.

Declare Scope monad_scope.
Delimit Scope monad_scope with monad.
Notation "x <- m ;; k" := (bind m (fun x => k))
  (at level 61, m at next level, right associativity) : monad_scope.
Notation "m ;; k" := (bind m (fun _ => k))
  (at level 61, right associativity) : monad_scope.
Local Open Scope monad_scope.

(** The world a method leaves, and the value it returns. *)
Definition exec {A} (m : M A) (w : world) : world := snd (m w).
Definition eval {A} (m : M A) (w : world) : A + exn := fst (m w).

Definition get_world : M world := fun w => (inl w, w).

Definition modify (f : world -> world) : M unit := fun w => (inl tt, f w).

Definition lift_option {A} (e : exn) (o : option A) : M A :=
  match o with
  | Some a => ret a
  | None => raise e
  end.

(** [print(...)] of a recorded event. *)
Definition emit (e : event) : M unit :=
  modify (fun w => set_out (w_out w ++ [e]) w).

Definition print_success (t : string) : M unit := emit (Print LSuccess t).
Definition print_error (t : string) : M unit := emit (Print LError t).
Definition print_warning (t : string) : M unit := emit (Print LWarning t).
Definition print_info (t : string) : M unit := emit (Print LInfo t).

(** [input(prompt)] and [getpass.getpass(prompt)]: the next typed line;
    [EOFError] when there is none. *)
Definition input : M pystr :=
  fun w =>
    match w_stdin w with
    | [] => (inr EOFError, w)
    | l :: rest => (inl l, set_stdin rest w)
    end.

Definition getpass : M pystr := input.

(** [datetime.now()]: the next clock reading. *)
Definition datetime_now : M N :=
  fun w => (inl (w_clock w (w_tick w)), set_tick (S (w_tick w)) w).

(** [int(time.time())]: whole seconds. *)
Definition time_time : M N :=
  t <- datetime_now ;; ret (t / 1000000).

(** [os.urandom(n)], which [secrets.token_bytes(n)] returns. *)
Definition urandom (n : nat) : M bytes :=
  fun w => (inl (map (w_rand w) (seq (w_rpos w) n)), set_rpos (w_rpos w + n) w).

Definition token_bytes (n : nat) : M bytes := urandom n.

(** [pyperclip.copy(s)] under [if CLIPBOARD:], followed by the message
    the caller prints when it worked. *)
Definition clipboard_copy (s : pystr) (msg : string) : M unit :=
  w <- get_world ;;
  match w_clipboard w with
  | None => ret tt
  | Some _ => modify (set_clipboard (Some s)) ;; print_success msg
  end.

(** [self.conn.commit()] after a statement that left the table as [rows]:
    the database file is rewritten, at the time of the next clock reading. *)
Definition commit (rows : list row) : M unit :=
  t <- datetime_now ;; modify (set_db rows t).

(** The rowid SQLite gives a row inserted with [NULL] as its key. *)
Definition next_rowid (rows : list row) : Z :=
  1 + fold_right Z.max 0%Z (map r_id rows).

(** ** Methods the two programs share

    [get_salt], [hash_password], [get_key] and [decrypt] are the same text
    in both files. *)

Section Shared.
Context {C : Cryptography} {P : Python} {H : Host} {G : Generators}.

(** [get_salt]: the contents of SALT_FILE if it exists; otherwise 16 fresh
    bytes, written to SALT_FILE and returned. *)
Definition get_salt : M bytes :=
  w <- get_world ;;
  match w_salt w with
  | Some s => ret s
  | None =>
      salt <- token_bytes 16 ;;
      modify (set_salt (Some salt)) ;;
      ret salt
  end.

(** [hash_password]: [hashlib.sha256(pw.encode()).hexdigest()].  [None] is
    the exception of [pw.encode()]. *)
Definition hash_password (pw : pystr) : option pystr :=
  match str_encode pw with
  | Some b => Some (hex (sha256 b))
  | None => None
  end.

Definition iterations : N := 100000.

(** [get_key]: the salt is read (or created) first, then the passphrase is
    encoded and run through PBKDF2; the result is returned in the URL-safe
    base64 form Fernet takes. *)
Definition get_key (pw : pystr) : M bytes :=
  salt <- get_salt ;;
  b <- lift_option UnicodeEncodeError (str_encode pw) ;;
  ret (Base64.urlsafe_b64encode (pbkdf2_hmac_sha256 b salt iterations 32)).

(** [Fernet(self.key)]: [self.key] is [None] until a master password has
    been accepted. *)
Definition fernet_of_key : M fernet :=
  w <- get_world ;;
  match w_key w with
  | None => raise TypeError
  | Some k => lift_option ValueError (Fernet k)
  end.

(** [Fernet.encrypt(data)]: the time is read, then 16 bytes of
    [os.urandom] are drawn for the IV. *)
Definition fernet_encrypt (f : fernet) (data : bytes) : M bytes :=
  current_time <- time_time ;;
  iv <- urandom 16 ;;
  ret (fernet_encrypt_from_parts f data current_time iv).

(** The body of [encrypt]: [Fernet(self.key).encrypt(data.encode())]. *)
Definition encrypt_body (data : pystr) : M bytes :=
  f <- fernet_of_key ;;
  b <- lift_option UnicodeEncodeError (str_encode data) ;;
  fernet_encrypt f b.

(** What [decrypt] returns for a key and a stored blob: the decoded
    plaintext, or [None] when any step raised. *)
Definition decrypt_value (key : option bytes) (data : bytes) : option pystr :=
  match key with
  | None => None
  | Some k =>
      match Fernet k with
      | None => None
      | Some f =>
          match fernet_decrypt f data with
          | None => None
          | Some pt => bytes_decode pt
          end
      end
  end.

(** [decrypt]: [try: return Fernet(self.key).decrypt(data).decode()
    except: return None]. *)
Definition decrypt (data : bytes) : M (option pystr) :=
  try_except
    (f <- fernet_of_key ;;
     pt <- lift_option InvalidToken (fernet_decrypt f data) ;;
     s <- lift_option UnicodeDecodeError (bytes_decode pt) ;;
     ret (Some s))
    (fun _ => ret None).

(** A generator call: it draws from the entropy source. *)
Definition run_generator (g : (nat -> byte) -> nat -> pystr * nat) : M pystr :=
  fun w =>
    let (p, pos) := g (w_rand w) (w_rpos w) in
    (inl p, set_rpos pos w).

(** [for x in xs: body(x)] *)
Fixpoint for_each {A} (xs : list A) (body : A -> M unit) : M unit :=
  match xs with
  | [] => ret tt
  | x :: xs' => body x ;; for_each xs' body
  end.

(** [WHERE id=?] with the typed text as parameter. *)
Definition id_matches (id_ : pystr) (r : row) : bool :=
  match sqlite_int_of_text id_ with
  | Some z => (r_id r =? z)%Z
  | None => false
  end.

(** The [UPDATE accounts SET ... WHERE id=?] that [update] builds: the
    columns named in [updates], then [updated]. *)
Definition update_row (new_user : option pystr) (new_pw : option bytes)
    (now : N) (r : row) : row :=
  Row (r_id r) (r_service r)
    (match new_user with Some u => u | None => r_username r end)
    (match new_pw with Some e => e | None => r_password r end)
    (r_url r) (r_notes r) (r_created r) now.

(** [WHERE service LIKE ?] with ['%' + service + '%']. *)
Definition service_like (service : pystr) (r : row) : bool :=
  sqlite_like (str_lit "%" ++ service ++ str_lit "%") (r_service r).

(** [shutil.copy2(DB_FILE, backup)]: the artifact takes the store's rows
    and, as [copy2] copies the file times, the store's modification time;
    a file of the same name is replaced. *)
Fixpoint copy2 (a : artifact) (dir : list artifact) : list artifact :=
  match dir with
  | [] => [a]
  | b :: dir' =>
      if a_stamp b =? a_stamp a then a :: dir' else b :: copy2 a dir'
  end.

(** [sorted(..., key=os.path.getmtime, reverse=True)]: newest first, files
    of equal time in the order they came. *)
Fixpoint insert_by_mtime (a : artifact) (l : list artifact) : list artifact :=
  match l with
  | [] => [a]
  | b :: l' =>
      if a_mtime a <? a_mtime b then b :: insert_by_mtime a l' else a :: l
  end.

Definition sorted_by_mtime_desc (l : list artifact) : list artifact :=
  fold_right insert_by_mtime [] l.

(** [l[n:]] for an integer [n] of either sign. *)
Definition py_slice_from {A} (n : Z) (l : list A) : list A :=
  if (0 <=? n)%Z then skipn (Z.to_nat n) l
  else skipn (length l - Z.to_nat (- n)) l.

(** [for old in ...: old.unlink()] *)
Definition unlink_all (old dir : list artifact) : list artifact :=
  filter (fun a => negb (existsb (fun o => a_stamp o =? a_stamp a) old)) dir.

End Shared.

(** ** password_manager_v2.5.py *)

Module V25.
Section Methods.
Context {C : Cryptography} {P : Python} {H : Host} {G : Generators}.
Context {F : FileSystem}.

(** [PasswordGenerator.check_strength]: one point each for length 8, 12
    and 16, for an upper-case letter, a lower-case letter, a digit and a
    punctuation character; the score is capped at 5. *)
Definition check_strength (password : pystr) : Z * list string :=
  let len := length password in
  let pt (b : bool) : Z := if b then 1%Z else 0%Z in
  let fb (b : bool) (t : string) : list string := if b then [] else [t] in
  let score :=
    (pt (8 <=? len)%nat + pt (12 <=? len)%nat + pt (16 <=? len)%nat
     + pt (existsb isupper password) + pt (existsb islower password)
     + pt (existsb isdigit password) + pt (existsb ispunct password))%Z in
  (Z.min score 5,
   fb (8 <=? len)%nat "Too short (min 8)"
   ++ fb (existsb isupper password) "Add uppercase letters"
   ++ fb (existsb islower password) "Add lowercase letters"
   ++ fb (existsb isdigit password) "Add numbers"
   ++ fb (existsb ispunct password) "Add symbols").

(** [PasswordGenerator.display_strength] *)
Definition display_strength (password : pystr) : M unit :=
  emit (ShowStrength (fst (check_strength password))).

(** [encrypt]: the shared body under [try: ... except Exception], which
    reports the failure and returns [None]. *)
Definition encrypt (data : pystr) : M (option bytes) :=
  try_except
    (c <- encrypt_body data ;; ret (Some c))
    (fun _ => print_error "Encryption failed" ;; ret None).

(** The [while True:] of [set_master].  Every turn reads at least one
    line, so [fuel] above the number of lines left is never used up: the
    loop ends by accepting a password or with the [EOFError] of
    [getpass]. *)
Fixpoint set_master_loop (fuel : nat) : M bool :=
  match fuel with
  | O => raise EOFError
  | S fuel' =>
      pw1 <- getpass ;;
      if (fst (check_strength pw1) <? 3)%Z then
        print_warning "Password is weak. Use a stronger password." ;;
        display_strength pw1 ;;
        set_master_loop fuel'
      else
        pw2 <- getpass ;;
        if pystr_eqb pw1 pw2 then
          (* open(MASTER_FILE, 'w') empties the file before the hash is
             computed *)
          modify (set_master_file (Some [])) ;;
          h <- lift_option UnicodeEncodeError (hash_password pw1) ;;
          modify (set_master_file (Some h)) ;;
          key <- get_key pw1 ;;
          modify (set_key (Some key)) ;;
          print_success "Master password set!" ;;
          ret true
        else
          print_error "Passwords don't match." ;;
          set_master_loop fuel'
  end.

Definition set_master : M bool :=
  print_info "Setting up Password Manager..." ;;
  w <- get_world ;;
  set_master_loop (S (length (w_stdin w))).

(** The [for attempt in range(3):] of [verify_master]. *)
Fixpoint verify_loop (stored : pystr) (attempts : list Z) : M bool :=
  match attempts with
  | [] => ret false
  | attempt :: attempts' =>
      pw <- getpass ;;
      h <- lift_option UnicodeEncodeError (hash_password pw) ;;
      if pystr_eqb h stored then
        key <- get_key pw ;;
        modify (set_key (Some key)) ;;
        print_success "Authenticated!" ;;
        ret true
      else if (0 <? 2 - attempt)%Z then
        print_error "Incorrect. Attempts remaining." ;;
        verify_loop stored attempts'
      else
        print_error "Too many failed attempts." ;;
        ret false
  end.

Definition verify_master : M bool :=
  w <- get_world ;;
  match w_master w with
  | None => set_master
  | Some content => verify_loop (strip content) [0; 1; 2]%Z
  end.

(** [backup]: copy the store to [backup_<stamp>.db], then delete every
    artifact after the first [backup_count] in the list sorted by
    modification time, newest first. *)
Definition backup (silent : bool) : M unit :=
  try_except
    (ts <- datetime_now ;;
     w <- get_world ;;
     let copied :=
       copy2 (Artifact (ts / 1000000) (w_db_mtime w) (w_rows w)) (w_backups w) in
     modify (set_backups copied) ;;
     let backups := sorted_by_mtime_desc (glob_order copied) in
     modify (set_backups
               (unlink_all (py_slice_from (w_backup_count w) backups) copied)) ;;
     if silent then ret tt else print_success "Backup")
    (fun _ => if silent then ret tt else print_error "Backup failed").

Definition auto_backup : M unit :=
  w <- get_world ;;
  if w_auto_backup w then backup true else ret tt.

(** The three ways [add] obtains the password; [None] is the
    [return] after "Password required.". *)
Definition add_password (choice : pystr) : M (option pystr) :=
  if pystr_eqb choice (str_lit "1") then
    length <- try_except
                (s <- input ;;
                 n <- lift_option ValueError (int_or s 16) ;;
                 ret (Z.max 12 (Z.min 64 n)))
                (fun _ => ret 16%Z) ;;
    password <- run_generator (generate length) ;;
    emit (ShowGenerated password) ;;
    display_strength password ;;
    clipboard_copy password "Copied to clipboard!" ;;
    ret (Some password)
  else if pystr_eqb choice (str_lit "2") then
    words <- try_except
               (s <- input ;;
                n <- lift_option ValueError (int_or s 4) ;;
                ret (Z.max 3 (Z.min 8 n)))
               (fun _ => ret 4%Z) ;;
    password <- run_generator (generate_memorable words) ;;
    emit (ShowGenerated password) ;;
    display_strength password ;;
    clipboard_copy password "Copied to clipboard!" ;;
    ret (Some password)
  else
    password <- getpass ;;
    if negb (truthy password) then
      print_error "Password required." ;; ret None
    else
      display_strength password ;; ret (Some password).

(** [add] *)
Definition add : M unit :=
  try_except
    (service <- input ;;
     let service := strip service in
     if negb (truthy service) then print_error "Service name required."
     else
       username <- input ;;
       let username := strip username in
       if negb (truthy username) then print_error "Username required."
       else
         choice <- input ;;
         password <- add_password (strip choice) ;;
         match password with
         | None => ret tt
         | Some password =>
             url <- input ;;
             notes <- input ;;
             encrypted <- encrypt password ;;
             match encrypted with
             | None => ret tt
             | Some encrypted =>
                 if negb (truthy encrypted) then ret tt
                 else
                   now <- datetime_now ;;
                   w <- get_world ;;
                   commit (w_rows w
                           ++ [Row (next_rowid (w_rows w)) service username
                                 encrypted (strip url) (strip notes) now now]) ;;
                   print_success "Password added!" ;;
                   auto_backup
             end
         end)
    (fun _ => print_error "Failed to add").

(** The body of the [for row in results:] loop of [get]. *)
Definition get_row (r : row) : M unit :=
  pw <- decrypt (r_password r) ;;
  match pw with
  | None => ret tt
  | Some pw =>
      if truthy pw then
        emit (ShowAccount r pw) ;;
        display_strength pw ;;
        w <- get_world ;;
        match w_clipboard w with
        | None => ret tt
        | Some _ =>
            answer <- input ;;
            if lower_is_y answer then clipboard_copy pw "Copied!" else ret tt
        end
      else ret tt
  end.

(** [get] *)
Definition get : M unit :=
  service <- input ;;
  let service := strip service in
  try_except
    (w <- get_world ;;
     let results := filter (service_like service) (w_rows w) in
     if negb (truthy results) then print_warning "No passwords found."
     else for_each results get_row)
    (fun _ => print_error "Failed to retrieve").

(** The choice of a new password in [update]; [None] is "Keep Current". *)
Definition update_password (choice : pystr) : M (option pystr) :=
  if pystr_eqb choice (str_lit "1") then
    length <- try_except
                (s <- input ;; lift_option ValueError (int_or s 16))
                (fun _ => ret 16%Z) ;;
    new_pw <- run_generator (generate length) ;;
    emit (ShowGenerated new_pw) ;;
    clipboard_copy new_pw "Copied!" ;;
    ret (Some new_pw)
  else if pystr_eqb choice (str_lit "2") then
    new_pw <- run_generator (generate_memorable 4) ;;
    emit (ShowGenerated new_pw) ;;
    clipboard_copy new_pw "Copied!" ;;
    ret (Some new_pw)
  else if pystr_eqb choice (str_lit "3") then
    new_pw <- getpass ;; ret (Some new_pw)
  else ret None.

(** [update] *)
Definition update : M unit :=
  try_except
    (id_ <- input ;;
     let id_ := strip id_ in
     w <- get_world ;;
     match find (id_matches id_) (w_rows w) with
     | None => print_error "No password with ID."
     | Some _ =>
         new_user <- input ;;
         let new_user := strip new_user in
         choice <- input ;;
         new_pw <- update_password (strip choice) ;;
         encrypted <- match new_pw with
                      | Some p => if truthy p then encrypt p else ret None
                      | None => ret None
                      end ;;
         let user_col := if truthy new_user then Some new_user else None in
         let pw_col := match encrypted with
                       | Some e => if truthy e then Some e else None
                       | None => None
                       end in
         match user_col, pw_col with
         | None, None => print_warning "No changes made."
         | _, _ =>
             now <- datetime_now ;;
             w <- get_world ;;
             commit (map (fun r => if id_matches id_ r
                                   then update_row user_col pw_col now r
                                   else r) (w_rows w)) ;;
             print_success "Updated!" ;;
             auto_backup
         end
     end)
    (fun _ => print_error "Update failed").

(** The loop of [export] over [SELECT * FROM accounts]. *)
Fixpoint export_rows (rows : list row) : M (list exported) :=
  match rows with
  | [] => ret []
  | r :: rows' =>
      pw <- decrypt (r_password r) ;;
      data <- export_rows rows' ;;
      match pw with
      | Some pw =>
          if truthy pw then
            ret (Exported (r_service r) (r_username r) pw (r_url r)
                   (r_notes r) (r_created r) (r_updated r) :: data)
          else ret data
      | None => ret data
      end
  end.

(** [with open(filename, 'w') as f: json.dump(data, f, indent=4)].  The
    file is whatever the path names.  When it is SALT_FILE or MASTER_FILE
    the vault's file now holds the JSON text.  Every file written is
    entered in [w_exports] under the path; for DB_FILE and the backups,
    which [world] holds as tables, the entry is all the world shows of the
    write: what the file held before is gone, and [w_rows] or [w_backups]
    no longer describe it. *)
Definition write_json (filename : pystr) (data : list exported) : M unit :=
  w <- get_world ;;
  match open_for_writing w filename with
  | Unopenable => raise OSError
  | SaltFile =>
      modify (set_salt (Some (text_file_bytes (json_dump data)))) ;;
      modify (fun w => set_exports ((filename, data) :: w_exports w) w)
  | MasterFile =>
      modify (set_master_file (Some (json_dump data))) ;;
      modify (fun w => set_exports ((filename, data) :: w_exports w) w)
  | DatabaseFile | ConfigFile | BackupFile | OwnFile =>
      modify (fun w => set_exports ((filename, data) :: w_exports w) w)
  end.

(** [export] *)
Definition export : M unit :=
  try_except
    (filename <- input ;;
     let filename := strip filename in
     let filename :=
       if truthy filename then filename else str_lit "export.json" in
     w <- get_world ;;
     data <- export_rows (w_rows w) ;;
     write_json filename data ;;
     print_success "Exported passwords" ;;
     print_warning "File contains unencrypted passwords! Keep secure!")
    (fun _ => print_error "Export failed").

End Methods.
End V25.

(** ** password_manager_v2.py *)

Module V2.
Section Methods.
Context {C : Cryptography} {P : Python} {H : Host} {G : Generators}.

(** [check_strength]: as in v2.5 without the point for length 16, and
    without feedback. *)
Definition check_strength (pw : pystr) : Z :=
  let len := length pw in
  let pt (b : bool) : Z := if b then 1%Z else 0%Z in
  Z.min
    (pt (8 <=? len)%nat + pt (12 <=? len)%nat
     + pt (existsb isupper pw) + pt (existsb islower pw)
     + pt (existsb isdigit pw) + pt (existsb ispunct pw))%Z
    5.

(** [show_strength] *)
Definition show_strength (pw : pystr) : M unit :=
  emit (ShowStrength (check_strength pw)).

(** [encrypt]: no handler here, the exception reaches the caller. *)
Definition encrypt (data : pystr) : M bytes := encrypt_body data.

(** The [while True:] of [set_master]; for [fuel] see [V25.set_master_loop]. *)
Fixpoint set_master_loop (fuel : nat) : M bool :=
  match fuel with
  | O => raise EOFError
  | S fuel' =>
      pw1 <- getpass ;;
      if (check_strength pw1 <? 3)%Z then
        print_warning "Weak password. Use stronger." ;;
        set_master_loop fuel'
      else
        pw2 <- getpass ;;
        if pystr_eqb pw1 pw2 then
          modify (set_master_file (Some [])) ;;
          h <- lift_option UnicodeEncodeError (hash_password pw1) ;;
          modify (set_master_file (Some h)) ;;
          key <- get_key pw1 ;;
          modify (set_key (Some key)) ;;
          print_success "Master password set" ;;
          ret true
        else
          print_error "Passwords don't match" ;;
          set_master_loop fuel'
  end.

Definition set_master : M bool :=
  print_info "Setting up Password Manager..." ;;
  w <- get_world ;;
  set_master_loop (S (length (w_stdin w))).

(** The [for _ in range(3):] of [verify_master]. *)
Fixpoint verify_loop (stored : pystr) (attempts : nat) : M bool :=
  match attempts with
  | O => ret false
  | S attempts' =>
      pw <- getpass ;;
      h <- lift_option UnicodeEncodeError (hash_password pw) ;;
      if pystr_eqb h stored then
        key <- get_key pw ;;
        modify (set_key (Some key)) ;;
        print_success "Authenticated" ;;
        ret true
      else
        print_error "Incorrect" ;;
        verify_loop stored attempts'
  end.

Definition verify_master : M bool :=
  w <- get_world ;;
  match w_master w with
  | None => set_master
  | Some content => verify_loop (strip content) 3
  end.

(** [add]: the service and the username are stored as typed. *)
Definition add : M unit :=
  service <- input ;;
  username <- input ;;
  answer <- input ;;
  password <-
    (if lower_is_y answer then
       length <- try_except
                   (s <- input ;;
                    n <- lift_option ValueError (int_or s 16) ;;
                    ret (Z.max 12 (Z.min 64 n)))
                   (fun _ => ret 16%Z) ;;
       password <- run_generator (generate_password length) ;;
       emit (ShowGenerated password) ;;
       show_strength password ;;
       clipboard_copy password "Copied to clipboard" ;;
       ret password
     else
       password <- getpass ;;
       show_strength password ;;
       ret password) ;;
  url <- input ;;
  notes <- input ;;
  encrypted <- encrypt password ;;
  now <- datetime_now ;;
  w <- get_world ;;
  commit (w_rows w
          ++ [Row (next_rowid (w_rows w)) (strip service) (strip username)
                encrypted (strip url) (strip notes) now now]) ;;
  print_success "Added".

(** The body of the [for row in c.fetchall():] loop of [get]. *)
Definition get_row (r : row) : M unit :=
  pw <- decrypt (r_password r) ;;
  match pw with
  | None => ret tt
  | Some pw =>
      if truthy pw then
        emit (ShowAccount r pw) ;;
        show_strength pw ;;
        w <- get_world ;;
        match w_clipboard w with
        | None => ret tt
        | Some _ =>
            answer <- input ;;
            if lower_is_y answer then clipboard_copy pw "Copied" else ret tt
        end
      else ret tt
  end.

(** [get] *)
Definition get : M unit :=
  service <- input ;;
  w <- get_world ;;
  for_each (filter (service_like (strip service)) (w_rows w)) get_row.

(** [update]: when nothing was entered, nothing is written and nothing is
    printed. *)
Definition update : M unit :=
  id_ <- input ;;
  let id_ := strip id_ in
  w <- get_world ;;
  match find (id_matches id_) (w_rows w) with
  | None => print_error "Not found"
  | Some _ =>
      new_user <- input ;;
      let new_user := strip new_user in
      answer <- input ;;
      new_pw <-
        (if lower_is_y answer then
           length <- try_except
                       (s <- input ;; lift_option ValueError (int_or s 16))
                       (fun _ => ret 16%Z) ;;
           new_pw <- run_generator (generate_password length) ;;
           emit (ShowGenerated new_pw) ;;
           clipboard_copy new_pw "Copied" ;;
           ret new_pw
         else getpass) ;;
      encrypted <- (if truthy new_pw
                    then e <- encrypt new_pw ;; ret (Some e)
                    else ret None) ;;
      let user_col := if truthy new_user then Some new_user else None in
      match user_col, encrypted with
      | None, None => ret tt
      | _, _ =>
          now <- datetime_now ;;
          w <- get_world ;;
          commit (map (fun r => if id_matches id_ r
                                then update_row user_col encrypted now r
                                else r) (w_rows w)) ;;
          print_success "Updated"
      end
  end.

(** [backup]: the copy only; nothing is ever deleted. *)
Definition backup : M unit :=
  ts <- datetime_now ;;
  w <- get_world ;;
  modify (set_backups
            (copy2 (Artifact (ts / 1000000) (w_db_mtime w) (w_rows w))
               (w_backups w))) ;;
  print_success "Backup".

End Methods.
End V2.

(** ** The [secrets] module

    The generators draw through [secrets.choice], [secrets.randbelow] and
    [secrets.SystemRandom().shuffle].  All three come down to
    [_randbelow(n)], which reads the system entropy source and returns a
    number below [n]; this primitive is a parameter, and [choice] and
    [shuffle] are written out on top of it as in [random.py]. *)

Class Secrets := {
  (** [_randbelow(n)] at a position of the entropy source: the number
      drawn and the position after the bytes it used. *)
  randbelow : N -> (nat -> byte) -> nat -> N * nat
}.

Class SecretsLaws (Sec : Secrets) : Prop := {
  randbelow_lt : forall n rand pos, 0 < n -> fst (randbelow n rand pos) < n
}.

(** What a generator can raise: the [ValueError] of [generate], and the
    [IndexError] of a sequence read outside its bounds. *)
Inductive gen_exn := GValueError | GIndexError.

(** A generator reads the entropy source from a position and returns its
    value, or the exception it raised, with the position it reached. *)
Definition R (A : Type) : Type := (nat -> byte) -> nat -> (A + gen_exn) * nat.

Definition rret {A} (a : A) : R A := fun _ pos => (inl a, pos).

Definition rraise {A} (e : gen_exn) : R A := fun _ pos => (inr e, pos).

Definition rbind {A B} (m : R A) (k : A -> R B) : R B :=
  fun rand pos =>
    match m rand pos with
    | (inl a, pos') => k a rand pos'
    | (inr e, pos') => (inr e, pos')
    end.

Notation "x <~ m ;; k" := (rbind m (fun x => k))
  (at level 61, m at next level, right associativity) : monad_scope.

(** [x[i] = v] for [i] within the list. *)
Fixpoint set_item {A} (i : nat) (v : A) (x : list A) : list A :=
  match x, i with
  | [], _ => []
  | _ :: x', O => v :: x'
  | a :: x', S i' => a :: set_item i' v x'
  end.

(** [x[i], x[j] = x[j], x[i]]; [None] is the [IndexError] of an index
    outside the list. *)
Definition swap {A} (i j : nat) (x : list A) : option (list A) :=
  match nth_error x j, nth_error x i with
  | Some xj, Some xi => Some (set_item j xi (set_item i xj x))
  | _, _ => None
  end.

Section SecretsModel.
Context {Sec : Secrets}.

Definition randbelow_r (n : N) : R N :=
  fun rand pos => let (r, pos') := randbelow n rand pos in (inl r, pos').

(** [secrets.choice(seq)]: [seq[_randbelow(len(seq))]], and [IndexError]
    for an empty sequence. *)
Definition choice {A} (seq : list A) : R A :=
  if negb (truthy seq) then rraise GIndexError
  else
    i <~ randbelow_r (N.of_nat (length seq)) ;;
    match nth_error seq (N.to_nat i) with
    | Some c => rret c
    | None => rraise GIndexError
    end.

(** [[secrets.choice(seq) for _ in range(n)]] *)
Fixpoint choices {A} (n : nat) (seq : list A) : R (list A) :=
  match n with
  | O => rret []
  | S n' => c <~ choice seq ;; cs <~ choices n' seq ;; rret (c :: cs)
  end.

(** [shuffle]: [for i in reversed(range(1, len(x))): j = randbelow(i + 1);
    x[i], x[j] = x[j], x[i]].  [shuffle_loop i] is the loop from index [i]
    down to 1. *)
Fixpoint shuffle_loop {A} (i : nat) (x : list A) : R (list A) :=
  match i with
  | O => rret x
  | S i' =>
      j <~ randbelow_r (N.of_nat (S i)) ;;
      match swap i (N.to_nat j) x with
      | Some x' => shuffle_loop i' x'
      | None => rraise GIndexError
      end
  end.

Definition shuffle {A} (x : list A) : R (list A) :=
  shuffle_loop (length x - 1) x.

End SecretsModel.

(** ** The password generators *)

(** The constants of the [string] module. *)
Module PyString.

Definition ascii_lowercase : pystr := str_lit "abcdefghijklmnopqrstuvwxyz".
Definition ascii_uppercase : pystr := str_lit "ABCDEFGHIJKLMNOPQRSTUVWXYZ".
Definition ascii_letters : pystr := ascii_lowercase ++ ascii_uppercase.
Definition digits : pystr := str_lit "0123456789".

(** The 32 characters from [!] to [~] that are neither letters nor
    digits, in the order of their codes. *)
Definition punctuation : pystr :=
  map N.of_nat (seq 33 15 ++ seq 58 7 ++ seq 91 6 ++ seq 123 4).

End PyString.

(** [str.capitalize] and [str(n)].  The case mappings of code points from
    128 are parameters. *)
Class PythonCase := {
  unicode_title : N -> pystr;
  unicode_lower : N -> pystr
}.

Section Text.
Context {PC : PythonCase}.

Definition title (c : N) : pystr :=
  if c <? 128 then [if (97 <=? c) && (c <=? 122) then c - 32 else c]
  else unicode_title c.

Definition lower (c : N) : pystr :=
  if c <? 128 then [if (65 <=? c) && (c <=? 90) then c + 32 else c]
  else unicode_lower c.

(** [w.capitalize()]: the first character in title case, the others in
    lower case. *)
Definition capitalize (w : pystr) : pystr :=
  match w with
  | [] => []
  | c :: w' => title c ++ flat_map lower w'
  end.

End Text.

Fixpoint digits_of_uint (d : Decimal.uint) : pystr :=
  match d with
  | Decimal.Nil => []
  | Decimal.D0 d' => 48 :: digits_of_uint d'
  | Decimal.D1 d' => 49 :: digits_of_uint d'
  | Decimal.D2 d' => 50 :: digits_of_uint d'
  | Decimal.D3 d' => 51 :: digits_of_uint d'
  | Decimal.D4 d' => 52 :: digits_of_uint d'
  | Decimal.D5 d' => 53 :: digits_of_uint d'
  | Decimal.D6 d' => 54 :: digits_of_uint d'
  | Decimal.D7 d' => 55 :: digits_of_uint d'
  | Decimal.D8 d' => 56 :: digits_of_uint d'
  | Decimal.D9 d' => 57 :: digits_of_uint d'
  end.

(** [str(n)] for [n >= 0]. *)
Definition str_of_N (n : N) : pystr := digits_of_uint (N.to_uint n).

(** [separator.join(words)] *)
Fixpoint join (separator : pystr) (words : list pystr) : pystr :=
  match words with
  | [] => []
  | [w] => w
  | w :: ws => w ++ separator ++ join separator ws
  end.

(** [c not in 'il1Lo0O'], kept over a string. *)
Definition ambiguous : pystr := str_lit "il1Lo0O".

Definition is_ambiguous (c : N) : bool := existsb (N.eqb c) ambiguous.

Definition without_ambiguous (s : pystr) : pystr :=
  filter (fun c => negb (is_ambiguous c)) s.

(** [PasswordGenerator] of password_manager_v2.5.py. *)
Module PasswordGenerator.
Section Methods.
Context {Sec : Secrets} {PC : PythonCase}.

Definition uppercase : pystr := PyString.ascii_uppercase.
Definition lowercase : pystr := PyString.ascii_lowercase.
Definition digits : pystr := PyString.digits.
Definition symbols : pystr := PyString.punctuation.

(** [generate]: one character of every selected class first (drawn in
    the order upper, lower, digit, symbol), then draws from all selected
    characters up to [length], then the shuffle. *)
Definition generate (length : Z)
    (use_upper use_lower use_digits use_symbols exclude_ambiguous : bool)
    : R pystr :=
  let chars : pystr := [] in
  let required : pystr := [] in
  cr <~ (if use_upper then
           let upper_chars :=
             if exclude_ambiguous then without_ambiguous uppercase
             else uppercase in
           c <~ choice upper_chars ;;
           rret (chars ++ upper_chars, required ++ [c])
         else rret (chars, required)) ;;
  let (chars, required) := cr in
  cr <~ (if use_lower then
           let lower_chars :=
             if exclude_ambiguous then without_ambiguous lowercase
             else lowercase in
           c <~ choice lower_chars ;;
           rret (chars ++ lower_chars, required ++ [c])
         else rret (chars, required)) ;;
  let (chars, required) := cr in
  cr <~ (if use_digits then
           let digit_chars :=
             if exclude_ambiguous then without_ambiguous digits
             else digits in
           c <~ choice digit_chars ;;
           rret (chars ++ digit_chars, required ++ [c])
         else rret (chars, required)) ;;
  let (chars, required) := cr in
  cr <~ (if use_symbols then
           c <~ choice symbols ;;
           rret (chars ++ symbols, required ++ [c])
         else rret (chars, required)) ;;
  let (chars, required) := cr in
  if negb (truthy chars) then rraise GValueError
  else
    let length :=
      if (length <? Z.of_nat (List.length required))%Z
      then Z.of_nat (List.length required) else length in
    let password := required in
    more <~ choices (Z.to_nat (length - Z.of_nat (List.length required))) chars ;;
    shuffle (password ++ more).

Definition word_list : list pystr :=
  map str_lit
    ["alpha"; "bravo"; "charlie"; "delta"; "echo"; "foxtrot";
     "golf"; "hotel"; "india"; "juliet"; "kilo"; "lima";
     "mike"; "november"; "oscar"; "papa"; "quebec"; "romeo";
     "sierra"; "tango"; "uniform"; "victor"; "whiskey"; "xray";
     "yankee"; "zulu"; "coffee"; "python"; "tiger"; "ocean";
     "mountain"; "river"; "forest"; "desert"; "cloud"; "thunder";
     "lightning"; "rainbow"; "sunset"; "sunrise"; "winter"; "summer"].

(** [generate_memorable] *)
Definition generate_memorable (words : Z) (separator : pystr)
    (capitalize_ add_number : bool) : R pystr :=
  selected <~ choices (Z.to_nat words) word_list ;;
  let selected := if capitalize_ then map capitalize selected else selected in
  let passphrase := join separator selected in
  if add_number then
    n <~ randbelow_r 100 ;;
    rret (passphrase ++ str_of_N n)
  else rret passphrase.

End Methods.
End PasswordGenerator.

(** [generate_password] of password_manager_v2.py: the four characters
    drawn first come from the whole classes; only the pool of the other
    characters has the ambiguous ones removed. *)
Module V2Generator.
Section Methods.
Context {Sec : Secrets}.

Definition generate_password (length : Z) : R pystr :=
  let chars := PyString.ascii_letters ++ PyString.digits ++ PyString.punctuation in
  let chars := without_ambiguous chars in
  c1 <~ choice PyString.ascii_uppercase ;;
  c2 <~ choice PyString.ascii_lowercase ;;
  c3 <~ choice PyString.digits ;;
  c4 <~ choice PyString.punctuation ;;
  let pw := [c1; c2; c3; c4] in
  more <~ choices (Z.to_nat (length - 4)) chars ;;
  shuffle (pw ++ more).

End Methods.
End V2Generator.

(** The generators as the vault methods call them: with the default
    options, the separator ['-'], capitals and a number. *)
Section Called.
Context {Sec : Secrets} {PC : PythonCase}.

Definition returned (r : (pystr + gen_exn) * nat) : pystr * nat :=
  match r with
  | (inl p, pos) => (p, pos)
  | (inr _, pos) => ([], pos)
  end.

Definition called_generators : Generators := {|
  generate := fun length rand pos =>
    returned (PasswordGenerator.generate length true true true true true rand pos);
  generate_memorable := fun words rand pos =>
    returned (PasswordGenerator.generate_memorable words (str_lit "-") true true
                rand pos);
  generate_password := fun length rand pos =>
    returned (V2Generator.generate_password length rand pos)
|}.

End Called.

(** ** Deleting a record *)

(** [WHERE id=?] negated: the rows a [DELETE FROM accounts WHERE id=?]
    leaves. *)
Definition delete_rows {H : Host} (id_ : pystr) (rows : list row) : list row :=
  filter (fun r => negb (id_matches id_ r)) rows.

(** [delete] of password_manager_v2.5.py. *)
Module Vault25.
Section Methods.
Context {C : Cryptography} {P : Python} {H : Host} {G : Generators}.

Definition delete : M unit :=
  try_except
    (id_ <- input ;;
     let id_ := strip id_ in
     w <- get_world ;;
     match find (id_matches id_) (w_rows w) with
     | None => print_error "No password with ID."
     | Some _ =>
         confirm <- input ;;
         if pystr_eqb confirm (str_lit "DELETE") then
           w <- get_world ;;
           commit (delete_rows id_ (w_rows w)) ;;
           print_success "Deleted!" ;;
           V25.auto_backup
         else print_warning "Cancelled."
     end)
    (fun _ => print_error "Delete failed").

End Methods.
End Vault25.

(** [delete] of password_manager_v2.py: no handler, and no message when
    the confirmation is not given. *)
Module Vault2.
Section Methods.
Context {C : Cryptography} {P : Python} {H : Host} {G : Generators}.

Definition delete : M unit :=
  id_ <- input ;;
  let id_ := strip id_ in
  w <- get_world ;;
  match find (id_matches id_) (w_rows w) with
  | None => print_error "Not found"
  | Some _ =>
      confirm <- input ;;
      if pystr_eqb confirm (str_lit "DELETE") then
        w <- get_world ;;
        commit (delete_rows id_ (w_rows w)) ;;
        print_success "Deleted"
      else ret tt
  end.

End Methods.
End Vault2.

(** ** The settings menu

    [settings] changes [self.config] and writes it to CONFIG_FILE through
    [save_config].  The file is not part of [world]; a session pairs the
    world with it. *)

(** CONFIG_FILE as [save_config] writes it: the [json.dump] of
    [self.config]. *)
Record config := Config {
  c_auto_backup : bool;
  c_backup_count : Z
}.

(** [s_config_file] is [None] while the file does not exist. *)
Record session := Session {
  s_world : world;
  s_config_file : option config
}.

Definition set_config (auto : bool) (count : Z) (w : world) : world :=
  World (w_stdin w) (w_out w) (w_clock w) (w_tick w) (w_rand w) (w_rpos w)
    (w_salt w) (w_master w) (w_rows w) (w_db_mtime w) (w_backups w)
    (w_exports w) (w_clipboard w) (w_key w) auto count.

(** The monad of a session: as [M], with the configuration file in the
    state. *)
Definition MS (A : Type) : Type := session -> (A + exn) * session.

Definition sret {A} (a : A) : MS A := fun s => (inl a, s).

Definition sbind {A B} (m : MS A) (k : A -> MS B) : MS B :=
  fun s =>
    match m s with
    | (inl a, s') => k a s'
    | (inr e, s') => (inr e, s')
    end.

Notation "x <== m ;;; k" := (sbind m (fun x => k))
  (at level 61, m at next level, right associativity) : monad_scope.
Notation "m ;;; k" := (sbind m (fun _ => k))
  (at level 61, right associativity) : monad_scope.

(** A method of the vault run in a session: the file is not touched. *)
Definition lift {A} (m : M A) : MS A :=
  fun s => let (r, w) := m (s_world s) in (r, Session w (s_config_file s)).

(** [try: ... except ValueError: ...] *)
Definition except_ValueError {A} (m : MS A) (h : MS A) : MS A :=
  fun s =>
    match m s with
    | (inr ValueError, s') => h s'
    | r => r
    end.

Module Settings25.
Section Methods.
Context {C : Cryptography} {P : Python} {H : Host} {G : Generators}.

(** [save_config]: CONFIG_FILE is rewritten with [self.config] as it is. *)
Definition save_config : MS unit :=
  fun s =>
    (inl tt,
     Session (s_world s)
       (Some (Config (w_auto_backup (s_world s)) (w_backup_count (s_world s))))).

(** The [while True:] of [settings].  Every turn reads a line, so [fuel]
    above the number of lines left is never used up. *)
Fixpoint settings_loop (fuel : nat) : MS unit :=
  match fuel with
  | O => lift (raise EOFError)
  | S fuel' =>
      choice <== lift input ;;;
      if pystr_eqb choice (str_lit "1") then
        lift (modify (fun w =>
                        set_config (negb (w_auto_backup w)) (w_backup_count w) w)) ;;;
        save_config ;;;
        lift (print_success "Auto backup.") ;;;
        settings_loop fuel'
      else if pystr_eqb choice (str_lit "2") then
        except_ValueError
          (s <== lift input ;;;
           count <== lift (lift_option ValueError (int_of_str s)) ;;;
           lift (modify (fun w =>
                           set_config (w_auto_backup w)
                             (Z.max 1 (Z.min 20 count)) w)) ;;;
           save_config ;;;
           lift (print_success "Backup count set."))
          (lift (print_error "Invalid number.")) ;;;
        settings_loop fuel'
      else if pystr_eqb choice (str_lit "3") then
        lift (V25.backup false) ;;;
        settings_loop fuel'
      else if pystr_eqb choice (str_lit "4") then sret tt
      else settings_loop fuel'
  end.

Definition settings : MS unit :=
  fun s => settings_loop (S (length (w_stdin (s_world s)))) s.

End Methods.
End Settings25.

(** ** A small instance of the parameters

    Used to run the model on concrete inputs: a 32-byte checksum for the
    hash, a byte-wise XOR for the block cipher, Latin-1 for the codec. *)

Module Demo.

Definition checksum (m : bytes) : bytes :=
  to_bytes_big 32
    (fold_left (fun acc b => (acc * 257 + Byte.to_N b + 1) mod 2 ^ 256) m 0).

Definition xor_key (k iv : bytes) : byte := byte_xor (hd x00 k) (hd x00 iv).

Definition xor_encrypt (k iv p : bytes) : bytes := map (byte_xor (xor_key k iv)) p.

Definition xor_decrypt (k iv c : bytes) : option bytes :=
  if (length c mod 16 =? 0)%nat then Some (map (byte_xor (xor_key k iv)) c)
  else None.

#[export] Instance crypto : Cryptography := {
  sha256 := checksum;
  aes_cbc_encrypt := xor_encrypt;
  aes_cbc_decrypt := xor_decrypt
}.

Definition latin1_encode (s : pystr) : option bytes :=
  if forallb (fun c => c <? 256) s then Some (map byte_of_N s) else None.

Definition latin1_decode (b : bytes) : option pystr := Some (map Byte.to_N b).

(** Decimal digits only. *)
Definition decimal (s : pystr) : option Z :=
  if truthy s && forallb (fun c => (48 <=? c) && (c <=? 57)) s
  then Some (Z.of_N (fold_left (fun acc c => acc * 10 + (c - 48)) s 0))
  else None.

#[export] Instance python : Python := {
  str_encode := latin1_encode;
  bytes_decode := latin1_decode;
  unicode_isupper := fun _ => false;
  unicode_islower := fun _ => false;
  unicode_isdigit := fun _ => false;
  int_of_str := decimal
}.

(** [LIKE '%q%'] as plain containment of [q]. *)
Fixpoint starts_with (q t : pystr) : bool :=
  match q, t with
  | [], _ => true
  | c :: q', d :: t' => (c =? d) && starts_with q' t'
  | _ :: _, [] => false
  end.

Fixpoint contains (q t : pystr) : bool :=
  starts_with q t || match t with [] => false | _ :: t' => contains q t' end.

#[export] Instance host : Host := {
  sqlite_like := fun pattern text =>
    contains (removelast (tl pattern)) text;
  sqlite_int_of_text := decimal;
  glob_order := fun l => l
}.

(** A flat directory: the vault's files under their names and
    [backups/] with its backups, no other directory.  [.] and a path
    through another directory cannot be opened. *)
Definition opened (name : pystr) : target :=
  if pystr_eqb name (str_lit "salt.key") then SaltFile
  else if pystr_eqb name (str_lit "master.hash") then MasterFile
  else if pystr_eqb name (str_lit "passwords.db") then DatabaseFile
  else if pystr_eqb name (str_lit "config.json") then ConfigFile
  else if starts_with (str_lit "backups/backup_") name then BackupFile
  else if contains (str_lit "/") name || pystr_eqb name (str_lit ".")
  then Unopenable
  else OwnFile.

(** [json.dump] of the empty list writes [[]].  For other lists the demo
    writes the passwords only, between quotation marks, one per line. *)
Definition dump (data : list exported) : pystr :=
  match data with
  | [] => str_lit "[]"
  | _ =>
      str_lit "["
      ++ flat_map (fun e => [10; 34] ++ e_password e ++ [34]) data
      ++ [10; 93]
  end.

#[export] Instance files : FileSystem := {
  open_for_writing := fun _ name => opened name;
  json_dump := dump;
  text_file_bytes := map byte_of_N
}.

Definition draw (n : Z) (rand : nat -> byte) (pos : nat) : pystr * nat :=
  (map (fun i => 97 + Byte.to_N (rand i) mod 26) (seq pos (Z.to_nat n)),
   (pos + Z.to_nat n)%nat).

#[export] Instance generators : Generators := {
  generate := draw;
  generate_memorable := draw;
  generate_password := draw
}.

(** A terminal with the given lines typed, a clock that starts at [t0]
    microseconds and advances one second per reading, an entropy source
    that counts up, no files, the default configuration. *)
Definition world0 (lines : list pystr) (t0 : N) : world :=
  World lines [] (fun i => t0 + 1000000 * N.of_nat i) 0
    (fun i => byte_of_N (N.of_nat i * 7 + 3)) 0
    None None [] 0 [] [] None None true 5.

(** A Fernet key (the base64 text of the bytes 1 to 32) and a world that
    holds it as [self.key]: a session after a successful unlock. *)
Definition raw_key : bytes := map (fun i => byte_of_N (N.of_nat i)) (seq 1 32).

Definition key : bytes := Base64.urlsafe_b64encode raw_key.

Definition unlocked (lines : list pystr) (t0 : N) : world :=
  set_key (Some key) (world0 lines t0).

End Demo.

(** ** Auxiliary definitions for the proofs *)

(** The numbers below [n], for checking a property of bytes or sextets by
    enumeration. *)
Definition Nrange (n : nat) : list N := map N.of_nat (seq 0 n).

Module Sextets.

(** The four sextets of a group of three bytes. *)
Definition s1 (a : N) : N := N.shiftr a 2.
Definition s2 (a b : N) : N := N.lor (N.shiftl (N.land a 3) 4) (N.shiftr b 4).
Definition s3 (b c : N) : N := N.lor (N.shiftl (N.land b 15) 2) (N.shiftr c 6).
Definition s4 (c : N) : N := N.land c 63.

(** What decoding a group relies on, as a decidable check on two bytes. *)
Definition sextets_ok (a b : N) : bool :=
  (s1 a <? 64) && (s2 a b <? 64) && (s3 a b <? 64) && (s4 a <? 64)
  && (N.lor (N.shiftl (s1 a) 2) (N.shiftr (s2 a b) 4) =? a)
  && (N.land (s2 a b) 15 =? N.shiftr b 4)
  && (N.lor (N.shiftl (N.shiftr a 4) 4) (N.shiftr (s3 a b) 2) =? a)
  && (N.land (s3 a b) 3 =? N.shiftr b 6)
  && (N.lor (N.shiftl (N.shiftr a 6) 6) (s4 a) =? a).

(** The last sextet of a group cut short by padding. *)
Definition t2 (a : N) : N := N.shiftl (N.land a 3) 4.
Definition t3 (b : N) : N := N.shiftl (N.land b 15) 2.

Definition tail_ok (a : N) : bool :=
  (t2 a <? 64) && (t3 a <? 64)
  && (N.lor (N.shiftl (s1 a) 2) (N.shiftr (t2 a) 4) =? a)
  && (N.lor (N.shiftl (N.shiftr a 4) 4) (N.shiftr (t3 a) 2) =? a).

End Sextets.

(** A method keeps the salt file once it exists. *)
Definition keeps_salt {A} (m : M A) : Prop :=
  forall w s, w_salt w = Some s -> w_salt (snd (m w)) = Some s.

(** The methods of the two programs, as steps of a vault's life. *)
Inductive method :=
| GetSalt
| GetKey (pw : pystr)
| Decrypt (data : bytes)
| Encrypt25 (data : pystr)
| SetMaster25
| VerifyMaster25
| Add25
| Get25
| Update25
| Backup25 (silent : bool)
| Export25
| Encrypt2 (data : pystr)
| SetMaster2
| VerifyMaster2
| Add2
| Get2
| Update2
| Backup2.

Section Run.
Context {C : Cryptography} {P : Python} {H : Host} {G : Generators}.
Context {F : FileSystem}.

Definition run (m : method) (w : world) : world :=
  match m with
  | GetSalt => exec get_salt w
  | GetKey pw => exec (get_key pw) w
  | Decrypt data => exec (decrypt data) w
  | Encrypt25 data => exec (V25.encrypt data) w
  | SetMaster25 => exec V25.set_master w
  | VerifyMaster25 => exec V25.verify_master w
  | Add25 => exec V25.add w
  | Get25 => exec V25.get w
  | Update25 => exec V25.update w
  | Backup25 silent => exec (V25.backup silent) w
  | Export25 => exec V25.export w
  | Encrypt2 data => exec (V2.encrypt data) w
  | SetMaster2 => exec V2.set_master w
  | VerifyMaster2 => exec V2.verify_master w
  | Add2 => exec V2.add w
  | Get2 => exec V2.get w
  | Update2 => exec V2.update w
  | Backup2 => exec V2.backup w
  end.

(** A vault's life: any sequence of method calls. *)
Definition run_all (ms : list method) (w : world) : world :=
  fold_left (fun w m => run m w) ms w.

(** The path the next [export] opens, the typed line stripped or
    export.json, and what [open] finds there; [None] when no line is left
    to read. *)
Definition export_name (line : pystr) : pystr :=
  if truthy (strip line) then strip line else str_lit "export.json".

Definition export_target (w : world) : option target :=
  match w_stdin w with
  | [] => None
  | line :: rest => Some (open_for_writing (set_stdin rest w) (export_name line))
  end.

(** Along a sequence of calls, no [export] is directed at SALT_FILE. *)
Fixpoint spares_the_salt (ms : list method) (w : world) : Prop :=
  match ms with
  | [] => True
  | m :: ms' =>
      (m = Export25 -> export_target w <> Some SaltFile)
      /\ spares_the_salt ms' (run m w)
  end.

End Run.

(** One point per satisfied condition. *)
Definition point (b : bool) : Z := if b then 1%Z else 0%Z.

Section Reference.
Context {P : Python}.

(** The specification's reference policy: how many of {length >= 8,
    has-upper, has-lower, has-digit, has-symbol} a passphrase meets. *)
Definition reference_criteria (pw : pystr) : Z :=
  (point (8 <=? length pw)%nat + point (existsb isupper pw)
   + point (existsb islower pw) + point (existsb isdigit pw)
   + point (existsb ispunct pw))%Z.

End Reference.

(** The world after one [Fernet.encrypt]: one clock reading and 16 bytes
    of entropy are used. *)
Definition after_encrypt (w : world) : world :=
  set_rpos (w_rpos w + 16) (set_tick (S (w_tick w)) w).

(** The IV the next [Fernet.encrypt] draws, and the time it reads. *)
Definition drawn_iv (w : world) : bytes := map (w_rand w) (seq (w_rpos w) 16).

Definition read_time (w : world) : N := w_clock w (w_tick w) / 1000000.


Section Batches.
Context {C : Cryptography} {P : Python}.

(** What [export] appends for one row under a key: its entry when the
    secret decrypts to a non-empty text, nothing otherwise. *)
Definition exported_of (key : option bytes) (r : row) : list exported :=
  match decrypt_value key (r_password r) with
  | Some pw =>
      if truthy pw
      then [Exported (r_service r) (r_username r) pw (r_url r) (r_notes r)
              (r_created r) (r_updated r)]
      else []
  | None => []
  end.

Definition exported_under (key : option bytes) (rows : list row) : list exported :=
  flat_map (exported_of key) rows.

(** What [get] of v2.5 shows for one row. *)
Definition shown_of (key : option bytes) (r : row) : list event :=
  match decrypt_value key (r_password r) with
  | Some pw =>
      if truthy pw
      then [ShowAccount r pw; ShowStrength (fst (V25.check_strength pw))]
      else []
  | None => []
  end.

Definition shown_under (key : option bytes) (rows : list row) : list event :=
  flat_map (shown_of key) rows.

(** What [get] of v2.5 shows for the rows when pyperclip is there and the
    prompts are answered: after each account shown a line is read, and
    [Copied!] follows the answer [y]. *)
Fixpoint shown_answering (key : option bytes) (rows : list row)
    (answers : list pystr) : list event :=
  match rows with
  | [] => []
  | r :: rows' =>
      match shown_of key r with
      | [] => shown_answering key rows' answers
      | e :: evs =>
          (e :: evs)
          ++ (if lower_is_y (hd [] answers)
              then [Print LSuccess "Copied!"] else [])
          ++ shown_answering key rows' (tl answers)
      end
  end.

(** The number of rows shown, a prompt following each. *)
Definition prompts (key : option bytes) (rows : list row) : nat :=
  length (filter (fun r => truthy (shown_of key r)) rows).

End Batches.

Section Retention.
Context {H : Host}.

(** What the cleanup of [backup] leaves of a directory under a retention
    count [n]. *)
Definition pruned (n : Z) (dir : list artifact) : list artifact :=
  unlink_all (py_slice_from n (sorted_by_mtime_desc (glob_order dir))) dir.

(** One [backup] of v2.5 taken when the store was last written at [m]. *)
Definition backup_at (silent : bool) (w : world) (m : N) : world :=
  exec (V25.backup silent) (set_db (w_rows w) m w).

(** A series of backups; [ms] gives the store's modification time at each
    call. *)
Definition backups_at (silent : bool) (ms : list N) (w : world) : world :=
  fold_left (backup_at silent) ms w.

End Retention.

(** The stamp the [i]-th call after [w] puts in the file name, and the
    artifact that call writes. *)
Definition stamp_at (w : world) (i : nat) : N :=
  w_clock w (w_tick w + i) / 1000000.

Definition artifact_at (w : world) (ms : list N) (i : nat) : artifact :=
  Artifact (stamp_at w i) (nth i ms 0) (w_rows w).

(** The store was written between any two calls. *)
Definition written_between (ms : list N) : Prop :=
  forall i j, (i < j < length ms)%nat -> nth i ms 0 < nth j ms 0.

(** A vault with retention count [n] whose clock readings are one
    microsecond apart, as when calls follow each other in a loop. *)
Definition in_a_burst (t0 : N) (n : Z) : world :=
  World [] [] (fun i => t0 + N.of_nat i) 0 (fun _ => x00) 0 None None
    [] 0 [] [] None None true n.

(** Auxiliary definitions for the generators. *)

(** The characters of a class [generate] draws from, and the characters
    a selection of classes contributes. *)
Definition class_chars (exclude_ambiguous : bool) (cls : pystr) : pystr :=
  if exclude_ambiguous then without_ambiguous cls else cls.

Definition selected (use : bool) (cs : pystr) : pystr :=
  if use then cs else [].

Definition alphabet (use_upper use_lower use_digits use_symbols
    exclude_ambiguous : bool) : pystr :=
  selected use_upper (class_chars exclude_ambiguous PyString.ascii_uppercase)
  ++ selected use_lower (class_chars exclude_ambiguous PyString.ascii_lowercase)
  ++ selected use_digits (class_chars exclude_ambiguous PyString.digits)
  ++ selected use_symbols PyString.punctuation.

(** How many classes are selected. *)
Definition classes (use_upper use_lower use_digits use_symbols : bool) : nat :=
  (Nat.b2n use_upper + Nat.b2n use_lower + Nat.b2n use_digits
   + Nat.b2n use_symbols)%nat.

(** [c in s] for a character. *)
Definition char_in (s : pystr) (c : N) : bool := existsb (N.eqb c) s.

Module DemoSecrets.

(** A toy [_randbelow]: the next byte of the source, reduced modulo [n]. *)
#[export] Instance secrets : Secrets := {
  randbelow := fun n rand pos => (Byte.to_N (rand pos) mod n, S pos)
}.

(** Case mappings beyond ASCII are not exercised: the identity. *)
#[export] Instance python_case : PythonCase := {
  unicode_title := fun c => [c];
  unicode_lower := fun c => [c]
}.

End DemoSecrets.

(** What the vault holds besides the terminal, the clock and the
    clipboard: the table and the time of its file, the backup directory,
    the master and salt files, the key of the session. *)
Definition vault_state (w : world) :=
  (w_rows w, w_db_mtime w, w_backups w, w_master w, w_salt w, w_key w).

(** A method that leaves the vault and the exported files as they were,
    whatever it returns. *)
Definition read_only {A} (m : M A) : Prop :=
  forall w,
    vault_state (snd (m w)) = vault_state w
    /\ w_exports (snd (m w)) = w_exports w.

(** What [settings] can do to a session: the table, the master and salt
    files and the key stay; the retention count stays or is set within
    1..20; and the configuration is either untouched, file and all, or
    saved as it is. *)
Definition settings_step (s s' : session) : Prop :=
  let w := s_world s in
  let w' := s_world s' in
  w_rows w' = w_rows w /\ w_db_mtime w' = w_db_mtime w
  /\ w_master w' = w_master w /\ w_salt w' = w_salt w /\ w_key w' = w_key w
  /\ (w_backup_count w' = w_backup_count w \/ (1 <= w_backup_count w' <= 20)%Z)
  /\ ((s_config_file s' = s_config_file s
       /\ w_auto_backup w' = w_auto_backup w
       /\ w_backup_count w' = w_backup_count w)
      \/ s_config_file s'
         = Some (Config (w_auto_backup w') (w_backup_count w'))).

(** * Properties *)

(** ** Bytes and enumeration below a bound *)

Lemma Nrange_In (n : nat) (x : N) : x < N.of_nat n -> In x (Nrange n).
Proof.
  intros Hx. unfold Nrange.
  replace x with (N.of_nat (N.to_nat x)) by apply N2Nat.id.
  apply in_map, in_seq. lia.
Qed.

Lemma forall_below (P : N -> bool) (n : nat) :
  forallb P (Nrange n) = true -> forall x, x < N.of_nat n -> P x = true.
Proof.
  intros Hall x Hx. rewrite forallb_forall in Hall.
  apply Hall, Nrange_In, Hx.
Qed.

Lemma forall_below2 (P : N -> N -> bool) (n m : nat) :
  forallb (fun a => forallb (P a) (Nrange m)) (Nrange n) = true ->
  forall a b, a < N.of_nat n -> b < N.of_nat m -> P a b = true.
Proof.
  intros Hall a b Ha Hb.
  apply (@forall_below (P a) m); [|exact Hb].
  apply (@forall_below (fun a => forallb (P a) (Nrange m)) n Hall a Ha).
Qed.

Lemma to_N_lt (b : byte) : Byte.to_N b < 256.
Proof. pose proof (Byte.to_N_bounded b). lia. Qed.

Lemma byte_of_to_N (b : byte) : byte_of_N (Byte.to_N b) = b.
Proof.
  unfold byte_of_N. rewrite N.mod_small by apply to_N_lt.
  now rewrite Byte.of_to_N.
Qed.

Lemma to_N_byte_of_N (n : N) : n < 256 -> Byte.to_N (byte_of_N n) = n.
Proof.
  intros Hn. unfold byte_of_N. rewrite N.mod_small by exact Hn.
  destruct (Byte.of_N n) as [b|] eqn:E.
  - now apply Byte.to_of_N.
  - apply Byte.of_N_None_iff in E. lia.
Qed.

(** A property checked on every value below 256 holds of every byte. *)
Lemma forall_byte (P : byte -> bool) :
  forallb (fun n => P (byte_of_N n)) (Nrange 256) = true ->
  forall b, P b = true.
Proof.
  intros Hall b. rewrite <- (byte_of_to_N b).
  apply (@forall_below _ 256 Hall). apply to_N_lt.
Qed.

Lemma forall_byte2 (P : byte -> byte -> bool) :
  forallb (fun n => forallb (fun m => P (byte_of_N n) (byte_of_N m)) (Nrange 256))
    (Nrange 256) = true ->
  forall a b, P a b = true.
Proof.
  intros Hall a b. rewrite <- (byte_of_to_N a), <- (byte_of_to_N b).
  apply (@forall_below2 (fun n m => P (byte_of_N n) (byte_of_N m)) 256 256 Hall);
    apply to_N_lt.
Qed.

Lemma byte_eqb_eq (a b : byte) : Byte.eqb a b = true <-> a = b.
Proof.
  split.
  - apply Byte.byte_dec_bl.
  - apply Byte.byte_dec_lb.
Qed.

Lemma byte_eqb_refl (a : byte) : Byte.eqb a a = true.
Proof. now apply byte_eqb_eq. Qed.

Lemma bytes_eqb_eq (a b : bytes) : bytes_eqb a b = true <-> a = b.
Proof.
  revert b. induction a as [|x a IH]; intros [|y b]; simpl; split;
    try congruence; try reflexivity.
  - intros E. apply andb_true_iff in E as [E1 E2].
    apply byte_eqb_eq in E1. apply IH in E2. congruence.
  - intros E. injection E as -> ->. apply andb_true_iff. split.
    + apply byte_eqb_refl.
    + now apply IH.
Qed.

Lemma bytes_eqb_refl (a : bytes) : bytes_eqb a a = true.
Proof. now apply bytes_eqb_eq. Qed.

Lemma byte_xor_involutive (k b : byte) : byte_xor k (byte_xor k b) = b.
Proof.
  apply byte_eqb_eq.
  apply (@forall_byte2 (fun k b => Byte.eqb (byte_xor k (byte_xor k b)) b)).
  vm_compute. reflexivity.
Qed.

Lemma to_bytes_big_length (len : nat) (n : N) : length (to_bytes_big len n) = len.
Proof.
  revert n. induction len as [|len IH]; intros n; simpl.
  - reflexivity.
  - rewrite length_app, IH. simpl. lia.
Qed.

Lemma xor_bytes_length (a b : bytes) :
  length (xor_bytes a b) = Nat.min (length a) (length b).
Proof.
  revert b. induction a as [|x a IH]; intros [|y b]; simpl; auto.
Qed.

Lemma pystr_eqb_eq (a b : pystr) : pystr_eqb a b = true <-> a = b.
Proof.
  revert b. induction a as [|x a IH]; intros [|y b]; simpl; split;
    try congruence; try reflexivity.
  - intros E. apply andb_true_iff in E as [E1 E2].
    apply N.eqb_eq in E1. apply IH in E2. congruence.
  - intros E. injection E as -> ->. apply andb_true_iff. split.
    + apply N.eqb_refl.
    + now apply IH.
Qed.

Lemma pystr_eqb_refl (a : pystr) : pystr_eqb a a = true.
Proof. now apply pystr_eqb_eq. Qed.

(** ** base64 *)

Module Base64Facts.
Import Base64 Sextets.

Lemma a2b_b2a (s : N) : s < 64 -> a2b (b2a s) = Some s.
Proof.
  intros Hs.
  assert (E : (match a2b (b2a s) with Some v => v =? s | None => false end) = true).
  { apply (@forall_below
             (fun s => match a2b (b2a s) with Some v => v =? s | None => false end)
             64); [vm_compute; reflexivity | exact Hs]. }
  destruct (a2b (b2a s)) as [v|]; [|discriminate].
  apply N.eqb_eq in E. now subst.
Qed.

Lemma b2a_not_pad (s : N) : s < 64 -> Byte.eqb (b2a s) pad_char = false.
Proof.
  intros Hs.
  apply negb_true_iff.
  apply (@forall_below (fun s => negb (Byte.eqb (b2a s) pad_char)) 64);
    [vm_compute; reflexivity | exact Hs].
Qed.

Lemma sextets_facts (a b : N) : a < 256 -> b < 256 -> sextets_ok a b = true.
Proof.
  apply (@forall_below2 sextets_ok 256 256). vm_compute. reflexivity.
Qed.

Ltac sextet_facts a b :=
  let F := fresh "F" in
  pose proof (sextets_facts (to_N_lt a) (to_N_lt b)) as F;
  unfold sextets_ok in F;
  repeat (apply andb_true_iff in F; destruct F as [F ?]);
  repeat match goal with
         | E : (_ <? _) = true |- _ => apply N.ltb_lt in E
         | E : (_ =? _) = true |- _ => apply N.eqb_eq in E
         end.

(** Decoding a full group gives its three bytes back and leaves the
    decoder at the start of a quad. *)
Lemma a2b_loop_group (a b c : byte) (rest : bytes) :
  a2b_loop (b2a (s1 (Byte.to_N a)) :: b2a (s2 (Byte.to_N a) (Byte.to_N b))
            :: b2a (s3 (Byte.to_N b) (Byte.to_N c)) :: b2a (s4 (Byte.to_N c))
            :: rest) 0 0 0
  = option_map (fun l => a :: b :: c :: l) (a2b_loop rest 0 0 0).
Proof.
  sextet_facts a b. sextet_facts b c. sextet_facts c c.
  cbn [a2b_loop].
  rewrite !b2a_not_pad, !a2b_b2a by assumption.
  cbn [option_map].
  repeat match goal with E : _ = _ |- _ => rewrite E end.
  rewrite !byte_of_to_N.
  destruct (a2b_loop rest 0 0 0); reflexivity.
Qed.

Lemma urlsafe_b64encode_group (a b c : byte) (rest : bytes) :
  urlsafe_b64encode (a :: b :: c :: rest)
  = b2a (s1 (Byte.to_N a)) :: b2a (s2 (Byte.to_N a) (Byte.to_N b))
    :: b2a (s3 (Byte.to_N b) (Byte.to_N c)) :: b2a (s4 (Byte.to_N c))
    :: urlsafe_b64encode rest.
Proof. reflexivity. Qed.

Lemma tail_facts (a : N) : a < 256 -> tail_ok a = true.
Proof.
  apply (@forall_below tail_ok 256). vm_compute. reflexivity.
Qed.

Ltac tail_facts a :=
  let F := fresh "F" in
  pose proof (tail_facts (to_N_lt a)) as F;
  unfold tail_ok in F;
  repeat (apply andb_true_iff in F; destruct F as [F ?]);
  repeat match goal with
         | E : (_ <? _) = true |- _ => apply N.ltb_lt in E
         | E : (_ =? _) = true |- _ => apply N.eqb_eq in E
         end.

Lemma a2b_loop_encode (n : nat) :
  forall bs, (length bs <= n)%nat ->
  a2b_loop (urlsafe_b64encode bs) 0 0 0 = Some bs.
Proof.
  induction n as [n IH] using lt_wf_ind.
  intros [|a [|b [|c rest]]] Hlen.
  - reflexivity.
  - sextet_facts a a. tail_facts a.
    change (urlsafe_b64encode [a])
      with [b2a (s1 (Byte.to_N a)); b2a (t2 (Byte.to_N a)); pad_char; pad_char].
    cbn [a2b_loop].
    rewrite !b2a_not_pad, !a2b_b2a, !byte_eqb_refl by assumption.
    cbn [Nat.leb Nat.add option_map].
    repeat match goal with E : _ = _ |- _ => rewrite E end.
    now rewrite byte_of_to_N.
  - sextet_facts a b. tail_facts b.
    change (urlsafe_b64encode [a; b])
      with [b2a (s1 (Byte.to_N a)); b2a (s2 (Byte.to_N a) (Byte.to_N b));
            b2a (t3 (Byte.to_N b)); pad_char].
    cbn [a2b_loop].
    rewrite !b2a_not_pad, !a2b_b2a, !byte_eqb_refl by assumption.
    cbn [Nat.leb Nat.add option_map].
    repeat match goal with E : _ = _ |- _ => rewrite E end.
    now rewrite !byte_of_to_N.
  - rewrite urlsafe_b64encode_group, a2b_loop_group.
    simpl in Hlen.
    rewrite (IH (length rest)) by lia. reflexivity.
Qed.

(** Decoding an encoding gives the bytes back. *)
Lemma urlsafe_b64decode_encode (bs : bytes) :
  urlsafe_b64decode (urlsafe_b64encode bs) = Some bs.
Proof. apply (a2b_loop_encode (n := length bs)). lia. Qed.

Lemma urlsafe_b64encode_inj (a b : bytes) :
  urlsafe_b64encode a = urlsafe_b64encode b -> a = b.
Proof.
  intros E.
  pose proof (urlsafe_b64decode_encode a) as Ha.
  rewrite E, urlsafe_b64decode_encode in Ha. congruence.
Qed.

(** The encoding of [n] bytes has [4 * ceil(n / 3)] characters. *)
Lemma urlsafe_b64encode_length (n : nat) :
  forall bs, length bs = n ->
  length (urlsafe_b64encode bs) = (4 * ((n + 2) / 3))%nat.
Proof.
  induction n as [n IH] using lt_wf_ind.
  intros [|a [|b [|c rest]]] Hlen; subst n.
  - reflexivity.
  - reflexivity.
  - reflexivity.
  - rewrite urlsafe_b64encode_group.
    cbn [length].
    rewrite (IH (length rest)) by (simpl; lia).
    replace (S (S (S (length rest))) + 2)%nat with (length rest + 2 + 1 * 3)%nat by lia.
    rewrite Nat.div_add by lia. lia.
Qed.

End Base64Facts.

(** ** Slices *)

Lemma firstn_app_exact {A} (a b : list A) (n : nat) :
  length a = n -> firstn n (a ++ b) = a.
Proof.
  intros <-. rewrite firstn_app, Nat.sub_diag, firstn_all. simpl.
  apply app_nil_r.
Qed.

Lemma skipn_app_exact {A} (a b : list A) (n : nat) :
  length a = n -> skipn n (a ++ b) = b.
Proof.
  intros <-. rewrite skipn_app, Nat.sub_diag, skipn_all. reflexivity.
Qed.

Lemma drop_last_app {A} (a b : list A) (k : nat) :
  length b = k -> drop_last k (a ++ b) = a.
Proof.
  intros <-. unfold drop_last. rewrite length_app, Nat.add_sub.
  now apply firstn_app_exact.
Qed.

Lemma take_last_app {A} (a b : list A) (k : nat) :
  length b = k -> take_last k (a ++ b) = b.
Proof.
  intros <-. unfold take_last. rewrite length_app, Nat.add_sub.
  now apply skipn_app_exact.
Qed.

Lemma drop_take_last {A} (k : nat) (l : list A) :
  drop_last k l ++ take_last k l = l.
Proof. apply firstn_skipn. Qed.

(** ** HMAC, PBKDF2, PKCS7 and Fernet *)

Section CryptoFacts.
Context {C : Cryptography} {L : CryptographyLaws C}.

Lemma hmac_sha256_length (key msg : bytes) :
  length (hmac_sha256 key msg) = 32%nat.
Proof. apply sha256_length. Qed.

Lemma pbkdf2_block_length (pw salt : bytes) (c i : N) :
  length (pbkdf2_block pw salt c i) = 32%nat.
Proof.
  unfold pbkdf2_block.
  set (u1 := hmac_sha256 pw (salt ++ to_bytes_big 4 i)).
  assert (Inv : length (fst (N.iter (c - 1) (pbkdf2_step pw) (u1, u1))) = 32%nat
                /\ length (snd (N.iter (c - 1) (pbkdf2_step pw) (u1, u1))) = 32%nat).
  { apply N.iter_invariant
      with (Inv := fun ut => length (fst ut) = 32%nat /\ length (snd ut) = 32%nat).
    - intros [u t] [Hu Ht]. simpl in *. split.
      + apply hmac_sha256_length.
      + rewrite xor_bytes_length, Ht, hmac_sha256_length. reflexivity.
    - simpl. split; apply hmac_sha256_length. }
  apply Inv.
Qed.

(** The derived key has the requested 32 bytes. *)
Lemma pbkdf2_length_32 (pw salt : bytes) (c : N) :
  length (pbkdf2_hmac_sha256 pw salt c 32) = 32%nat.
Proof.
  unfold pbkdf2_hmac_sha256.
  change ((32 + 31) / 32)%nat with 1%nat.
  cbn [seq flat_map]. rewrite app_nil_r.
  rewrite firstn_all2; rewrite pbkdf2_block_length; auto.
Qed.

Lemma pkcs7_pad_length (data : bytes) :
  (length (pkcs7_pad data) mod 16 = 0)%nat /\ (0 < length (pkcs7_pad data))%nat.
Proof.
  unfold pkcs7_pad. rewrite length_app, repeat_length.
  pose proof (Nat.mod_upper_bound (length data) 16 ltac:(lia)) as Hm.
  pose proof (Nat.div_mod_eq (length data) 16) as Hd.
  split; [|lia].
  replace (length data + (16 - length data mod 16))%nat
    with ((1 + length data / 16) * 16)%nat by lia.
  apply Nat.Div0.mod_mul.
Qed.

Lemma last_app_repeat {A} (l : list A) (x d : A) (n : nat) :
  (0 < n)%nat -> last (l ++ repeat x n) d = x.
Proof.
  intros Hn. destruct n as [|n]; [lia|].
  replace (repeat x (S n)) with (repeat x n ++ [x]).
  - rewrite app_assoc. apply last_last.
  - clear. induction n as [|n IH]; simpl; [reflexivity|].
    now rewrite IH.
Qed.

Lemma forallb_repeat {A} (f : A -> bool) (x : A) (n : nat) :
  f x = true -> forallb f (repeat x n) = true.
Proof. intros Hx. induction n; simpl; [reflexivity|]. now rewrite Hx. Qed.

(** Removing the padding gives the data back. *)
Lemma pkcs7_unpad_pad (data : bytes) : pkcs7_unpad (pkcs7_pad data) = Some data.
Proof.
  destruct (pkcs7_pad_length data) as [Hmod Hpos].
  unfold pkcs7_unpad.
  replace (length (pkcs7_pad data) =? 0)%nat with false
    by (symmetry; apply Nat.eqb_neq; lia).
  rewrite Hmod. cbn [Nat.eqb negb orb].
  unfold pkcs7_pad in *.
  set (n := (16 - length data mod 16)%nat) in *.
  pose proof (Nat.mod_upper_bound (length data) 16 ltac:(lia)) as Hm.
  assert (Hn : (1 <= n <= 16)%nat) by (unfold n; lia).
  rewrite last_app_repeat by lia.
  rewrite to_N_byte_of_N by lia.
  rewrite Nat2N.id.
  rewrite take_last_app by apply repeat_length.
  rewrite drop_last_app by apply repeat_length.
  rewrite forallb_repeat by apply byte_eqb_refl.
  replace (1 <=? n)%nat with true by (symmetry; apply Nat.leb_le; lia).
  replace (n <=? 16)%nat with true by (symmetry; apply Nat.leb_le; lia).
  reflexivity.
Qed.

Lemma fernet_header_length (t : N) : length (x80 :: to_bytes_big 8 t) = 9%nat.
Proof. cbn [length]. now rewrite to_bytes_big_length. Qed.

(** A token of [Fernet.encrypt] decrypts, under the same key, to the data
    that was encrypted. *)
Lemma fernet_decrypt_encrypt (f : fernet) (data : bytes) (t : N) (iv : bytes) :
  length (encryption_key f) = 16%nat -> length iv = 16%nat ->
  fernet_decrypt f (fernet_encrypt_from_parts f data t iv) = Some data.
Proof.
  intros Hk Hiv.
  unfold fernet_decrypt, fernet_encrypt_from_parts.
  rewrite Base64Facts.urlsafe_b64decode_encode.
  set (ct := aes_cbc_encrypt (encryption_key f) iv (pkcs7_pad data)).
  assert (Hbp : fernet_basic_parts f data t iv
                = (x80 :: to_bytes_big 8 t) ++ iv ++ ct) by reflexivity.
  set (bp := fernet_basic_parts f data t iv) in *.
  set (h := hmac_sha256 (signing_key f) bp).
  assert (Hh : length h = 32%nat) by apply hmac_sha256_length.
  pose proof (fernet_header_length t) as Hhd.
  destruct (bp ++ h) as [|v rest] eqn:E.
  { rewrite Hbp in E. discriminate. }
  assert (v = x80) by (rewrite Hbp in E; simpl in E; congruence). subst v.
  rewrite <- E. cbn [Byte.eqb negb].
  replace (Byte.eqb x80 x80) with true by (symmetry; apply byte_eqb_refl).
  cbn [negb].
  replace (length (bp ++ h) <? 9)%nat with false.
  2:{ symmetry. apply Nat.ltb_ge. rewrite Hbp, !length_app, Hhd. lia. }
  unfold fernet_verify_signature.
  rewrite drop_last_app, take_last_app by exact Hh.
  change (hmac_sha256 (signing_key f) bp) with h.
  rewrite bytes_eqb_refl.
  cbn [negb].
  unfold slice, slice_from.
  rewrite Hbp, <- !app_assoc.
  rewrite (skipn_app_exact _ _ Hhd).
  change (25 - 9)%nat with 16%nat.
  rewrite (firstn_app_exact _ _ Hiv).
  replace (skipn 25 ((x80 :: to_bytes_big 8 t) ++ iv ++ ct ++ h)) with (ct ++ h).
  2:{ rewrite !app_assoc, <- (app_assoc _ ct h).
      symmetry. apply skipn_app_exact. rewrite length_app, Hhd, Hiv. reflexivity. }
  rewrite drop_last_app by exact Hh.
  unfold ct. rewrite aes_cbc_roundtrip; auto.
  - apply pkcs7_unpad_pad.
  - apply pkcs7_pad_length.
Qed.

(** Two tokens for the same data made with different IVs differ. *)
Lemma fernet_encrypt_iv_inj (f : fernet) (data : bytes) (t1 t2 : N)
    (iv1 iv2 : bytes) :
  length iv1 = 16%nat -> length iv2 = 16%nat ->
  fernet_encrypt_from_parts f data t1 iv1 = fernet_encrypt_from_parts f data t2 iv2 ->
  iv1 = iv2.
Proof.
  intros H1 H2 E. unfold fernet_encrypt_from_parts in E.
  apply Base64Facts.urlsafe_b64encode_inj in E.
  unfold fernet_basic_parts in E.
  assert (E' : firstn 16 (skipn 9 ((x80 :: to_bytes_big 8 t1 ++ iv1
                  ++ aes_cbc_encrypt (encryption_key f) iv1 (pkcs7_pad data))
                  ++ hmac_sha256 (signing_key f)
                       (x80 :: to_bytes_big 8 t1 ++ iv1
                          ++ aes_cbc_encrypt (encryption_key f) iv1 (pkcs7_pad data))))
               = firstn 16 (skipn 9 ((x80 :: to_bytes_big 8 t2 ++ iv2
                  ++ aes_cbc_encrypt (encryption_key f) iv2 (pkcs7_pad data))
                  ++ hmac_sha256 (signing_key f)
                       (x80 :: to_bytes_big 8 t2 ++ iv2
                          ++ aes_cbc_encrypt (encryption_key f) iv2 (pkcs7_pad data)))))
    by now rewrite E.
  clear E.
  pose proof fernet_header_length as Hhd.
  change (x80 :: to_bytes_big 8 t1 ++ ?r) with ((x80 :: to_bytes_big 8 t1) ++ r) in E'.
  change (x80 :: to_bytes_big 8 t2 ++ ?r) with ((x80 :: to_bytes_big 8 t2) ++ r) in E'.
  rewrite <- !app_assoc in E'.
  rewrite !(skipn_app_exact _ _ (Hhd _)) in E'.
  now rewrite (firstn_app_exact _ _ H1), (firstn_app_exact _ _ H2) in E'.
Qed.

(** [Fernet] accepts the base64 text of any 32 bytes. *)
Lemma Fernet_of_encoded (raw : bytes) :
  length raw = 32%nat ->
  Fernet (Base64.urlsafe_b64encode raw)
  = Some (Fernet_ (firstn 16 raw) (skipn 16 raw)).
Proof.
  intros Hlen. unfold Fernet.
  rewrite Base64Facts.urlsafe_b64decode_encode, Hlen. reflexivity.
Qed.

Lemma Fernet_key_lengths (k : bytes) (f : fernet) :
  Fernet k = Some f ->
  length (signing_key f) = 16%nat /\ length (encryption_key f) = 16%nat.
Proof.
  unfold Fernet. destruct (Base64.urlsafe_b64decode k) as [raw|]; [|discriminate].
  destruct (length raw =? 32)%nat eqn:E; [|discriminate].
  apply Nat.eqb_eq in E. intros Hf.
  assert (Hs : signing_key f = firstn 16 raw) by (injection Hf as <-; reflexivity).
  assert (He : encryption_key f = skipn 16 raw) by (injection Hf as <-; reflexivity).
  rewrite Hs, He, length_firstn, length_skipn, E. split; reflexivity.
Qed.

End CryptoFacts.

(** PBKDF2 runs its hundred thousand rounds only on paper. *)
Global Opaque pbkdf2_hmac_sha256.

(** ** The small instance satisfies the laws *)

Lemma demo_crypto_laws : CryptographyLaws Demo.crypto.
Proof.
  split.
  - intros m. apply to_bytes_big_length.
  - intros k iv p _ _ Hp. cbn [aes_cbc_decrypt aes_cbc_encrypt Demo.crypto].
    unfold Demo.xor_decrypt, Demo.xor_encrypt.
    rewrite length_map, Hp. cbn [Nat.eqb].
    rewrite map_map. f_equal.
    rewrite <- (map_id p) at 2. apply map_ext.
    intros b. apply byte_xor_involutive.
Qed.

Lemma demo_python_laws : PythonLaws Demo.python.
Proof.
  split. intros s b. cbn [str_encode bytes_decode Demo.python].
  unfold Demo.latin1_encode, Demo.latin1_decode.
  destruct (forallb (fun c => c <? 256) s) eqn:E; [|discriminate].
  intros [= <-]. f_equal. rewrite map_map.
  rewrite <- (map_id s) at 2. apply map_ext_in.
  intros c Hc. rewrite forallb_forall in E.
  apply to_N_byte_of_N, N.ltb_lt, E, Hc.
Qed.

Lemma demo_host_laws : HostLaws Demo.host.
Proof. split. intros l. apply Permutation_refl. Qed.

(** ** The monad *)

Lemma bind_ret_l {A B} (a : A) (k : A -> M B) (w : world) :
  bind (ret a) k w = k a w.
Proof. reflexivity. Qed.

Lemma bind_inl {A B} {m : M A} {k : A -> M B} {w w' : world} {a : A} :
  m w = (inl a, w') -> bind m k w = k a w'.
Proof. intros E. unfold bind. now rewrite E. Qed.

Lemma bind_inr {A B} {m : M A} {k : A -> M B} {w w' : world} {e : exn} :
  m w = (inr e, w') -> bind m k w = (inr e, w').
Proof. intros E. unfold bind. now rewrite E. Qed.

Lemma input_cons (l : pystr) (rest : list pystr) (w : world) :
  w_stdin w = l :: rest -> input w = (inl l, set_stdin rest w).
Proof. intros E. unfold input. now rewrite E. Qed.

Lemma bind_assoc {A B D} (m : M A) (k1 : A -> M B) (k2 : B -> M D) (w : world) :
  bind (bind m k1) k2 w = bind m (fun x => bind (k1 x) k2) w.
Proof. unfold bind. destruct (m w) as [[a|e] w']; reflexivity. Qed.

Lemma bind_input {B} (k : pystr -> M B) (w : world) (l : pystr)
    (rest : list pystr) :
  w_stdin w = l :: rest -> bind input k w = k l (set_stdin rest w).
Proof. intros E. apply bind_inl. now apply input_cons. Qed.

Lemma bind_input_eof {B} (k : pystr -> M B) (w : world) :
  w_stdin w = [] -> bind input k w = (inr EOFError, w).
Proof. intros E. apply bind_inr. unfold input. now rewrite E. Qed.

Lemma bind_emit {B} (e : event) (k : unit -> M B) (w : world) :
  bind (emit e) k w = k tt (set_out (w_out w ++ [e]) w).
Proof. reflexivity. Qed.

Lemma bind_modify {B} (f : world -> world) (k : unit -> M B) (w : world) :
  bind (modify f) k w = k tt (f w).
Proof. reflexivity. Qed.

Lemma bind_get_world {B} (k : world -> M B) (w : world) :
  bind get_world k w = k w w.
Proof. reflexivity. Qed.

Lemma bind_datetime_now {B} (k : N -> M B) (w : world) :
  bind datetime_now k w = k (w_clock w (w_tick w)) (set_tick (S (w_tick w)) w).
Proof. reflexivity. Qed.

Lemma bind_commit {B} (rows : list row) (k : unit -> M B) (w : world) :
  bind (commit rows) k w
  = k tt (set_db rows (w_clock w (w_tick w)) (set_tick (S (w_tick w)) w)).
Proof. reflexivity. Qed.

(** One step of a method on a world whose next input line is known. *)
Ltac mstep :=
  first
    [ rewrite bind_assoc
    | rewrite bind_ret_l
    | rewrite bind_emit
    | rewrite bind_modify
    | rewrite bind_get_world
    | rewrite bind_commit
    | rewrite bind_datetime_now
    | erewrite bind_input by (cbn; reflexivity) ].

Ltac msteps := repeat mstep.

(** ** The salt file *)

Lemma keeps_ret {A} (a : A) : keeps_salt (ret a).
Proof. intros w s Hs. exact Hs. Qed.

Lemma keeps_raise {A} (e : exn) : keeps_salt (@raise A e).
Proof. intros w s Hs. exact Hs. Qed.

Lemma keeps_bind {A B} (m : M A) (k : A -> M B) :
  keeps_salt m -> (forall a, keeps_salt (k a)) -> keeps_salt (bind m k).
Proof.
  intros Hm Hk w s Hs. unfold bind.
  specialize (Hm w s Hs).
  destruct (m w) as [[a|e] w']; simpl in *.
  - now apply Hk.
  - exact Hm.
Qed.

Lemma keeps_try {A} (m : M A) (h : exn -> M A) :
  keeps_salt m -> (forall e, keeps_salt (h e)) -> keeps_salt (try_except m h).
Proof.
  intros Hm Hh w s Hs. unfold try_except.
  specialize (Hm w s Hs).
  destruct (m w) as [[a|e] w']; simpl in *.
  - exact Hm.
  - now apply Hh.
Qed.

Lemma keeps_get_world : keeps_salt get_world.
Proof. intros w s Hs. exact Hs. Qed.

Lemma keeps_modify (f : world -> world) :
  (forall w, w_salt (f w) = w_salt w) -> keeps_salt (modify f).
Proof. intros Hf w s Hs. simpl. now rewrite Hf. Qed.

Lemma keeps_lift_option {A} (e : exn) (o : option A) : keeps_salt (lift_option e o).
Proof. destruct o; [apply keeps_ret | apply keeps_raise]. Qed.

Lemma keeps_input : keeps_salt input.
Proof. intros w s Hs. unfold input. destruct (w_stdin w); exact Hs. Qed.

Lemma keeps_datetime_now : keeps_salt datetime_now.
Proof. intros w s Hs. exact Hs. Qed.

Lemma keeps_urandom (n : nat) : keeps_salt (urandom n).
Proof. intros w s Hs. exact Hs. Qed.

Lemma keeps_run_generator g : keeps_salt (run_generator g).
Proof.
  intros w s Hs. unfold run_generator.
  destruct (g (w_rand w) (w_rpos w)). exact Hs.
Qed.

(** When the file exists [get_salt] returns its contents and touches
    nothing. *)
Lemma get_salt_exists (w : world) (s : bytes) :
  w_salt w = Some s -> get_salt w = (inl s, w).
Proof. intros Hs. unfold get_salt, bind, get_world. now rewrite Hs. Qed.

Lemma keeps_get_salt : keeps_salt get_salt.
Proof. intros w s Hs. now rewrite (get_salt_exists _ Hs). Qed.

Create HintDb salt.

Ltac keeps_step :=
  first
    [ solve [auto with salt nocore]
    | apply keeps_ret | apply keeps_raise | apply keeps_get_world
    | apply keeps_lift_option | apply keeps_input | apply keeps_datetime_now
    | apply keeps_urandom | apply keeps_run_generator | apply keeps_get_salt
    | apply keeps_modify; intros; reflexivity
    | apply keeps_bind; [| intros ?]
    | apply keeps_try; [| intros ?]
    | assumption
    | match goal with
      | |- keeps_salt (match ?x with _ => _ end) => destruct x
      | |- keeps_salt (let (_, _) := ?x in _) => destruct x
      end ].

Ltac keeps := cbv zeta; repeat keeps_step.

Section KeepsSalt.
Context {C : Cryptography} {P : Python} {H : Host} {G : Generators}.

Lemma keeps_emit (e : event) : keeps_salt (emit e).
Proof. unfold emit. keeps. Qed.

Lemma keeps_print_error t : keeps_salt (print_error t).
Proof. apply keeps_emit. Qed.

Lemma keeps_print_success t : keeps_salt (print_success t).
Proof. apply keeps_emit. Qed.

Lemma keeps_print_warning t : keeps_salt (print_warning t).
Proof. apply keeps_emit. Qed.

Lemma keeps_print_info t : keeps_salt (print_info t).
Proof. apply keeps_emit. Qed.

Lemma keeps_time_time : keeps_salt time_time.
Proof. unfold time_time. keeps. Qed.

Lemma keeps_commit rows : keeps_salt (commit rows).
Proof. unfold commit. keeps. Qed.

Lemma keeps_clipboard_copy s msg : keeps_salt (clipboard_copy s msg).
Proof. unfold clipboard_copy. keeps. Qed.

Lemma keeps_get_key pw : keeps_salt (get_key pw).
Proof. unfold get_key. keeps. Qed.

Lemma keeps_fernet_of_key : keeps_salt fernet_of_key.
Proof. unfold fernet_of_key. keeps. Qed.

Lemma keeps_encrypt_body data : keeps_salt (encrypt_body data).
Proof. unfold encrypt_body, fernet_encrypt. keeps. Qed.

Lemma keeps_decrypt data : keeps_salt (decrypt data).
Proof. unfold decrypt. keeps. Qed.

Lemma keeps_for_each {A} (xs : list A) (body : A -> M unit) :
  (forall x, keeps_salt (body x)) -> keeps_salt (for_each xs body).
Proof.
  intros Hb. induction xs as [|x xs IH]; simpl; keeps.
Qed.

End KeepsSalt.

Section KeepsSaltMethods.
Context {C : Cryptography} {P : Python} {H : Host} {G : Generators}.

Hint Resolve keeps_get_key keeps_encrypt_body keeps_decrypt keeps_clipboard_copy
  keeps_for_each keeps_emit keeps_commit keeps_time_time keeps_fernet_of_key : salt.

Ltac keeps_all := keeps; eauto with salt.

Lemma keeps_V25_encrypt data : keeps_salt (V25.encrypt data).
Proof. unfold V25.encrypt. keeps_all.
Qed.
Hint Resolve keeps_V25_encrypt : salt.

Lemma keeps_V25_set_master_loop fuel : keeps_salt (V25.set_master_loop fuel).
Proof. induction fuel as [|fuel IH]; cbn [V25.set_master_loop]; keeps_all.
Qed.
Hint Resolve keeps_V25_set_master_loop : salt.

Lemma keeps_V25_set_master : keeps_salt V25.set_master.
Proof. unfold V25.set_master. keeps_all.
Qed.
Hint Resolve keeps_V25_set_master : salt.

Lemma keeps_V25_verify_loop stored attempts :
  keeps_salt (V25.verify_loop stored attempts).
Proof.
  induction attempts as [|a attempts IH]; cbn [V25.verify_loop]; keeps_all.
Qed.
Hint Resolve keeps_V25_verify_loop : salt.

Lemma keeps_V25_verify_master : keeps_salt V25.verify_master.
Proof.
  unfold V25.verify_master. keeps_all.
Qed.
Hint Resolve keeps_V25_verify_master : salt.

Lemma keeps_V25_backup silent : keeps_salt (V25.backup silent).
Proof. unfold V25.backup. keeps_all.
Qed.
Hint Resolve keeps_V25_backup : salt.

Lemma keeps_V25_auto_backup : keeps_salt V25.auto_backup.
Proof. unfold V25.auto_backup. keeps_all.
Qed.
Hint Resolve keeps_V25_auto_backup : salt.

Lemma keeps_V25_add_password choice : keeps_salt (V25.add_password choice).
Proof. unfold V25.add_password, V25.display_strength. keeps_all.
Qed.
Hint Resolve keeps_V25_add_password : salt.

Lemma keeps_V25_add : keeps_salt V25.add.
Proof.
  unfold V25.add. keeps_all.
Qed.
Hint Resolve keeps_V25_add : salt.

Lemma keeps_V25_get_row r : keeps_salt (V25.get_row r).
Proof. unfold V25.get_row, V25.display_strength. keeps_all.
Qed.
Hint Resolve keeps_V25_get_row : salt.

Lemma keeps_V25_get : keeps_salt V25.get.
Proof.
  unfold V25.get. keeps_all.
Qed.
Hint Resolve keeps_V25_get : salt.

Lemma keeps_V25_update_password choice : keeps_salt (V25.update_password choice).
Proof. unfold V25.update_password. keeps_all.
Qed.
Hint Resolve keeps_V25_update_password : salt.

Lemma keeps_V25_update : keeps_salt V25.update.
Proof.
  unfold V25.update. keeps_all.
Qed.
Hint Resolve keeps_V25_update : salt.

Lemma keeps_V25_export_rows rows : keeps_salt (V25.export_rows rows).
Proof. induction rows as [|r rows IH]; cbn [V25.export_rows]; keeps_all.
Qed.
Hint Resolve keeps_V25_export_rows : salt.

Lemma keeps_V2_set_master_loop fuel : keeps_salt (V2.set_master_loop fuel).
Proof. induction fuel as [|fuel IH]; cbn [V2.set_master_loop]; keeps_all.
Qed.
Hint Resolve keeps_V2_set_master_loop : salt.

Lemma keeps_V2_set_master : keeps_salt V2.set_master.
Proof. unfold V2.set_master. keeps_all.
Qed.
Hint Resolve keeps_V2_set_master : salt.

Lemma keeps_V2_verify_loop stored attempts :
  keeps_salt (V2.verify_loop stored attempts).
Proof.
  induction attempts as [|attempts IH]; cbn [V2.verify_loop]; keeps_all.
Qed.
Hint Resolve keeps_V2_verify_loop : salt.

Lemma keeps_V2_verify_master : keeps_salt V2.verify_master.
Proof.
  unfold V2.verify_master. keeps_all.
Qed.
Hint Resolve keeps_V2_verify_master : salt.

Lemma keeps_V2_add : keeps_salt V2.add.
Proof. unfold V2.add, V2.show_strength, V2.encrypt. keeps_all.
Qed.
Hint Resolve keeps_V2_add : salt.

Lemma keeps_V2_get_row r : keeps_salt (V2.get_row r).
Proof. unfold V2.get_row, V2.show_strength. keeps_all.
Qed.
Hint Resolve keeps_V2_get_row : salt.

Lemma keeps_V2_get : keeps_salt V2.get.
Proof.
  unfold V2.get. keeps_all.
Qed.
Hint Resolve keeps_V2_get : salt.

Lemma keeps_V2_update : keeps_salt V2.update.
Proof. unfold V2.update, V2.encrypt. keeps_all.
Qed.
Hint Resolve keeps_V2_update : salt.

Lemma keeps_V2_backup : keeps_salt V2.backup.
Proof. unfold V2.backup. keeps_all.
Qed.
Hint Resolve keeps_V2_backup : salt.

End KeepsSaltMethods.

(** ** Key derivation *)

Section KeyFacts.
Context {C : Cryptography} {P : Python}.

(** The value [get_key] computes from a passphrase and a salt. *)
Lemma get_salt_absent (w : world) :
  w_salt w = None ->
  get_salt w
  = (inl (map (w_rand w) (seq (w_rpos w) 16)),
     set_salt (Some (map (w_rand w) (seq (w_rpos w) 16)))
       (set_rpos (w_rpos w + 16) w)).
Proof. intros Hs. unfold get_salt, bind, get_world. now rewrite Hs. Qed.

Lemma get_key_with_salt (pw : pystr) (w : world) (s : bytes) :
  w_salt w = Some s ->
  get_key pw w
  = (match str_encode pw with
     | Some b =>
         inl (Base64.urlsafe_b64encode (pbkdf2_hmac_sha256 b s iterations 32))
     | None => inr UnicodeEncodeError
     end, w).
Proof.
  intros Hs. unfold get_key.
  rewrite (bind_inl (get_salt_exists _ Hs)).
  destruct (str_encode pw); reflexivity.
Qed.

Lemma get_key_without_salt (pw : pystr) (w : world) :
  w_salt w = None ->
  get_key pw w
  = (match str_encode pw with
     | Some b =>
         inl (Base64.urlsafe_b64encode
                (pbkdf2_hmac_sha256 b (map (w_rand w) (seq (w_rpos w) 16))
                   iterations 32))
     | None => inr UnicodeEncodeError
     end,
     set_salt (Some (map (w_rand w) (seq (w_rpos w) 16)))
       (set_rpos (w_rpos w + 16) w)).
Proof.
  intros Hs. unfold get_key.
  rewrite (bind_inl (get_salt_absent _ Hs)).
  destruct (str_encode pw); reflexivity.
Qed.

(** After a call the salt file exists, and a second call returns what the
    first returned. *)
Lemma get_key_twice (pw : pystr) (w : world) :
  eval (get_key pw) (exec (get_key pw) w) = eval (get_key pw) w.
Proof.
  unfold eval, exec. destruct (w_salt w) as [s|] eqn:Hs.
  - rewrite (get_key_with_salt pw _ Hs). cbn [snd fst].
    now rewrite (get_key_with_salt pw _ Hs).
  - rewrite (get_key_without_salt pw _ Hs). cbn [snd fst].
    now rewrite (@get_key_with_salt pw _ (map (w_rand w) (seq (w_rpos w) 16))).
Qed.

Lemma key_text_length (raw : bytes) :
  length raw = 32%nat -> length (Base64.urlsafe_b64encode raw) = 44%nat.
Proof.
  intros Hlen. now rewrite (Base64Facts.urlsafe_b64encode_length raw Hlen).
Qed.

End KeyFacts.


(** C3 (as amended): key derivation is deterministic and PBKDF2-based.  A
    second [get_key] with the same passphrase returns what the first
    returned, and in any two worlds with the same salt file the same
    passphrase gives the same key.  The value returned for an encodable
    passphrase is the URL-safe base64 text, 44 bytes long, of
    [PBKDF2-HMAC-SHA256(passphrase, salt, 100000 iterations, 32 bytes)]:
    the key proper has exactly 32 bytes and is recovered by decoding. *)
Theorem C3_get_key_deterministic_pbkdf2
    {C : Cryptography} {L : CryptographyLaws C} {P : Python}
    (pw : pystr) (w : world) :
  eval (get_key pw) (exec (get_key pw) w) = eval (get_key pw) w
  /\ (forall (w' : world) (s : bytes),
        w_salt w = Some s -> w_salt w' = Some s ->
        eval (get_key pw) w' = eval (get_key pw) w)
  /\ (forall b : bytes,
        str_encode pw = Some b ->
        exists s raw,
          w_salt (exec (get_key pw) w) = Some s
          /\ raw = pbkdf2_hmac_sha256 b s iterations 32
          /\ (100000 <= iterations)%N
          /\ length raw = 32%nat
          /\ eval (get_key pw) w = inl (Base64.urlsafe_b64encode raw)
          /\ length (Base64.urlsafe_b64encode raw) = 44%nat
          /\ Base64.urlsafe_b64decode (Base64.urlsafe_b64encode raw) = Some raw).
Proof.
  split; [apply get_key_twice|]. split.
  - intros w' s Hs Hs'. unfold eval.
    now rewrite (get_key_with_salt pw _ Hs), (get_key_with_salt pw _ Hs').
  - intros b Hb.
    assert (Hgoal : forall s w1,
               get_key pw w = (inl (Base64.urlsafe_b64encode
                                      (pbkdf2_hmac_sha256 b s iterations 32)), w1) ->
               w_salt w1 = Some s ->
               exists s raw,
                 w_salt (exec (get_key pw) w) = Some s
                 /\ raw = pbkdf2_hmac_sha256 b s iterations 32
                 /\ (100000 <= iterations)%N
                 /\ length raw = 32%nat
                 /\ eval (get_key pw) w = inl (Base64.urlsafe_b64encode raw)
                 /\ length (Base64.urlsafe_b64encode raw) = 44%nat
                 /\ Base64.urlsafe_b64decode (Base64.urlsafe_b64encode raw)
                    = Some raw).
    { intros s w1 E Hs1. exists s, (pbkdf2_hmac_sha256 b s iterations 32).
      unfold exec, eval. rewrite E. cbn [fst snd].
      pose proof (pbkdf2_length_32 b s iterations) as Hlen.
      split; [exact Hs1|]. split; [exact eq_refl|].
      split; [unfold iterations; lia|]. split; [exact Hlen|].
      split; [exact eq_refl|]. split.
      - now apply key_text_length.
      - apply Base64Facts.urlsafe_b64decode_encode. }
    destruct (w_salt w) as [s|] eqn:Hs.
    + apply (Hgoal s w); [|exact Hs].
      now rewrite (get_key_with_salt pw _ Hs), Hb.
    + eapply Hgoal.
      * rewrite (get_key_without_salt pw _ Hs), Hb. reflexivity.
      * reflexivity.
Qed.

Section C3AtDemo.
Local Existing Instances Demo.crypto Demo.python Demo.host Demo.generators.

(** The theorem at the small instance, for the passphrase ["hunter2"] in a
    world without a salt file. *)
Lemma C3_get_key_deterministic_pbkdf2_witness :
  exists s raw,
    w_salt (exec (get_key (str_lit "hunter2")) (Demo.world0 [] 0)) = Some s
    /\ raw = pbkdf2_hmac_sha256
               (map byte_of_N (str_lit "hunter2")) s iterations 32
    /\ (100000 <= iterations)%N
    /\ length raw = 32%nat
    /\ eval (get_key (str_lit "hunter2")) (Demo.world0 [] 0)
       = inl (Base64.urlsafe_b64encode raw)
    /\ length (Base64.urlsafe_b64encode raw) = 44%nat
    /\ Base64.urlsafe_b64decode (Base64.urlsafe_b64encode raw) = Some raw.
Proof.
  apply (proj2 (proj2 (@C3_get_key_deterministic_pbkdf2
                         Demo.crypto demo_crypto_laws Demo.python
                         (str_lit "hunter2") (Demo.world0 [] 0)))).
  reflexivity.
Defined.

(** The claim as it was stated fails: the key [get_key] returns has 44
    bytes, not 32. *)
Lemma C3_returned_key_is_not_32_bytes :
  exists key,
    eval (get_key (str_lit "hunter2")) (Demo.world0 [] 0) = inl key
    /\ length key = 44%nat /\ length key <> 32%nat.
Proof.
  eexists. split.
  - unfold eval. rewrite get_key_without_salt by reflexivity.
    change (str_encode (str_lit "hunter2"))
      with (Some (map byte_of_N (str_lit "hunter2"))).
    cbv beta iota. cbn [fst]. exact eq_refl.
  - rewrite key_text_length; [split; [exact eq_refl | discriminate]|].
    apply (@pbkdf2_length_32 Demo.crypto demo_crypto_laws).
Qed.

End C3AtDemo.
Example b64_encode_AB :
  Base64.urlsafe_b64encode ["A"; "B"]%byte = ["Q"; "U"; "I"; "="]%byte.
Proof. reflexivity. Qed.

Example b64_decode_lenient :
  Base64.urlsafe_b64decode ["Q"; "Q"; "="; "x"; "="]%byte = Some ["A"; x0c]%byte.
Proof. reflexivity. Qed.

(** ** The master password: [set_master] and [verify_master] *)

Section MasterFacts.
Context {C : Cryptography} {P : Python}.

(** [get_key] succeeds on an encodable passphrase and touches nothing but
    the salt file and the entropy position. *)
Lemma get_key_encodable (pw : pystr) (b : bytes) (w : world) :
  str_encode pw = Some b ->
  exists key w',
    get_key pw w = (inl key, w')
    /\ w_master w' = w_master w /\ w_stdin w' = w_stdin w
    /\ w_out w' = w_out w /\ w_key w' = w_key w /\ w_rows w' = w_rows w.
Proof.
  intros Hb. destruct (w_salt w) as [s|] eqn:Hs.
  - rewrite (get_key_with_salt pw _ Hs), Hb. eexists _, _.
    split; [reflexivity|]. repeat split.
  - rewrite (get_key_without_salt pw _ Hs), Hb. eexists _, _.
    split; [reflexivity|]. repeat split.
Qed.

Lemma hash_password_encodable (pw : pystr) (b : bytes) :
  str_encode pw = Some b -> hash_password pw = Some (hex (sha256 b)).
Proof. intros Hb. unfold hash_password. now rewrite Hb. Qed.

(** A weak first entry: the warning, the strength display, and the loop
    goes on with the lines that remain. *)
Lemma V25_set_master_loop_weak (fuel : nat) (w : world) (pw : pystr)
    (rest : list pystr) :
  w_stdin w = pw :: rest ->
  (fst (V25.check_strength pw) < 3)%Z ->
  V25.set_master_loop (S fuel) w
  = (print_warning "Password is weak. Use a stronger password." ;;
     V25.display_strength pw ;;
     V25.set_master_loop fuel)%monad (set_stdin rest w).
Proof.
  intros Hin Hweak. cbn [V25.set_master_loop].
  unfold getpass. rewrite (bind_inl (input_cons w Hin)).
  apply Z.ltb_lt in Hweak. now rewrite Hweak.
Qed.

(** A strong entry typed twice: the digest is written to MASTER_FILE, the
    key is derived and kept, and [set_master] returns [True]. *)
Lemma V25_set_master_loop_accept (fuel : nat) (w : world) (pw : pystr)
    (rest : list pystr) (b : bytes) :
  w_stdin w = pw :: pw :: rest ->
  (3 <= fst (V25.check_strength pw))%Z ->
  str_encode pw = Some b ->
  exists key w',
    V25.set_master_loop (S fuel) w = (inl true, w')
    /\ w_master w' = Some (hex (sha256 b))
    /\ w_key w' = Some key
    /\ w_stdin w' = rest
    /\ fst (get_key pw (set_master_file (Some (hex (sha256 b)))
                          (set_stdin rest w))) = inl key.
Proof.
  intros Hin Hstrong Hb. cbn [V25.set_master_loop].
  unfold getpass. rewrite (bind_inl (input_cons w Hin)).
  replace (fst (V25.check_strength pw) <? 3)%Z with false
    by (symmetry; apply Z.ltb_ge; exact Hstrong).
  rewrite (@bind_inl _ _ input _ (set_stdin (pw :: rest) w) (set_stdin rest w) pw)
    by reflexivity.
  rewrite pystr_eqb_refl.
  unfold bind at 1. cbn [modify].
  rewrite (hash_password_encodable pw Hb).
  unfold bind at 1. cbn [lift_option ret].
  unfold bind at 1. cbn [modify].
  destruct (get_key_encodable pw
              (set_master_file (Some (hex (sha256 b)))
                 (set_master_file (Some []) (set_stdin rest w))) Hb)
    as (key & w' & Hk & Hm & Hi & Ho & Hkey & Hr).
  change (set_master_file (Some (hex (sha256 b)))
            (set_master_file (Some []) (set_stdin rest w)))
    with (set_master_file (Some (hex (sha256 b))) (set_stdin rest w)) in *.
  rewrite (bind_inl Hk).
  exists key. eexists. split; [reflexivity|].
  cbn. rewrite Hm, Hi, Hk. repeat split.
Qed.

Lemma V2_set_master_loop_weak (fuel : nat) (w : world) (pw : pystr)
    (rest : list pystr) :
  w_stdin w = pw :: rest ->
  (V2.check_strength pw < 3)%Z ->
  V2.set_master_loop (S fuel) w
  = (print_warning "Weak password. Use stronger." ;;
     V2.set_master_loop fuel)%monad (set_stdin rest w).
Proof.
  intros Hin Hweak. cbn [V2.set_master_loop].
  unfold getpass. rewrite (bind_inl (input_cons w Hin)).
  apply Z.ltb_lt in Hweak. now rewrite Hweak.
Qed.

Lemma V2_set_master_loop_accept (fuel : nat) (w : world) (pw : pystr)
    (rest : list pystr) (b : bytes) :
  w_stdin w = pw :: pw :: rest ->
  (3 <= V2.check_strength pw)%Z ->
  str_encode pw = Some b ->
  exists key w',
    V2.set_master_loop (S fuel) w = (inl true, w')
    /\ w_master w' = Some (hex (sha256 b))
    /\ w_key w' = Some key
    /\ w_stdin w' = rest
    /\ fst (get_key pw (set_master_file (Some (hex (sha256 b)))
                          (set_stdin rest w))) = inl key.
Proof.
  intros Hin Hstrong Hb. cbn [V2.set_master_loop].
  unfold getpass. rewrite (bind_inl (input_cons w Hin)).
  replace (V2.check_strength pw <? 3)%Z with false
    by (symmetry; apply Z.ltb_ge; exact Hstrong).
  rewrite (@bind_inl _ _ input _ (set_stdin (pw :: rest) w) (set_stdin rest w) pw)
    by reflexivity.
  rewrite pystr_eqb_refl.
  unfold bind at 1. cbn [modify].
  rewrite (hash_password_encodable pw Hb).
  unfold bind at 1. cbn [lift_option ret].
  unfold bind at 1. cbn [modify].
  destruct (get_key_encodable pw
              (set_master_file (Some (hex (sha256 b)))
                 (set_master_file (Some []) (set_stdin rest w))) Hb)
    as (key & w' & Hk & Hm & Hi & Ho & Hkey & Hr).
  change (set_master_file (Some (hex (sha256 b)))
            (set_master_file (Some []) (set_stdin rest w)))
    with (set_master_file (Some (hex (sha256 b))) (set_stdin rest w)) in *.
  rewrite (bind_inl Hk).
  exists key. eexists. split; [reflexivity|].
  cbn. rewrite Hm, Hi, Hk. repeat split.
Qed.

(** [set_master] is its loop after the first message. *)
Lemma V25_set_master_unfold (w : world) :
  V25.set_master w
  = V25.set_master_loop (S (length (w_stdin w)))
      (set_out (w_out w ++ [Print LInfo "Setting up Password Manager..."]) w).
Proof. reflexivity. Qed.

Lemma V2_set_master_unfold (w : world) :
  V2.set_master w
  = V2.set_master_loop (S (length (w_stdin w)))
      (set_out (w_out w ++ [Print LInfo "Setting up Password Manager..."]) w).
Proof. reflexivity. Qed.

(** An attempt whose digest equals the stored line is accepted: the key
    is derived from the typed passphrase. *)
Lemma V25_verify_loop_match (stored : pystr) (attempt : Z) (attempts : list Z)
    (w : world) (pw : pystr) (rest : list pystr) (b : bytes) :
  w_stdin w = pw :: rest ->
  str_encode pw = Some b ->
  hex (sha256 b) = stored ->
  exists key w',
    V25.verify_loop stored (attempt :: attempts) w = (inl true, w')
    /\ w_key w' = Some key
    /\ fst (get_key pw (set_stdin rest w)) = inl key.
Proof.
  intros Hin Hb Hst. cbn [V25.verify_loop].
  unfold getpass. rewrite (bind_inl (input_cons w Hin)).
  rewrite (hash_password_encodable pw Hb).
  unfold bind at 1. cbn [lift_option ret].
  rewrite Hst, pystr_eqb_refl.
  destruct (get_key_encodable pw (set_stdin rest w) Hb)
    as (key & w' & Hk & Hm & Hi & Ho & Hkey & Hr).
  rewrite (bind_inl Hk).
  exists key. eexists. split; [reflexivity|].
  cbn. rewrite Hk. split; reflexivity.
Qed.

(** An attempt whose digest differs is refused, and the loop moves on. *)
Lemma V25_verify_loop_mismatch (stored : pystr) (attempt : Z)
    (attempts : list Z) (w : world) (pw : pystr) (rest : list pystr)
    (b : bytes) :
  w_stdin w = pw :: rest ->
  str_encode pw = Some b ->
  hex (sha256 b) <> stored ->
  V25.verify_loop stored (attempt :: attempts) w
  = (if (0 <? 2 - attempt)%Z
     then print_error "Incorrect. Attempts remaining." ;;
          V25.verify_loop stored attempts
     else print_error "Too many failed attempts." ;; ret false)%monad
      (set_stdin rest w).
Proof.
  intros Hin Hb Hst. cbn [V25.verify_loop].
  unfold getpass. rewrite (bind_inl (input_cons w Hin)).
  rewrite (hash_password_encodable pw Hb).
  unfold bind at 1. cbn [lift_option ret].
  destruct (pystr_eqb (hex (sha256 b)) stored) eqn:E.
  - apply pystr_eqb_eq in E. contradiction.
  - reflexivity.
Qed.

Lemma V2_verify_loop_match (stored : pystr) (attempts : nat)
    (w : world) (pw : pystr) (rest : list pystr) (b : bytes) :
  w_stdin w = pw :: rest ->
  str_encode pw = Some b ->
  hex (sha256 b) = stored ->
  exists key w',
    V2.verify_loop stored (S attempts) w = (inl true, w')
    /\ w_key w' = Some key
    /\ fst (get_key pw (set_stdin rest w)) = inl key.
Proof.
  intros Hin Hb Hst. cbn [V2.verify_loop].
  unfold getpass. rewrite (bind_inl (input_cons w Hin)).
  rewrite (hash_password_encodable pw Hb).
  unfold bind at 1. cbn [lift_option ret].
  rewrite Hst, pystr_eqb_refl.
  destruct (get_key_encodable pw (set_stdin rest w) Hb)
    as (key & w' & Hk & Hm & Hi & Ho & Hkey & Hr).
  rewrite (bind_inl Hk).
  exists key. eexists. split; [reflexivity|].
  cbn. rewrite Hk. split; reflexivity.
Qed.

Lemma V2_verify_loop_mismatch (stored : pystr) (attempts : nat)
    (w : world) (pw : pystr) (rest : list pystr) (b : bytes) :
  w_stdin w = pw :: rest ->
  str_encode pw = Some b ->
  hex (sha256 b) <> stored ->
  V2.verify_loop stored (S attempts) w
  = (print_error "Incorrect" ;; V2.verify_loop stored attempts)%monad
      (set_stdin rest w).
Proof.
  intros Hin Hb Hst. cbn [V2.verify_loop].
  unfold getpass. rewrite (bind_inl (input_cons w Hin)).
  rewrite (hash_password_encodable pw Hb).
  unfold bind at 1. cbn [lift_option ret].
  destruct (pystr_eqb (hex (sha256 b)) stored) eqn:E.
  - apply pystr_eqb_eq in E. contradiction.
  - reflexivity.
Qed.

(** [strip] leaves a hexadecimal digest as it is. *)
Lemma lstrip_head (s : pystr) :
  match s with [] => True | c :: _ => isspace c = false end -> lstrip s = s.
Proof. destruct s as [|c s]; simpl; [reflexivity|]. now intros ->. Qed.

Lemma strip_no_space (s : pystr) :
  Forall (fun c => isspace c = false) s -> strip s = s.
Proof.
  intros Hs. unfold strip.
  rewrite (lstrip_head s) by (destruct Hs; auto).
  apply Forall_rev in Hs.
  rewrite (lstrip_head (rev s)) by (destruct Hs; auto).
  apply rev_involutive.
Qed.

Lemma hex_no_space (d : bytes) : Forall (fun c => isspace c = false) (hex d).
Proof.
  unfold hex. induction d as [|x d IH]; cbn [flat_map]; [constructor|].
  assert (E : negb (isspace (hexdigit (Byte.to_N x / 16)))
              && negb (isspace (hexdigit (Byte.to_N x mod 16))) = true).
  { apply (@forall_byte
             (fun x => negb (isspace (hexdigit (Byte.to_N x / 16)))
                       && negb (isspace (hexdigit (Byte.to_N x mod 16))))).
    vm_compute. reflexivity. }
  apply andb_true_iff in E as [E1 E2].
  apply negb_true_iff in E1, E2.
  cbn [app]. constructor; [exact E1|]. constructor; [exact E2|]. exact IH.
Qed.

Lemma strip_hex (d : bytes) : strip (hex d) = hex d.
Proof. apply strip_no_space, hex_no_space. Qed.

End MasterFacts.

(** C10: the master verifier is the unsalted SHA-256 digest of the
    passphrase.  [hash_password] is a function of the passphrase alone;
    whatever the world (whatever the salt), a [set_master] that accepts the
    passphrase leaves the same text in MASTER_FILE, the hexadecimal digest;
    [verify_master] accepts a typed passphrase exactly when its digest
    equals the stripped contents of MASTER_FILE, and so accepts the
    passphrase the file was written from. *)
Theorem C10_master_verifier_unsalted_digest
    {C : Cryptography} {P : Python} (pw : pystr) (b : bytes) :
  str_encode pw = Some b ->
  let verifier := hex (sha256 b) in
  hash_password pw = Some verifier
  /\ (forall (w1 w2 : world) (rest1 rest2 : list pystr),
        (3 <= fst (V25.check_strength pw))%Z ->
        w_stdin w1 = pw :: pw :: rest1 -> w_stdin w2 = pw :: pw :: rest2 ->
        w_master (exec V25.set_master w1) = Some verifier
        /\ w_master (exec V25.set_master w2) = w_master (exec V25.set_master w1))
  /\ (forall (w1 w2 : world) (rest1 rest2 : list pystr),
        (3 <= V2.check_strength pw)%Z ->
        w_stdin w1 = pw :: pw :: rest1 -> w_stdin w2 = pw :: pw :: rest2 ->
        w_master (exec V2.set_master w1) = Some verifier
        /\ w_master (exec V2.set_master w2) = w_master (exec V2.set_master w1))
  /\ (forall (w : world) (content : pystr) (rest : list pystr),
        w_master w = Some content -> w_stdin w = pw :: rest ->
        (verifier = strip content ->
           eval V25.verify_master w = inl true
           /\ eval V2.verify_master w = inl true)
        /\ (verifier <> strip content ->
              V25.verify_master w
              = (print_error "Incorrect. Attempts remaining." ;;
                 V25.verify_loop (strip content) [1; 2]%Z)%monad (set_stdin rest w)
              /\ V2.verify_master w
                 = (print_error "Incorrect" ;;
                    V2.verify_loop (strip content) 2)%monad (set_stdin rest w)))
  /\ (forall (w : world) (rest : list pystr),
        w_master w = Some verifier -> w_stdin w = pw :: rest ->
        eval V25.verify_master w = inl true
        /\ eval V2.verify_master w = inl true).
Proof.
  intros Hb verifier.
  assert (Hset25 : forall w rest,
             (3 <= fst (V25.check_strength pw))%Z ->
             w_stdin w = pw :: pw :: rest ->
             w_master (exec V25.set_master w) = Some verifier).
  { intros w rest Hs Hin. unfold exec. rewrite V25_set_master_unfold.
    destruct (V25_set_master_loop_accept (length (w_stdin w))
                (set_out (w_out w ++ [Print LInfo "Setting up Password Manager..."]) w)
                (rest := rest) Hin Hs Hb)
      as (key & w' & E & Hm & _).
    now rewrite E. }
  assert (Hset2 : forall w rest,
             (3 <= V2.check_strength pw)%Z ->
             w_stdin w = pw :: pw :: rest ->
             w_master (exec V2.set_master w) = Some verifier).
  { intros w rest Hs Hin. unfold exec. rewrite V2_set_master_unfold.
    destruct (V2_set_master_loop_accept (length (w_stdin w))
                (set_out (w_out w ++ [Print LInfo "Setting up Password Manager..."]) w)
                (rest := rest) Hin Hs Hb)
      as (key & w' & E & Hm & _).
    now rewrite E. }
  assert (Hok : forall w content rest,
             w_master w = Some content -> w_stdin w = pw :: rest ->
             verifier = strip content ->
             eval V25.verify_master w = inl true
             /\ eval V2.verify_master w = inl true).
  { intros w content rest Hm Hin Heq. unfold eval. split.
    - unfold V25.verify_master, bind, get_world. rewrite Hm.
      destruct (V25_verify_loop_match 0%Z [1; 2]%Z w Hin Hb Heq)
        as (key & w' & E & _).
      now rewrite E.
    - unfold V2.verify_master, bind, get_world. rewrite Hm.
      destruct (V2_verify_loop_match 2 w Hin Hb Heq) as (key & w' & E & _).
      now rewrite E. }
  split; [now apply hash_password_encodable|].
  split; [|split; [|split]].
  - intros w1 w2 rest1 rest2 Hs H1 H2.
    now rewrite (Hset25 w1 rest1), (Hset25 w2 rest2).
  - intros w1 w2 rest1 rest2 Hs H1 H2.
    now rewrite (Hset2 w1 rest1), (Hset2 w2 rest2).
  - intros w content rest Hm Hin. split; [now apply (Hok w content rest)|].
    intros Hne. split.
    + unfold V25.verify_master, bind at 1, get_world. rewrite Hm.
      now rewrite (V25_verify_loop_mismatch 0%Z [1; 2]%Z w Hin Hb Hne).
    + unfold V2.verify_master, bind at 1, get_world. rewrite Hm.
      now rewrite (V2_verify_loop_mismatch 2 w Hin Hb Hne).
  - intros w rest Hm Hin. apply (Hok w verifier rest Hm Hin).
    symmetry. apply strip_hex.
Qed.

Section C10AtDemo.
Local Existing Instances Demo.crypto Demo.python Demo.host Demo.generators.

(** The theorem for the passphrase of the specification's example. *)
Lemma C10_master_verifier_unsalted_digest_witness :
  let pw := str_lit "Tr0ub4dor&3" in
  let verifier := hex (sha256 (map byte_of_N pw)) in
  hash_password pw = Some verifier
  /\ w_master (exec V25.set_master (Demo.world0 [pw; pw] 0)) = Some verifier
  /\ w_master (exec V25.set_master (Demo.world0 [pw; pw; pw] 77))
     = w_master (exec V25.set_master (Demo.world0 [pw; pw] 0)).
Proof.
  intros pw verifier.
  pose proof (@C10_master_verifier_unsalted_digest Demo.crypto Demo.python
                pw (map byte_of_N pw) eq_refl) as (Hh & H25 & _).
  split; [exact Hh|].
  assert (Hs : (3 <= fst (V25.check_strength pw))%Z) by (vm_compute; discriminate).
  destruct (H25 (Demo.world0 [pw; pw] 0) (Demo.world0 [pw; pw; pw] 77) [] [pw]
              Hs eq_refl eq_refl) as [E1 E2].
  split; [exact E1 | exact E2].
Defined.

End C10AtDemo.

(** ** The strength gate *)

Section StrengthFacts.
Context {P : Python}.

Ltac by_cases :=
  repeat match goal with
         | |- context [if ?b then _ else _] => destruct b
         | H : context [if ?b then _ else _] |- _ => destruct b
         end;
  try reflexivity; try lia.

Lemma V25_score_formula (pw : pystr) :
  fst (V25.check_strength pw)
  = Z.min (reference_criteria pw + point (12 <=? length pw)%nat
           + point (16 <=? length pw)%nat) 5.
Proof.
  unfold V25.check_strength, reference_criteria, point. cbn [fst].
  f_equal. by_cases.
Qed.

Lemma V2_score_formula (pw : pystr) :
  V2.check_strength pw
  = Z.min (reference_criteria pw + point (12 <=? length pw)%nat) 5.
Proof.
  unfold V2.check_strength, reference_criteria, point.
  f_equal. by_cases.
Qed.

Lemma point_nonneg (b : bool) : (0 <= point b)%Z.
Proof. destruct b; simpl; lia. Qed.

Lemma reference_implies_scores (pw : pystr) :
  (3 <= reference_criteria pw)%Z ->
  (3 <= fst (V25.check_strength pw))%Z /\ (3 <= V2.check_strength pw)%Z.
Proof.
  intros Href. rewrite V25_score_formula, V2_score_formula.
  pose proof (point_nonneg (12 <=? length pw)%nat).
  pose proof (point_nonneg (16 <=? length pw)%nat).
  lia.
Qed.

End StrengthFacts.

(** C4 (as amended): the gate of [set_master] is the strength score, not
    the five reference criteria alone.  The score is the number of
    reference criteria met, plus one point for length 12 (and one more for
    length 16 in v2.5), capped at 5.  A candidate whose score is below 3 is
    answered with the weak-password warning and the loop asks again; a
    candidate whose score is at least 3 is accepted once it is confirmed.
    So every passphrase meeting at least 3 of the 5 criteria is accepted,
    and a rejected one meets fewer than 3. *)
Theorem C4_strength_gate_is_score
    {C : Cryptography} {P : Python} (pw : pystr) :
  fst (V25.check_strength pw)
  = Z.min (reference_criteria pw + point (12 <=? length pw)%nat
           + point (16 <=? length pw)%nat) 5
  /\ V2.check_strength pw
     = Z.min (reference_criteria pw + point (12 <=? length pw)%nat) 5
  /\ ((3 <= reference_criteria pw)%Z ->
      (3 <= fst (V25.check_strength pw))%Z /\ (3 <= V2.check_strength pw)%Z)
  /\ (forall (fuel : nat) (w : world) (rest : list pystr),
        w_stdin w = pw :: rest ->
        ((fst (V25.check_strength pw) < 3)%Z ->
         (reference_criteria pw < 3)%Z
         /\ V25.set_master_loop (S fuel) w
            = (print_warning "Password is weak. Use a stronger password." ;;
               V25.display_strength pw ;;
               V25.set_master_loop fuel)%monad (set_stdin rest w))
        /\ ((V2.check_strength pw < 3)%Z ->
            (reference_criteria pw < 3)%Z
            /\ V2.set_master_loop (S fuel) w
               = (print_warning "Weak password. Use stronger." ;;
                  V2.set_master_loop fuel)%monad (set_stdin rest w)))
  /\ (forall (fuel : nat) (w : world) (rest : list pystr) (b : bytes),
        w_stdin w = pw :: pw :: rest ->
        str_encode pw = Some b ->
        ((3 <= fst (V25.check_strength pw))%Z ->
         eval (V25.set_master_loop (S fuel)) w = inl true
         /\ w_master (exec (V25.set_master_loop (S fuel)) w)
            = Some (hex (sha256 b)))
        /\ ((3 <= V2.check_strength pw)%Z ->
            eval (V2.set_master_loop (S fuel)) w = inl true
            /\ w_master (exec (V2.set_master_loop (S fuel)) w)
               = Some (hex (sha256 b)))).
Proof.
  split; [apply V25_score_formula|].
  split; [apply V2_score_formula|].
  split; [apply reference_implies_scores|].
  split.
  - intros fuel w rest Hin. split; intros Hweak; split.
    + destruct (Z.lt_ge_cases (reference_criteria pw) 3) as [Hlt|Hge]; [exact Hlt|].
      apply (reference_implies_scores pw) in Hge. lia.
    + now apply V25_set_master_loop_weak.
    + destruct (Z.lt_ge_cases (reference_criteria pw) 3) as [Hlt|Hge]; [exact Hlt|].
      apply (reference_implies_scores pw) in Hge. lia.
    + exact (V2_set_master_loop_weak fuel w Hin Hweak).
  - intros fuel w rest b Hin Hb. split; intros Hs; unfold eval, exec.
    + destruct (V25_set_master_loop_accept fuel w Hin Hs Hb)
        as (key & w' & E & Hm & _).
      rewrite E. split; [reflexivity | exact Hm].
    + destruct (V2_set_master_loop_accept fuel w Hin Hs Hb)
        as (key & w' & E & Hm & _).
      rewrite E. split; [reflexivity | exact Hm].
Qed.

Section C4AtDemo.
Local Existing Instances Demo.crypto Demo.python Demo.host Demo.generators.

(** The theorem at two candidates: ["abc"] is refused and the loop asks
    again; ["Tr0ub4dor&3"], typed twice, is accepted. *)
Lemma C4_strength_gate_is_score_witness :
  (reference_criteria (str_lit "abc") < 3)%Z
  /\ V25.set_master_loop 3 (Demo.world0 [str_lit "abc"; str_lit "x"] 0)
     = (print_warning "Password is weak. Use a stronger password." ;;
        V25.display_strength (str_lit "abc") ;;
        V25.set_master_loop 2)%monad
         (set_stdin [str_lit "x"]
            (Demo.world0 [str_lit "abc"; str_lit "x"] 0))
  /\ eval (V25.set_master_loop 3)
       (Demo.world0 [str_lit "Tr0ub4dor&3"; str_lit "Tr0ub4dor&3"] 0)
     = inl true.
Proof.
  split; [|split].
  - apply (proj1 (proj2 (proj2 (proj2
             (@C4_strength_gate_is_score Demo.crypto Demo.python (str_lit "abc")))))
           2%nat (Demo.world0 [str_lit "abc"; str_lit "x"] 0) [str_lit "x"] eq_refl).
    vm_compute. reflexivity.
  - apply (proj1 (proj2 (proj2 (proj2
             (@C4_strength_gate_is_score Demo.crypto Demo.python (str_lit "abc")))))
           2%nat (Demo.world0 [str_lit "abc"; str_lit "x"] 0) [str_lit "x"] eq_refl).
    vm_compute. reflexivity.
  - apply (proj2 (proj2 (proj2 (proj2
             (@C4_strength_gate_is_score Demo.crypto Demo.python
                (str_lit "Tr0ub4dor&3")))))
           2%nat
           (Demo.world0 [str_lit "Tr0ub4dor&3"; str_lit "Tr0ub4dor&3"] 0)
           [] (map byte_of_N (str_lit "Tr0ub4dor&3")) eq_refl eq_refl).
    vm_compute. discriminate.
Defined.

(** The claim as it was stated fails: twelve lower-case letters meet only
    two of the five reference criteria (length and lower case), and both
    programs accept them. *)
Lemma C4_twelve_lowercase_accepted :
  let pw := str_lit "aaaaaaaaaaaa" in
  reference_criteria pw = 2%Z
  /\ eval V25.set_master (Demo.world0 [pw; pw] 0) = inl true
  /\ eval V2.set_master (Demo.world0 [pw; pw] 0) = inl true
  /\ w_master (exec V25.set_master (Demo.world0 [pw; pw] 0))
     = hash_password pw.
Proof.
  intros pw.
  assert (Hb : str_encode pw = Some (map byte_of_N pw)) by reflexivity.
  assert (H25 : (3 <= fst (V25.check_strength pw))%Z) by (vm_compute; discriminate).
  assert (H2 : (3 <= V2.check_strength pw)%Z) by (vm_compute; discriminate).
  split; [reflexivity|].
  unfold eval, exec.
  rewrite V25_set_master_unfold, V2_set_master_unfold.
  destruct (V25_set_master_loop_accept 2
              (set_out [Print LInfo "Setting up Password Manager..."]
                 (Demo.world0 [pw; pw] 0)) (rest := []) eq_refl H25 Hb)
    as (k1 & w1 & E1 & Hm1 & _).
  destruct (V2_set_master_loop_accept 2
              (set_out [Print LInfo "Setting up Password Manager..."]
                 (Demo.world0 [pw; pw] 0)) (rest := []) eq_refl H2 Hb)
    as (k2 & w2 & E2 & Hm2 & _).
  change (S (length (w_stdin (Demo.world0 [pw; pw] 0)))) with 3%nat.
  change (set_out (w_out (Demo.world0 [pw; pw] 0)
                   ++ [Print LInfo "Setting up Password Manager..."])
            (Demo.world0 [pw; pw] 0))
    with (set_out [Print LInfo "Setting up Password Manager..."]
            (Demo.world0 [pw; pw] 0)).
  rewrite E1, E2. cbn [fst snd].
  rewrite Hm1, (hash_password_encodable pw Hb).
  repeat split.
Qed.

End C4AtDemo.

(** ** [encrypt] and [decrypt] *)

Section CipherFacts.
Context {C : Cryptography} {P : Python}.

(** [decrypt] never raises and leaves the world as it is. *)
Lemma decrypt_spec (data : bytes) (w : world) :
  decrypt data w = (inl (decrypt_value (w_key w) data), w).
Proof.
  unfold decrypt, fernet_of_key, try_except, bind, get_world, decrypt_value.
  destruct (w_key w) as [k|]; [|reflexivity].
  destruct (Fernet k) as [f|]; [|reflexivity]. cbn [lift_option ret].
  destruct (fernet_decrypt f data) as [pt|]; [|reflexivity].
  cbn [lift_option ret].
  destruct (bytes_decode pt); reflexivity.
Qed.

Lemma encrypt_body_spec (data : pystr) (b : bytes) (k : bytes) (f : fernet)
    (w : world) :
  w_key w = Some k -> Fernet k = Some f -> str_encode data = Some b ->
  encrypt_body data w
  = (inl (fernet_encrypt_from_parts f b (read_time w) (drawn_iv w)),
     after_encrypt w).
Proof.
  intros Hk Hf Hb.
  unfold encrypt_body, fernet_of_key, fernet_encrypt, time_time,
    datetime_now, urandom, bind, get_world.
  rewrite Hk, Hf. cbn [lift_option ret]. rewrite Hb.
  reflexivity.
Qed.

Lemma V25_encrypt_spec (data : pystr) (b : bytes) (k : bytes) (f : fernet)
    (w : world) :
  w_key w = Some k -> Fernet k = Some f -> str_encode data = Some b ->
  V25.encrypt data w
  = (inl (Some (fernet_encrypt_from_parts f b (read_time w) (drawn_iv w))),
     after_encrypt w).
Proof.
  intros Hk Hf Hb. unfold V25.encrypt, try_except, bind.
  now rewrite (encrypt_body_spec data w Hk Hf Hb).
Qed.

Lemma drawn_iv_length (w : world) : length (drawn_iv w) = 16%nat.
Proof. unfold drawn_iv. now rewrite length_map, length_seq. Qed.

End CipherFacts.

Section CipherLaws.
Context {C : Cryptography} {L : CryptographyLaws C}
        {P : Python} {PL : PythonLaws P}.

(** A key returned by [get_key] is the base64 text of 32 bytes, which
    [Fernet] accepts. *)
Lemma get_key_is_fernet_key (pw : pystr) (w0 : world) (k : bytes) :
  eval (get_key pw) w0 = inl k ->
  exists f, Fernet k = Some f
            /\ length (signing_key f) = 16%nat
            /\ length (encryption_key f) = 16%nat.
Proof.
  intros Hk. unfold eval in Hk.
  assert (Hraw : exists raw, length raw = 32%nat
                             /\ k = Base64.urlsafe_b64encode raw).
  { destruct (w_salt w0) as [s|] eqn:Hs.
    - rewrite (get_key_with_salt pw _ Hs) in Hk. cbn [fst] in Hk.
      destruct (str_encode pw) as [b|]; [|discriminate].
      exists (pbkdf2_hmac_sha256 b s iterations 32).
      split; [apply pbkdf2_length_32 | congruence].
    - rewrite (get_key_without_salt pw _ Hs) in Hk. cbn [fst] in Hk.
      destruct (str_encode pw) as [b|]; [|discriminate].
      exists (pbkdf2_hmac_sha256 b (map (w_rand w0) (seq (w_rpos w0) 16))
                iterations 32).
      split; [apply pbkdf2_length_32 | congruence]. }
  destruct Hraw as (raw & Hlen & ->).
  exists (Fernet_ (firstn 16 raw) (skipn 16 raw)).
  split; [now apply Fernet_of_encoded|].
  apply Fernet_key_lengths with (k := Base64.urlsafe_b64encode raw).
  now apply Fernet_of_encoded.
Qed.

(** Decrypting a token made under the same key gives the text back. *)
Lemma decrypt_value_token (k : bytes) (f : fernet) (M : pystr) (b : bytes)
    (t : N) (iv : bytes) :
  Fernet k = Some f -> length (encryption_key f) = 16%nat ->
  length iv = 16%nat -> str_encode M = Some b ->
  decrypt_value (Some k) (fernet_encrypt_from_parts f b t iv) = Some M.
Proof.
  intros Hf Hek Hiv Hb. unfold decrypt_value. rewrite Hf.
  rewrite fernet_decrypt_encrypt by assumption.
  now apply decode_encode.
Qed.

End CipherLaws.

(** C1: round trip and fresh nonces.  Let [K] be a key returned by
    [get_key] and [M] a text that [encode] accepts.  In any world holding
    [K], [encrypt] (of either program) returns a token, and [decrypt] of
    that token returns [M].  Two calls of [encrypt] on [M] return different
    tokens whenever the 16 bytes of [os.urandom] they draw for the IV
    differ. *)
Theorem C1_encrypt_decrypt_roundtrip
    {C : Cryptography} {L : CryptographyLaws C}
    {P : Python} {PL : PythonLaws P}
    (pw : pystr) (w0 : world) (K : bytes) (M : pystr) (b : bytes)
    (w w' : world) :
  eval (get_key pw) w0 = inl K ->
  w_key w = Some K -> w_key w' = Some K ->
  str_encode M = Some b ->
  exists c c',
    V25.encrypt M w = (inl (Some c), after_encrypt w)
    /\ V2.encrypt M w = (inl c, after_encrypt w)
    /\ V25.encrypt M w' = (inl (Some c'), after_encrypt w')
    /\ V2.encrypt M w' = (inl c', after_encrypt w')
    /\ decrypt c (after_encrypt w) = (inl (Some M), after_encrypt w)
    /\ decrypt c' (after_encrypt w') = (inl (Some M), after_encrypt w')
    /\ (drawn_iv w <> drawn_iv w' -> c <> c').
Proof.
  intros HK Hw Hw' Hb.
  destruct (get_key_is_fernet_key pw w0 HK) as (f & Hf & _ & Hek).
  exists (fernet_encrypt_from_parts f b (read_time w) (drawn_iv w)),
         (fernet_encrypt_from_parts f b (read_time w') (drawn_iv w')).
  split; [now apply V25_encrypt_spec with (k := K)|].
  split; [now apply encrypt_body_spec with (k := K)|].
  split; [now apply V25_encrypt_spec with (k := K)|].
  split; [now apply encrypt_body_spec with (k := K)|].
  split; [|split].
  - rewrite decrypt_spec. f_equal. f_equal.
    change (w_key (after_encrypt w)) with (w_key w). rewrite Hw.
    apply decrypt_value_token; auto using drawn_iv_length.
  - rewrite decrypt_spec. f_equal. f_equal.
    change (w_key (after_encrypt w')) with (w_key w'). rewrite Hw'.
    apply decrypt_value_token; auto using drawn_iv_length.
  - intros Hiv E. apply Hiv.
    eapply fernet_encrypt_iv_inj; eauto using drawn_iv_length.
Qed.

Section C1AtDemo.
Local Existing Instances Demo.crypto Demo.python Demo.host Demo.generators.

(** The theorem for the key derived from ["Tr0ub4dor&3"], the secret
    ["p@ss!23"] and two consecutive calls of [encrypt]. *)
Lemma C1_encrypt_decrypt_roundtrip_witness :
  let pw := str_lit "Tr0ub4dor&3" in
  let M := str_lit "p@ss!23" in
  let w0 := Demo.world0 [] 0 in
  let K := Base64.urlsafe_b64encode
             (pbkdf2_hmac_sha256 (map byte_of_N pw) (drawn_iv w0) iterations 32) in
  let w := set_key (Some K) (after_encrypt w0) in
  exists c c',
    V25.encrypt M w = (inl (Some c), after_encrypt w)
    /\ V2.encrypt M w = (inl c, after_encrypt w)
    /\ V25.encrypt M (after_encrypt w)
       = (inl (Some c'), after_encrypt (after_encrypt w))
    /\ V2.encrypt M (after_encrypt w)
       = (inl c', after_encrypt (after_encrypt w))
    /\ decrypt c (after_encrypt w) = (inl (Some M), after_encrypt w)
    /\ decrypt c' (after_encrypt (after_encrypt w))
       = (inl (Some M), after_encrypt (after_encrypt w))
    /\ c <> c'.
Proof.
  intros pw M w0 K w.
  destruct (@C1_encrypt_decrypt_roundtrip Demo.crypto demo_crypto_laws
              Demo.python demo_python_laws pw w0 K M (map byte_of_N M)
              w (after_encrypt w) eq_refl eq_refl eq_refl eq_refl)
    as (c & c' & H1 & H2 & H3 & H4 & H5 & H6 & H7).
  exists c, c'. repeat (split; [assumption|]).
  apply H7. lazy. discriminate.
Defined.

End C1AtDemo.


(** ** Tokens that were tampered with *)

Section TamperFacts.
Context {C : Cryptography} {L : CryptographyLaws C}
        {P : Python} {PL : PythonLaws P}.

Lemma decrypt_value_undecodable (K : bytes) (c' : bytes) :
  Base64.urlsafe_b64decode c' = None -> decrypt_value (Some K) c' = None.
Proof.
  intros Hnone. unfold decrypt_value.
  destruct (Fernet K) as [f|]; [|reflexivity].
  unfold fernet_decrypt. now rewrite Hnone.
Qed.

(** A token whose tag is not the HMAC of its body is refused. *)
Lemma fernet_decrypt_bad_tag (f : fernet) (c' token' : bytes) :
  Base64.urlsafe_b64decode c' = Some token' ->
  take_last 32 token' <> hmac_sha256 (signing_key f) (drop_last 32 token') ->
  fernet_decrypt f c' = None.
Proof.
  intros Hdec Htag. unfold fernet_decrypt. rewrite Hdec.
  destruct token' as [|v rest]; [reflexivity|].
  destruct (negb (Byte.eqb v x80)); [reflexivity|].
  destruct (length (v :: rest) <? 9)%nat; [reflexivity|].
  destruct (fernet_verify_signature f (v :: rest)) eqn:E; [|reflexivity].
  apply bytes_eqb_eq in E. congruence.
Qed.

(** A token that is accepted carries the HMAC of its body. *)
Lemma fernet_decrypt_some_tag (f : fernet) (c' pt : bytes) :
  fernet_decrypt f c' = Some pt ->
  exists token',
    Base64.urlsafe_b64decode c' = Some token'
    /\ hmac_sha256 (signing_key f) (drop_last 32 token') = take_last 32 token'.
Proof.
  unfold fernet_decrypt.
  destruct (Base64.urlsafe_b64decode c') as [token'|]; [|discriminate].
  intros HM. exists token'. split; [reflexivity|].
  destruct token' as [|v rest]; [discriminate|].
  destruct (negb (Byte.eqb v x80)); [discriminate|].
  destruct (length (v :: rest) <? 9)%nat; [discriminate|].
  destruct (fernet_verify_signature f (v :: rest)) eqn:E; [|discriminate].
  now apply bytes_eqb_eq in E.
Qed.

(** [fernet_decrypt] sees a token only through its decoding. *)
Lemma fernet_decrypt_same_decoding (f : fernet) (c c' : bytes) :
  Base64.urlsafe_b64decode c' = Base64.urlsafe_b64decode c ->
  fernet_decrypt f c' = fernet_decrypt f c.
Proof. intros E. unfold fernet_decrypt. now rewrite E. Qed.

End TamperFacts.

(** C2 (as amended): what [decrypt] does with a token other than the one
    [encrypt] returned.  Let [c] be the token [encrypt] returns for [M]
    under a valid key, and [c'] any byte string (a single-bit mutation of
    [c] in particular).  [decrypt] never raises.  It returns [None] when
    [c'] does not base64-decode, and when [c'] decodes to a token that
    equals the original before its last 32 bytes and differs in them (the
    HMAC tag).  When [c'] decodes to the very token [c] decodes to, it
    returns the original [M] rather than failing.  And it never returns a
    plaintext other than [M], unless [c'] decodes to a token whose body
    differs from the original's and whose last 32 bytes are the
    HMAC-SHA256 of that body under the signing key: a tag forged for
    another message. *)
Theorem C2_decrypt_of_tampered_token
    {C : Cryptography} {L : CryptographyLaws C}
    {P : Python} {PL : PythonLaws P}
    (K : bytes) (f : fernet) (M : pystr) (b : bytes) (w : world) (c' : bytes) :
  w_key w = Some K -> Fernet K = Some f -> str_encode M = Some b ->
  let body := fernet_basic_parts f b (read_time w) (drawn_iv w) in
  let token := body ++ hmac_sha256 (signing_key f) body in
  let c := Base64.urlsafe_b64encode token in
  V25.encrypt M w = (inl (Some c), after_encrypt w)
  /\ Base64.urlsafe_b64decode c = Some token
  /\ decrypt c' (after_encrypt w)
     = (inl (decrypt_value (Some K) c'), after_encrypt w)
  /\ (Base64.urlsafe_b64decode c' = None -> decrypt_value (Some K) c' = None)
  /\ (forall token',
        Base64.urlsafe_b64decode c' = Some token' ->
        drop_last 32 token' = body ->
        take_last 32 token' <> hmac_sha256 (signing_key f) body ->
        decrypt_value (Some K) c' = None)
  /\ (forall M',
        decrypt_value (Some K) c' = Some M' ->
        exists token',
          Base64.urlsafe_b64decode c' = Some token'
          /\ hmac_sha256 (signing_key f) (drop_last 32 token')
             = take_last 32 token')
  /\ (Base64.urlsafe_b64decode c' = Some token ->
      decrypt_value (Some K) c' = Some M)
  /\ (forall M',
        decrypt_value (Some K) c' = Some M' ->
        M' = M
        \/ exists token',
             Base64.urlsafe_b64decode c' = Some token'
             /\ drop_last 32 token' <> body
             /\ take_last 32 token'
                = hmac_sha256 (signing_key f) (drop_last 32 token')).
Proof.
  intros Hk Hf Hb body token c.
  destruct (Fernet_key_lengths K Hf) as [_ Hek].
  assert (Hdec : Base64.urlsafe_b64decode c = Some token)
    by apply Base64Facts.urlsafe_b64decode_encode.
  split; [exact (V25_encrypt_spec M w Hk Hf Hb)|].
  split; [exact Hdec|].
  split.
  { rewrite decrypt_spec. change (w_key (after_encrypt w)) with (w_key w).
    now rewrite Hk. }
  split; [apply decrypt_value_undecodable|].
  split.
  { intros token' Hdec' Hbody Htag. unfold decrypt_value. rewrite Hf.
    rewrite (fernet_decrypt_bad_tag f c' Hdec'); [reflexivity|].
    now rewrite Hbody. }
  split.
  { intros M'. unfold decrypt_value. rewrite Hf.
    destruct (fernet_decrypt f c') as [pt|] eqn:E; [|discriminate].
    intros _. exact (fernet_decrypt_some_tag f c' E). }
  assert (Hsame : Base64.urlsafe_b64decode c' = Some token ->
                  decrypt_value (Some K) c' = Some M).
  { intros Hsame.
    pose proof (@decrypt_value_token _ _ _ _ K f M b (read_time w) (drawn_iv w)
                  Hf Hek (drawn_iv_length w) Hb) as Hc.
    change (fernet_encrypt_from_parts f b (read_time w) (drawn_iv w)) with c in Hc.
    unfold decrypt_value in *. rewrite Hf in *.
    rewrite (fernet_decrypt_same_decoding f c c'); [exact Hc|].
    now rewrite Hsame, Hdec. }
  split; [exact Hsame|].
  intros M' HM'.
  assert (Htag : exists token',
             Base64.urlsafe_b64decode c' = Some token'
             /\ hmac_sha256 (signing_key f) (drop_last 32 token')
                = take_last 32 token').
  { unfold decrypt_value in HM'. rewrite Hf in HM'.
    destruct (fernet_decrypt f c') as [pt|] eqn:E; [|discriminate].
    exact (fernet_decrypt_some_tag f c' E). }
  destruct Htag as (token' & Hdec' & Htag).
  destruct (bytes_eqb (drop_last 32 token') body) eqn:Eb.
  - left. apply bytes_eqb_eq in Eb.
    assert (Etoken : token' = token).
    { rewrite <- (drop_take_last 32 token'), <- Htag, Eb. reflexivity. }
    rewrite Etoken in Hdec'. specialize (Hsame Hdec'). congruence.
  - right. exists token'. split; [exact Hdec'|]. split; [|now symmetry].
    intros Eq. apply bytes_eqb_eq in Eq. congruence.
Qed.

Section C2AtDemo.
Local Existing Instances Demo.crypto Demo.python Demo.host Demo.generators.

(** The theorem at the secret ["p@ss!23"] and the token with bit 1 of its
    byte 97 inverted: it decodes to the original token, so [decrypt]
    returns the secret. *)
Lemma C2_decrypt_of_tampered_token_witness :
  let M := str_lit "p@ss!23" in
  let w := Demo.unlocked [] 1700000000000000 in
  let f := Fernet_ (firstn 16 Demo.raw_key) (skipn 16 Demo.raw_key) in
  let body := fernet_basic_parts f (map byte_of_N M) (read_time w) (drawn_iv w) in
  let c := Base64.urlsafe_b64encode (body ++ hmac_sha256 (signing_key f) body) in
  V25.encrypt M w = (inl (Some c), after_encrypt w)
  /\ decrypt_value (Some Demo.key) (flip_bit 777 c) = Some M.
Proof.
  intros M w f body c.
  pose proof (@C2_decrypt_of_tampered_token Demo.crypto demo_crypto_laws
                Demo.python demo_python_laws Demo.key f M (map byte_of_N M) w
                (flip_bit 777 c) eq_refl eq_refl eq_refl)
    as (Henc & _ & _ & _ & _ & _ & Hsame & _).
  split; [exact Henc|].
  apply Hsame. vm_compute. reflexivity.
Defined.

(** The claim as it was stated fails: inverting bit 1 of byte 97 of the
    token (its last character before the padding, ["A"], becomes ["C"])
    gives a different byte string that [decrypt] accepts, returning the
    original secret and not [None]. *)
Lemma C2_bit_flip_still_decrypts :
  let M := str_lit "p@ss!23" in
  let w := Demo.unlocked [] 1700000000000000 in
  exists c c',
    V25.encrypt M w = (inl (Some c), after_encrypt w)
    /\ single_bit_mutation c c'
    /\ c' <> c
    /\ nth 97 c x00 = "A"%byte /\ nth 97 c' x00 = "C"%byte
    /\ decrypt c' (after_encrypt w) = (inl (Some M), after_encrypt w)
    /\ decrypt c' (after_encrypt w) <> (inl None, after_encrypt w).
Proof.
  intros M w.
  set (f := Fernet_ (firstn 16 Demo.raw_key) (skipn 16 Demo.raw_key)).
  set (c := fernet_encrypt_from_parts f (map byte_of_N M) (read_time w) (drawn_iv w)).
  exists c, (flip_bit 777 c).
  split; [now apply V25_encrypt_spec with (k := Demo.key)|].
  split; [exists 777%nat; split; [vm_compute; lia | reflexivity]|].
  split; [vm_compute; discriminate|].
  split; [vm_compute; reflexivity|].
  split; [vm_compute; reflexivity|].
  assert (Hd : decrypt (flip_bit 777 c) (after_encrypt w)
               = (inl (Some M), after_encrypt w)).
  { rewrite decrypt_spec.
    change (w_key (after_encrypt w)) with (Some Demo.key).
    assert (E : decrypt_value (Some Demo.key) (flip_bit 777 c) = Some M)
      by (vm_compute; reflexivity).
    now rewrite E. }
  split; [exact Hd|]. rewrite Hd. discriminate.
Qed.

End C2AtDemo.

(** ** [add] *)

Section AddFacts.
Context {C : Cryptography} {P : Python} {H : Host} {G : Generators}.

(** v2.5: an empty service name ends [add] with an error message, before
    anything else is read. *)
Lemma V25_add_empty_service (w : world) (service : pystr) (rest : list pystr) :
  w_stdin w = service :: rest ->
  strip service = [] ->
  V25.add w
  = (inl tt,
     set_out (w_out w ++ [Print LError "Service name required."]) (set_stdin rest w)).
Proof.
  intros Hin Hs. unfold V25.add, try_except.
  rewrite (bind_inl (input_cons w Hin)). rewrite Hs. reflexivity.
Qed.

(** v2.5: so does an empty username. *)
Lemma V25_add_empty_username (w : world) (service username : pystr)
    (rest : list pystr) :
  w_stdin w = service :: username :: rest ->
  strip service <> [] ->
  strip username = [] ->
  V25.add w
  = (inl tt,
     set_out (w_out w ++ [Print LError "Username required."]) (set_stdin rest w)).
Proof.
  intros Hin Hs Hu. unfold V25.add, try_except.
  rewrite (bind_inl (input_cons w Hin)).
  destruct (strip service) as [|c s] eqn:E; [contradiction|].
  cbn [truthy negb].
  rewrite (@bind_inl _ _ input _ (set_stdin (username :: rest) w)
             (set_stdin rest w) username) by reflexivity.
  rewrite Hu. reflexivity.
Qed.

(** v2.0: [add] with a typed password stores the row whatever the service
    and the username are. *)
Lemma V2_add_typed_password (w : world)
    (service username answer password url notes : pystr) (rest : list pystr)
    (k : bytes) (f : fernet) (b : bytes) :
  w_stdin w = service :: username :: answer :: password :: url :: notes :: rest ->
  lower_is_y answer = false ->
  w_key w = Some k -> Fernet k = Some f -> str_encode password = Some b ->
  eval V2.add w = inl tt
  /\ w_rows (exec V2.add w)
     = w_rows w
       ++ [Row (next_rowid (w_rows w)) (strip service) (strip username)
             (fernet_encrypt_from_parts f b (read_time w) (drawn_iv w))
             (strip url) (strip notes)
             (w_clock w (S (w_tick w))) (w_clock w (S (w_tick w)))]
  /\ w_out (exec V2.add w)
     = (w_out w ++ [ShowStrength (V2.check_strength password)])
       ++ [Print LSuccess "Added"].
Proof.
  intros Hin Hy Hk Hf Hb.
  unfold eval, exec, V2.add, V2.encrypt, V2.show_strength, getpass,
    print_success.
  rewrite (bind_input _ w Hin).
  msteps. rewrite Hy. msteps.
  erewrite (@bind_inl _ _ (encrypt_body password));
    [|apply encrypt_body_spec with (k := k); [exact Hk | exact Hf | exact Hb]].
  msteps.
  repeat split.
Qed.

End AddFacts.

(** v2.5 validates: an [add] whose service or username is empty after
    stripping ends with the error message and leaves the table as it
    was. *)
Lemma V25_add_validates {C : Cryptography} {P : Python} {H : Host}
    {G : Generators} (w : world) (service username : pystr)
    (rest : list pystr) :
  (w_stdin w = service :: rest -> strip service = [] ->
   w_rows (exec V25.add w) = w_rows w
   /\ w_db_mtime (exec V25.add w) = w_db_mtime w
   /\ w_out (exec V25.add w) = w_out w ++ [Print LError "Service name required."])
  /\ (w_stdin w = service :: username :: rest -> strip service <> [] ->
      strip username = [] ->
      w_rows (exec V25.add w) = w_rows w
      /\ w_db_mtime (exec V25.add w) = w_db_mtime w
      /\ w_out (exec V25.add w) = w_out w ++ [Print LError "Username required."]).
Proof.
  split.
  - intros Hin Hs. unfold exec. rewrite (V25_add_empty_service w Hin Hs).
    repeat split.
  - intros Hin Hs Hu. unfold exec.
    rewrite (V25_add_empty_username w Hin Hs Hu). repeat split.
Qed.

(** C5, for v2.0 (where it fails): [add] makes no check.  With a typed
    password, a valid session key and an encodable password, a row is
    inserted and "Added" is printed even when the service or the username
    is empty after stripping. *)
Theorem C5_v2_add_stores_empty_fields
    {C : Cryptography} {P : Python} {H : Host} {G : Generators}
    (w : world) (service username answer password url notes : pystr)
    (rest : list pystr) (k : bytes) (f : fernet) (b : bytes) :
  w_stdin w = service :: username :: answer :: password :: url :: notes :: rest ->
  lower_is_y answer = false ->
  w_key w = Some k -> Fernet k = Some f -> str_encode password = Some b ->
  strip service = [] \/ strip username = [] ->
  exists r,
    eval V2.add w = inl tt
    /\ w_rows (exec V2.add w) = w_rows w ++ [r]
    /\ r_service r = strip service /\ r_username r = strip username
    /\ (r_service r = [] \/ r_username r = [])
    /\ last (w_out (exec V2.add w)) (Print LPlain "") = Print LSuccess "Added".
Proof.
  intros Hin Hy Hk Hf Hb Hempty.
  destruct (V2_add_typed_password w Hin Hy Hk Hf Hb) as (He & Hr & Ho).
  eexists. split; [exact He|]. split; [exact Hr|].
  split; [reflexivity|]. split; [reflexivity|].
  split; [exact Hempty|].
  rewrite Ho. apply last_last.
Qed.

Section C5AtDemo.
Local Existing Instances Demo.crypto Demo.python Demo.host Demo.generators.

(** The failing input: in an unlocked session, [add] with an empty service
    and an empty username, "n" to generation and a typed password. *)
Lemma C5_v2_add_stores_empty_fields_witness :
  let w := Demo.unlocked [[]; []; str_lit "n"; str_lit "hunter2"; []; []]
             1700000000000000 in
  exists r,
    eval V2.add w = inl tt
    /\ w_rows (exec V2.add w) = [r]
    /\ r_service r = [] /\ r_username r = []
    /\ last (w_out (exec V2.add w)) (Print LPlain "") = Print LSuccess "Added".
Proof.
  intros w.
  destruct (@C5_v2_add_stores_empty_fields Demo.crypto Demo.python Demo.host
              Demo.generators w [] [] (str_lit "n") (str_lit "hunter2") [] [] []
              Demo.key
              (Fernet_ (firstn 16 Demo.raw_key) (skipn 16 Demo.raw_key))
              (map byte_of_N (str_lit "hunter2"))
              eq_refl eq_refl eq_refl eq_refl eq_refl (or_introl eq_refl))
    as (r & He & Hr & Hs & Hu & _ & Ho).
  exists r. repeat split; assumption.
Defined.

End C5AtDemo.

(** ** [update] *)

Section UpdateFacts.
Context {C : Cryptography} {P : Python} {H : Host} {G : Generators}.

(** [backup] returns normally and leaves the table, the terminal input and
    the keys alone. *)
Lemma V25_backup_frame (silent : bool) (w : world) :
  fst (V25.backup silent w) = inl tt
  /\ w_rows (snd (V25.backup silent w)) = w_rows w
  /\ w_stdin (snd (V25.backup silent w)) = w_stdin w
  /\ w_out (snd (V25.backup silent w))
     = w_out w ++ (if silent then [] else [Print LSuccess "Backup"]).
Proof.
  unfold V25.backup, try_except. msteps.
  destruct silent; cbn; rewrite ?app_nil_r; repeat split.
Qed.

Lemma V25_auto_backup_frame (w : world) :
  fst (V25.auto_backup w) = inl tt
  /\ w_rows (snd (V25.auto_backup w)) = w_rows w
  /\ w_stdin (snd (V25.auto_backup w)) = w_stdin w
  /\ w_out (snd (V25.auto_backup w)) = w_out w.
Proof.
  unfold V25.auto_backup. rewrite bind_get_world.
  destruct (w_auto_backup w).
  - destruct (V25_backup_frame true w) as (H1 & H2 & H3 & H4).
    rewrite H1, H2, H3, H4, app_nil_r. repeat split.
  - repeat split.
Qed.

(** v2.5, nothing entered (blank username, "Keep Current" or any choice
    other than 1, 2, 3): the table is untouched and the warning "No changes
    made." is shown. *)
Lemma V25_update_no_fields (w : world) (id_ user choice : pystr)
    (rest : list pystr) (r : row) :
  w_stdin w = id_ :: user :: choice :: rest ->
  find (id_matches (strip id_)) (w_rows w) = Some r ->
  strip user = [] ->
  pystr_eqb (strip choice) (str_lit "1") = false ->
  pystr_eqb (strip choice) (str_lit "2") = false ->
  pystr_eqb (strip choice) (str_lit "3") = false ->
  V25.update w
  = (inl tt,
     set_out (w_out w ++ [Print LWarning "No changes made."]) (set_stdin rest w)).
Proof.
  intros Hin Hfind Hu H1 H2 H3.
  unfold V25.update, try_except, V25.update_password, print_warning.
  rewrite (bind_input _ w Hin). msteps.
  cbn [w_rows set_stdin]. rewrite Hfind. msteps.
  rewrite H1, H2, H3. msteps. rewrite Hu. reflexivity.
Qed.

(** v2.5, a blank username and a password typed under choice 3 that is
    empty: the same. *)
Lemma V25_update_empty_password (w : world) (id_ user choice pw : pystr)
    (rest : list pystr) (r : row) :
  w_stdin w = id_ :: user :: choice :: pw :: rest ->
  find (id_matches (strip id_)) (w_rows w) = Some r ->
  strip user = [] ->
  strip choice = str_lit "3" ->
  pw = [] ->
  V25.update w
  = (inl tt,
     set_out (w_out w ++ [Print LWarning "No changes made."]) (set_stdin rest w)).
Proof.
  intros Hin Hfind Hu Hc Hpw.
  unfold V25.update, try_except, V25.update_password, print_warning, getpass.
  rewrite (bind_input _ w Hin). msteps.
  cbn [w_rows set_stdin]. rewrite Hfind. msteps.
  rewrite Hc.
  change (pystr_eqb (str_lit "3") (str_lit "1")) with false.
  change (pystr_eqb (str_lit "3") (str_lit "2")) with false.
  change (pystr_eqb (str_lit "3") (str_lit "3")) with true.
  cbv iota.
  msteps. subst pw. cbn [truthy]. msteps. rewrite Hu. reflexivity.
Qed.

(** v2.5, a blank username and a new password typed under choice 3: in
    the row with that id the password becomes the new token and [updated]
    the time of the update; nothing else in the table changes. *)
Lemma V25_update_secret_only (w : world) (id_ user choice pw : pystr)
    (rest : list pystr) (r : row) (k : bytes) (f : fernet) (b : bytes) :
  w_stdin w = id_ :: user :: choice :: pw :: rest ->
  find (id_matches (strip id_)) (w_rows w) = Some r ->
  strip user = [] ->
  strip choice = str_lit "3" ->
  pw <> [] ->
  w_key w = Some k -> Fernet k = Some f -> str_encode pw = Some b ->
  eval V25.update w = inl tt
  /\ w_rows (exec V25.update w)
     = map (fun r => if id_matches (strip id_) r
                     then Row (r_id r) (r_service r) (r_username r)
                            (fernet_encrypt_from_parts f b (read_time w) (drawn_iv w))
                            (r_url r) (r_notes r) (r_created r)
                            (w_clock w (S (w_tick w)))
                     else r) (w_rows w).
Proof.
  intros Hin Hfind Hu Hc Hpw Hk Hf Hb.
  unfold eval, exec, V25.update, try_except, V25.update_password,
    print_success, getpass.
  rewrite (bind_input _ w Hin). msteps.
  cbn [w_rows set_stdin]. rewrite Hfind. msteps.
  rewrite Hc.
  change (pystr_eqb (str_lit "3") (str_lit "1")) with false.
  change (pystr_eqb (str_lit "3") (str_lit "2")) with false.
  change (pystr_eqb (str_lit "3") (str_lit "3")) with true.
  cbv iota.
  msteps.
  destruct pw as [|c0 pw0]; [contradiction|]. cbn [truthy].
  erewrite (@bind_inl _ _ (V25.encrypt (c0 :: pw0)));
    [|apply V25_encrypt_spec with (k := k); [exact Hk | exact Hf | exact Hb]].
  rewrite Hu. cbn [truthy].
  destruct (fernet_encrypt_from_parts f b _ _) as [|t0 tok] eqn:Etok.
  { exfalso. unfold fernet_encrypt_from_parts, fernet_basic_parts in Etok.
    apply (f_equal Base64.urlsafe_b64decode) in Etok.
    rewrite Base64Facts.urlsafe_b64decode_encode in Etok. discriminate. }
  cbn [truthy]. msteps.
  match goal with
  | |- context [V25.auto_backup ?w1] =>
      destruct (V25_auto_backup_frame w1) as (H1 & H2 & _);
      destruct (V25.auto_backup w1) as [res w2]
  end.
  cbn [fst snd] in *. subst res. cbv beta iota. cbn [fst snd]. rewrite H2.
  split; reflexivity.
Qed.

(** v2.0, nothing entered: [update] returns without writing and without
    printing anything. *)
Lemma V2_update_no_fields (w : world) (id_ user answer pw : pystr)
    (rest : list pystr) (r : row) :
  w_stdin w = id_ :: user :: answer :: pw :: rest ->
  find (id_matches (strip id_)) (w_rows w) = Some r ->
  strip user = [] ->
  lower_is_y answer = false ->
  pw = [] ->
  V2.update w = (inl tt, set_stdin rest w).
Proof.
  intros Hin Hfind Hu Hy Hpw.
  unfold V2.update, getpass.
  rewrite (bind_input _ w Hin). msteps.
  cbn [w_rows set_stdin]. rewrite Hfind. msteps.
  rewrite Hy. msteps. subst pw. cbn [truthy]. msteps. rewrite Hu.
  reflexivity.
Qed.

(** v2.0, a blank username and a typed new password: as in v2.5, only the
    password and [updated] of the row with that id change. *)
Lemma V2_update_secret_only (w : world) (id_ user answer pw : pystr)
    (rest : list pystr) (r : row) (k : bytes) (f : fernet) (b : bytes) :
  w_stdin w = id_ :: user :: answer :: pw :: rest ->
  find (id_matches (strip id_)) (w_rows w) = Some r ->
  strip user = [] ->
  lower_is_y answer = false ->
  pw <> [] ->
  w_key w = Some k -> Fernet k = Some f -> str_encode pw = Some b ->
  eval V2.update w = inl tt
  /\ w_rows (exec V2.update w)
     = map (fun r => if id_matches (strip id_) r
                     then Row (r_id r) (r_service r) (r_username r)
                            (fernet_encrypt_from_parts f b (read_time w) (drawn_iv w))
                            (r_url r) (r_notes r) (r_created r)
                            (w_clock w (S (w_tick w)))
                     else r) (w_rows w).
Proof.
  intros Hin Hfind Hu Hy Hpw Hk Hf Hb.
  unfold eval, exec, V2.update, V2.encrypt, print_success, getpass.
  rewrite (bind_input _ w Hin). msteps.
  cbn [w_rows set_stdin]. rewrite Hfind. msteps.
  rewrite Hy. msteps.
  destruct pw as [|c0 pw0]; [contradiction|]. cbn [truthy]. msteps.
  erewrite (@bind_inl _ _ (encrypt_body (c0 :: pw0)));
    [|apply encrypt_body_spec with (k := k); [exact Hk | exact Hf | exact Hb]].
  msteps. rewrite Hu. cbn [truthy]. msteps.
  split; reflexivity.
Qed.

End UpdateFacts.

(** v2.5 reports: an update that supplies only a new
    secret (typed under choice 3) replaces, in the row with that id, the
    password by the new token and [updated] by the time of the update;
    service, username, url, notes and created of that row and every other
    row stay; an update that supplies nothing changes neither the table nor
    the database file and shows the warning "No changes made.". *)
Lemma V25_update_frame {C : Cryptography} {P : Python} {H : Host}
    {G : Generators} (w : world) (id_ user choice pw : pystr)
    (rest : list pystr) (r : row) :
  w_stdin w = id_ :: user :: choice :: pw :: rest ->
  find (id_matches (strip id_)) (w_rows w) = Some r ->
  strip user = [] ->
  strip choice = str_lit "3" ->
  (pw = [] ->
   w_rows (exec V25.update w) = w_rows w
   /\ w_db_mtime (exec V25.update w) = w_db_mtime w
   /\ w_out (exec V25.update w) = w_out w ++ [Print LWarning "No changes made."])
  /\ (forall k f b,
        pw <> [] -> w_key w = Some k -> Fernet k = Some f ->
        str_encode pw = Some b ->
        exists token now,
          w_rows (exec V25.update w)
          = map (fun r => if id_matches (strip id_) r
                          then Row (r_id r) (r_service r) (r_username r) token
                                 (r_url r) (r_notes r) (r_created r) now
                          else r) (w_rows w)).
Proof.
  intros Hin Hfind Hu Hc. split.
  - intros Hpw. unfold exec.
    rewrite (V25_update_empty_password w Hin Hfind Hu Hc Hpw). repeat split.
  - intros k f b Hpw Hk Hf Hb.
    destruct (V25_update_secret_only w Hin Hfind Hu Hc Hpw Hk Hf Hb) as [_ Hr].
    eexists _, _. exact Hr.
Qed.

(** C6, for v2.0 (where it fails): an update that supplies nothing
    (blank username, "n" to generation, blank password) changes nothing,
    which is as claimed, but reports nothing either: the terminal output
    is what it was, where v2.5 shows "No changes made.". *)
Theorem C6_v2_update_without_fields_is_silent
    {C : Cryptography} {P : Python} {H : Host} {G : Generators}
    (w : world) (id_ user answer : pystr) (rest : list pystr) (r : row) :
  w_stdin w = id_ :: user :: answer :: [] :: rest ->
  find (id_matches (strip id_)) (w_rows w) = Some r ->
  strip user = [] ->
  lower_is_y answer = false ->
  V2.update w = (inl tt, set_stdin rest w)
  /\ w_rows (exec V2.update w) = w_rows w
  /\ w_out (exec V2.update w) = w_out w.
Proof.
  intros Hin Hfind Hu Hy. unfold exec.
  rewrite (V2_update_no_fields w Hin Hfind Hu Hy eq_refl). repeat split.
Qed.

Section C6AtDemo.
Local Existing Instances Demo.crypto Demo.python Demo.host Demo.generators.

(** The failing input: a table with the row of id 1, and an update of
    ["1"] with everything left blank. *)
Lemma C6_v2_update_without_fields_is_silent_witness :
  let r := Row 1 (str_lit "example.com") (str_lit "alice") [] [] [] 5 5 in
  let w := set_db [r] 9
             (Demo.unlocked [str_lit "1"; []; str_lit "n"; []] 1700000000000000) in
  V2.update w = (inl tt, set_stdin [] w)
  /\ w_rows (exec V2.update w) = [r]
  /\ w_out (exec V2.update w) = [].
Proof.
  intros r w.
  apply (@C6_v2_update_without_fields_is_silent Demo.crypto Demo.python
           Demo.host Demo.generators w (str_lit "1") [] (str_lit "n") [] r);
    reflexivity.
Defined.

End C6AtDemo.

(** ** [get] and [export] *)

Section ExportFacts.
Context {C : Cryptography} {P : Python} {H : Host} {G : Generators}.
Context {F : FileSystem}.

Lemma export_rows_spec (rows : list row) (w : world) :
  V25.export_rows rows w = (inl (exported_under (w_key w) rows), w).
Proof.
  induction rows as [|r rows IH]; cbn [V25.export_rows exported_under flat_map].
  - reflexivity.
  - rewrite (bind_inl (decrypt_spec (r_password r) w)).
    rewrite (bind_inl IH).
    unfold exported_of.
    destruct (decrypt_value (w_key w) (r_password r)) as [pw|]; [|reflexivity].
    destruct (truthy pw); reflexivity.
Qed.

(** [export]: the rows that decrypt to a non-empty secret are collected
    in table order, then the typed path (or export.json) is opened.  When
    [open] fails nothing is written and the failure is reported; otherwise
    the file holds the entries, whichever file it is. *)
Lemma V25_export_spec (w : world) (line : pystr) (rest : list pystr) :
  w_stdin w = line :: rest ->
  let name := export_name line in
  let data := exported_under (w_key w) (w_rows w) in
  let w1 := set_stdin rest w in
  let said w2 :=
    set_out ((w_out w ++ [Print LSuccess "Exported passwords"])
             ++ [Print LWarning "File contains unencrypted passwords! Keep secure!"])
      (set_exports ((name, data) :: w_exports w) w2) in
  V25.export w
  = (inl tt,
     match open_for_writing w1 name with
     | Unopenable => set_out (w_out w ++ [Print LError "Export failed"]) w1
     | SaltFile => said (set_salt (Some (text_file_bytes (json_dump data))) w1)
     | MasterFile => said (set_master_file (Some (json_dump data)) w1)
     | DatabaseFile | ConfigFile | BackupFile | OwnFile => said w1
     end).
Proof.
  intros Hin name data w1 said.
  unfold V25.export, try_except, print_success, print_warning, print_error.
  rewrite (bind_input _ w Hin). msteps.
  rewrite (bind_inl (export_rows_spec _ _)).
  unfold V25.write_json. msteps.
  fold (export_name line). fold name. fold w1.
  change (w_rows w1) with (w_rows w). change (w_key w1) with (w_key w).
  fold data.
  destruct (open_for_writing w1 name); msteps; reflexivity.
Qed.

(** What a call of [export] does to the vault. *)
Lemma V25_export_vault (w : world) :
  eval V25.export w = inl tt
  /\ w_rows (exec V25.export w) = w_rows w
  /\ w_db_mtime (exec V25.export w) = w_db_mtime w
  /\ w_backups (exec V25.export w) = w_backups w
  /\ w_key (exec V25.export w) = w_key w
  /\ (export_target w <> Some SaltFile ->
      w_salt (exec V25.export w) = w_salt w)
  /\ (export_target w <> Some MasterFile ->
      w_master (exec V25.export w) = w_master w)
  /\ (export_target w = Some SaltFile ->
      w_salt (exec V25.export w)
      = Some (text_file_bytes
                (json_dump (exported_under (w_key w) (w_rows w)))))
  /\ (export_target w = Some MasterFile ->
      w_master (exec V25.export w)
      = Some (json_dump (exported_under (w_key w) (w_rows w))))
  /\ (export_target w = None \/ export_target w = Some Unopenable ->
      w_exports (exec V25.export w) = w_exports w).
Proof.
  unfold eval, exec, export_target.
  destruct (w_stdin w) as [|line rest] eqn:Hin.
  - unfold V25.export, try_except. rewrite (bind_input_eof _ w Hin).
    cbn. repeat split; try reflexivity; intros; congruence.
  - rewrite (V25_export_spec w Hin). cbv zeta. cbn [fst snd].
    destruct (open_for_writing (set_stdin rest w) (export_name line));
      cbn; repeat split; try reflexivity; intros; try congruence;
      match goal with
      | H : _ \/ _ |- _ => destruct H; congruence
      end.
Qed.

(** The rows are treated one by one: what a row contributes does not
    depend on the rows around it. *)
Lemma exported_under_app (key : option bytes) (before after : list row) :
  exported_under key (before ++ after)
  = exported_under key before ++ exported_under key after.
Proof. unfold exported_under. apply flat_map_app. Qed.

Lemma exported_of_failed (key : option bytes) (r : row) :
  decrypt_value key (r_password r) = None -> exported_of key r = [].
Proof. intros E. unfold exported_of. now rewrite E. Qed.

Lemma exported_of_empty (key : option bytes) (r : row) :
  decrypt_value key (r_password r) = Some [] -> exported_of key r = [].
Proof. intros E. unfold exported_of. now rewrite E. Qed.

Lemma exported_of_secret (key : option bytes) (r : row) (pw : pystr) :
  decrypt_value key (r_password r) = Some pw -> pw <> [] ->
  exported_of key r
  = [Exported (r_service r) (r_username r) pw (r_url r) (r_notes r)
       (r_created r) (r_updated r)].
Proof.
  intros E Hpw. unfold exported_of. rewrite E.
  destruct pw; [contradiction | reflexivity].
Qed.

(** [get] without pyperclip: the loop over the matching rows shows those
    that decrypt to a non-empty secret and goes past the others. *)
Lemma for_each_get_row (rows : list row) (w : world) :
  w_clipboard w = None ->
  for_each rows V25.get_row w
  = (inl tt, set_out (w_out w ++ shown_under (w_key w) rows) w).
Proof.
  intros Hc. revert w Hc.
  induction rows as [|r rows IH]; intros w Hc;
    cbn [for_each shown_under flat_map].
  - rewrite app_nil_r. now destruct w.
  - unfold V25.get_row at 1, V25.display_strength. rewrite bind_assoc.
    rewrite (bind_inl (decrypt_spec (r_password r) w)).
    unfold shown_of at 1.
    destruct (decrypt_value (w_key w) (r_password r)) as [pw|].
    + destruct (truthy pw).
      * msteps. cbn [w_clipboard set_out]. rewrite Hc. msteps.
        rewrite IH by exact Hc.
        cbn [w_out w_key set_out]. f_equal.
        rewrite <- !app_assoc. reflexivity.
      * msteps. rewrite IH by exact Hc. reflexivity.
    + msteps. rewrite IH by exact Hc. reflexivity.
Qed.

Lemma V25_get_spec (w : world) (service : pystr) (rest : list pystr) :
  w_stdin w = service :: rest ->
  w_clipboard w = None ->
  filter (service_like (strip service)) (w_rows w) <> [] ->
  V25.get w
  = (inl tt,
     set_out (w_out w
              ++ shown_under (w_key w)
                   (filter (service_like (strip service)) (w_rows w)))
       (set_stdin rest w)).
Proof.
  intros Hin Hc Hne. unfold V25.get, try_except.
  rewrite (bind_input _ w Hin). msteps.
  cbn [w_rows set_stdin].
  destruct (filter (service_like (strip service)) (w_rows w)) as [|r0 rs] eqn:E;
    [contradiction|].
  cbn [truthy negb].
  rewrite for_each_get_row by exact Hc. reflexivity.
Qed.

Lemma shown_under_app (key : option bytes) (before after : list row) :
  shown_under key (before ++ after)
  = shown_under key before ++ shown_under key after.
Proof. unfold shown_under. apply flat_map_app. Qed.

(** A table whose only row decrypts to the empty text: [export] writes an
    empty list and [get] shows nothing. *)
Lemma V25_export_single_empty (w : world) (rest : list pystr) (r : row) :
  w_stdin w = [] :: rest ->
  open_for_writing (set_stdin rest w) (str_lit "export.json") = OwnFile ->
  w_rows w = [r] ->
  decrypt_value (w_key w) (r_password r) = Some [] ->
  eval V25.export w = inl tt
  /\ w_exports (exec V25.export w) = (str_lit "export.json", []) :: w_exports w.
Proof.
  intros Hin Hopen Hrows Hd. unfold eval, exec.
  rewrite (V25_export_spec w Hin). cbv zeta.
  change (export_name []) with (str_lit "export.json"). rewrite Hopen.
  cbn [fst snd w_exports set_out set_exports set_stdin].
  split; [reflexivity|].
  rewrite Hrows. unfold exported_under. cbn [flat_map].
  now rewrite (exported_of_empty _ _ Hd).
Qed.

Lemma V25_get_single_empty (w : world) (rest : list pystr) (r : row) :
  w_stdin w = [] :: rest ->
  w_clipboard w = None ->
  w_rows w = [r] ->
  service_like (strip []) r = true ->
  decrypt_value (w_key w) (r_password r) = Some [] ->
  w_out (exec V25.get w) = w_out w.
Proof.
  intros Hin Hclip Hrows Hlike Hd. unfold exec.
  assert (Hf : filter (service_like (strip [])) (w_rows w) = [r]).
  { rewrite Hrows. cbn [filter]. now rewrite Hlike. }
  rewrite (V25_get_spec w Hin Hclip) by (rewrite Hf; discriminate).
  cbn [snd w_out set_out]. rewrite Hf.
  unfold shown_under, shown_of. cbn [flat_map]. rewrite Hd.
  now rewrite app_nil_r.
Qed.

(** [get] with pyperclip: each account shown is followed by the prompt,
    which reads a line.  With a line for every prompt the loop goes
    through all the rows. *)
Lemma for_each_get_row_answering (rows : list row) (w : world)
    (answers rest : list pystr) (c : pystr) (res : unit + exn) (w' : world) :
  w_clipboard w = Some c ->
  w_stdin w = answers ++ rest ->
  length answers = prompts (w_key w) rows ->
  for_each rows V25.get_row w = (res, w') ->
  res = inl tt
  /\ w_out w' = w_out w ++ shown_answering (w_key w) rows answers
  /\ w_stdin w' = rest.
Proof.
  revert w answers c.
  induction rows as [|r rows IH]; intros w answers c Hc Hin Hlen E;
    cbn [for_each shown_answering] in *.
  - destruct answers; [|discriminate]. cbn in E. inversion E; subst.
    rewrite app_nil_r. now repeat split.
  - unfold prompts in Hlen. cbn [filter] in Hlen.
    fold (prompts (w_key w) rows) in Hlen.
    unfold V25.get_row at 1, V25.display_strength in E.
    rewrite bind_assoc in E.
    rewrite (bind_inl (decrypt_spec (r_password r) w)) in E.
    destruct (decrypt_value (w_key w) (r_password r)) as [pw|] eqn:Hd.
    2:{ assert (Hs : shown_of (w_key w) r = [])
          by (unfold shown_of; now rewrite Hd).
        rewrite Hs in *. cbn [truthy] in Hlen. rewrite bind_ret_l in E.
        exact (IH w answers c Hc Hin Hlen E). }
    destruct (truthy pw) eqn:Hpw.
    2:{ assert (Hs : shown_of (w_key w) r = [])
          by (unfold shown_of; now rewrite Hd, Hpw).
        rewrite Hs in *. cbn [truthy] in Hlen. rewrite bind_ret_l in E.
        exact (IH w answers c Hc Hin Hlen E). }
    assert (Hs : shown_of (w_key w) r
                 = [ShowAccount r pw; ShowStrength (fst (V25.check_strength pw))])
      by (unfold shown_of; now rewrite Hd, Hpw).
    rewrite Hs in *. cbn [truthy length] in Hlen.
    destruct answers as [|a answers']; [discriminate|].
    injection Hlen as Hlen. cbn [hd tl].
    rewrite !bind_assoc, bind_emit, !bind_assoc, bind_emit, !bind_assoc,
      bind_get_world in E.
    cbn [w_clipboard set_out] in E. rewrite Hc in E.
    rewrite !bind_assoc in E.
    erewrite bind_input in E by (cbn [w_stdin set_out]; rewrite Hin; reflexivity).
    destruct (lower_is_y a).
    + unfold clipboard_copy, print_success in E.
      rewrite !bind_assoc, bind_get_world in E.
      cbn [w_clipboard set_out set_stdin] in E. rewrite Hc in E.
      rewrite !bind_assoc, bind_modify, bind_emit in E.
      match type of E with
      | for_each _ _ ?w1 = _ =>
          destruct (IH w1 answers' pw eq_refl eq_refl Hlen E) as (E1 & E2 & E3)
      end.
      split; [exact E1|]. split; [|exact E3].
      rewrite E2. cbn [w_out w_key set_out set_clipboard set_stdin].
      rewrite <- !app_assoc. reflexivity.
    + rewrite bind_ret_l in E.
      match type of E with
      | for_each _ _ ?w1 = _ =>
          destruct (IH w1 answers' c Hc eq_refl Hlen E) as (E1 & E2 & E3)
      end.
      split; [exact E1|]. split; [|exact E3].
      rewrite E2. cbn [w_out w_key set_out set_stdin].
      rewrite <- !app_assoc. reflexivity.
Qed.

(** A row that shows nothing asks nothing. *)
Lemma shown_answering_skip (key : option bytes) (before after : list row)
    (bad : row) (answers : list pystr) :
  shown_of key bad = [] ->
  shown_answering key (before ++ bad :: after) answers
  = shown_answering key (before ++ after) answers.
Proof.
  intros Hbad. revert answers.
  induction before as [|r before IH]; intros answers; cbn [app shown_answering].
  - now rewrite Hbad.
  - destruct (shown_of key r); [apply IH|]. now rewrite IH.
Qed.

Lemma prompts_skip (key : option bytes) (before after : list row) (bad : row) :
  shown_of key bad = [] ->
  prompts key (before ++ bad :: after) = prompts key (before ++ after).
Proof.
  intros Hbad. unfold prompts. rewrite !filter_app. cbn [filter].
  now rewrite Hbad.
Qed.

(** Every row that decrypts to a non-empty secret is among the accounts
    shown. *)
Lemma shown_answering_in (key : option bytes) (rows : list row)
    (answers : list pystr) (r : row) (pw : pystr) :
  In r rows -> decrypt_value key (r_password r) = Some pw -> pw <> [] ->
  In (ShowAccount r pw) (shown_answering key rows answers).
Proof.
  intros Hr Hdec Hpw. revert answers.
  induction rows as [|r0 rows IH]; intros answers; [contradiction|].
  cbn [shown_answering]. destruct Hr as [->|Hr].
  - unfold shown_of. rewrite Hdec. destruct pw; [contradiction|].
    cbn [truthy]. now left.
  - destruct (shown_of key r0) as [|e evs]; [now apply IH|].
    apply in_or_app. right. apply in_or_app. right. now apply IH.
Qed.

Lemma V25_get_answering (w : world) (service : pystr)
    (answers rest : list pystr) (c : pystr) :
  w_stdin w = service :: answers ++ rest ->
  w_clipboard w = Some c ->
  filter (service_like (strip service)) (w_rows w) <> [] ->
  length answers
  = prompts (w_key w) (filter (service_like (strip service)) (w_rows w)) ->
  eval V25.get w = inl tt
  /\ w_out (exec V25.get w)
     = w_out w
       ++ shown_answering (w_key w)
            (filter (service_like (strip service)) (w_rows w)) answers
  /\ w_stdin (exec V25.get w) = rest.
Proof.
  intros Hin Hc Hne Hlen. unfold eval, exec, V25.get, try_except.
  rewrite (bind_input _ w Hin). msteps.
  cbn [w_rows set_stdin].
  destruct (filter (service_like (strip service)) (w_rows w)) as [|r0 rs] eqn:E;
    [contradiction|].
  cbn [truthy negb].
  destruct (for_each (r0 :: rs) V25.get_row (set_stdin (answers ++ rest) w))
    as [res w'] eqn:Ef.
  destruct (@for_each_get_row_answering (r0 :: rs) (set_stdin (answers ++ rest) w)
              answers rest c res w' Hc eq_refl Hlen Ef) as (E1 & E2 & E3).
  subst res. cbn [fst snd]. now repeat split.
Qed.

End ExportFacts.

(** ** The salt over a vault's life *)

Section SaltRuns.
Context {C : Cryptography} {P : Python} {H : Host} {G : Generators}.
Context {F : FileSystem}.

(** No method of either program changes the salt file once it exists,
    but [export] when the path typed to it is the salt file's. *)
Lemma run_keeps_salt (m : method) (w : world) (s : bytes) :
  (m = Export25 -> export_target w <> Some SaltFile) ->
  w_salt w = Some s -> w_salt (run m w) = Some s.
Proof.
  intros Hguard Hs. destruct m; cbn [run]; unfold exec.
  - now apply keeps_get_salt.
  - now apply keeps_get_key.
  - now apply keeps_decrypt.
  - now apply keeps_V25_encrypt.
  - now apply keeps_V25_set_master.
  - now apply keeps_V25_verify_master.
  - now apply keeps_V25_add.
  - now apply keeps_V25_get.
  - now apply keeps_V25_update.
  - now apply keeps_V25_backup.
  - destruct (V25_export_vault w) as (_ & _ & _ & _ & _ & Hkeep & _).
    unfold exec in Hkeep. rewrite Hkeep; [exact Hs | now apply Hguard].
  - now apply keeps_encrypt_body.
  - now apply keeps_V2_set_master.
  - now apply keeps_V2_verify_master.
  - now apply keeps_V2_add.
  - now apply keeps_V2_get.
  - now apply keeps_V2_update.
  - now apply keeps_V2_backup.
Qed.

Lemma run_all_keeps_salt (ms : list method) (w : world) (s : bytes) :
  spares_the_salt ms w ->
  w_salt w = Some s -> w_salt (run_all ms w) = Some s.
Proof.
  revert w. induction ms as [|m ms IH]; intros w Hsp Hs; simpl.
  - exact Hs.
  - destruct Hsp as [Hm Hrest]. apply IH; [exact Hrest|].
    now apply run_keeps_salt.
Qed.

End SaltRuns.


Section C8AtDemo.
Local Existing Instances Demo.crypto Demo.python Demo.host Demo.generators
  Demo.files.



End C8AtDemo.

Section C9AtDemo.
Local Existing Instances Demo.crypto Demo.python Demo.host Demo.generators
  Demo.files.



End C9AtDemo.

(** ** Backups and their retention *)

Lemma insert_by_mtime_perm a l : Permutation (insert_by_mtime a l) (a :: l).
Proof.
  induction l as [|b l IH]; cbn; [reflexivity|].
  destruct (a_mtime a <? a_mtime b); [|reflexivity].
  rewrite IH. apply perm_swap.
Qed.

Lemma sorted_by_mtime_desc_perm l : Permutation (sorted_by_mtime_desc l) l.
Proof.
  induction l as [|a l IH]; cbn; [reflexivity|].
  rewrite insert_by_mtime_perm. now constructor.
Qed.

Lemma insert_by_mtime_sorted a l :
  StronglySorted (fun x y => a_mtime y <= a_mtime x) l ->
  StronglySorted (fun x y => a_mtime y <= a_mtime x) (insert_by_mtime a l).
Proof.
  induction 1 as [|b l Hs IH Hb]; cbn.
  - repeat constructor.
  - destruct (N.ltb_spec (a_mtime a) (a_mtime b)) as [Hlt|Hge].
    + constructor; [exact IH|].
      rewrite Forall_forall in *. intros x Hx.
      apply (Permutation_in _ (insert_by_mtime_perm a l)) in Hx.
      destruct Hx as [<-|Hx]; [lia | now apply Hb].
    + constructor; [now constructor|].
      constructor; [exact Hge|].
      rewrite Forall_forall in *. intros x Hx.
      specialize (Hb x Hx). lia.
Qed.

(** The list [backup] sorts is newest first. *)
Lemma sorted_by_mtime_desc_sorted l :
  StronglySorted (fun x y => a_mtime y <= a_mtime x) (sorted_by_mtime_desc l).
Proof.
  induction l as [|a l IH]; cbn; [constructor|].
  now apply insert_by_mtime_sorted.
Qed.

Lemma StronglySorted_app_order {A} (R : A -> A -> Prop) l1 l2 :
  StronglySorted R (l1 ++ l2) ->
  forall x y, In x l1 -> In y l2 -> R x y.
Proof.
  induction l1 as [|a l1 IH]; cbn; intros Hs x y Hx Hy; [contradiction|].
  apply StronglySorted_inv in Hs. destruct Hs as [Hs Ha].
  destruct Hx as [<-|Hx].
  - rewrite Forall_forall in Ha. apply Ha, in_or_app. now right.
  - now apply IH.
Qed.

Lemma filter_perm {A} (p : A -> bool) l l' :
  Permutation l l' -> Permutation (filter p l) (filter p l').
Proof.
  induction 1 as [|x l l' _ IH|x y l|l l' l'' _ IH1 _ IH2]; cbn.
  - constructor.
  - destruct (p x); [now constructor | exact IH].
  - destruct (p x), (p y); try reflexivity. apply perm_swap.
  - now transitivity (filter p l').
Qed.

Lemma filter_all {A} (p : A -> bool) l :
  (forall x, In x l -> p x = true) -> filter p l = l.
Proof.
  induction l as [|a l IH]; cbn; intros Hp; [reflexivity|].
  rewrite (Hp a) by now left.
  f_equal. apply IH. intros x Hx. apply Hp. now right.
Qed.

Lemma filter_none {A} (p : A -> bool) l :
  (forall x, In x l -> p x = false) -> filter p l = [].
Proof.
  induction l as [|a l IH]; cbn; intros Hp; [reflexivity|].
  rewrite (Hp a) by now left.
  apply IH. intros x Hx. apply Hp. now right.
Qed.

Lemma listed_stamp (old : list artifact) a :
  existsb (fun o => a_stamp o =? a_stamp a) old = true <->
  In (a_stamp a) (map a_stamp old).
Proof.
  rewrite existsb_exists, in_map_iff. split.
  - intros (o & Ho & E). apply N.eqb_eq in E. now exists o.
  - intros (o & E & Ho). exists o. split; [exact Ho | now apply N.eqb_eq].
Qed.

(** With one file per name, deleting the tail of any listing of a
    directory leaves the head of that listing. *)
Lemma unlink_all_tail k s dir :
  Permutation s dir -> NoDup (map a_stamp dir) ->
  Permutation (unlink_all (skipn k s) dir) (firstn k s).
Proof.
  intros Hp Hnd. unfold unlink_all.
  set (p := fun a => negb (existsb (fun o => a_stamp o =? a_stamp a) (skipn k s))).
  assert (Hs : NoDup (map a_stamp (firstn k s ++ skipn k s))).
  { rewrite firstn_skipn.
    apply (Permutation_NoDup (Permutation_map a_stamp (Permutation_sym Hp)) Hnd). }
  rewrite <- (filter_perm p Hp).
  transitivity (filter p (firstn k s ++ skipn k s));
    [now rewrite firstn_skipn|].
  rewrite filter_app, filter_all, filter_none, app_nil_r; [reflexivity| |].
  - intros x Hx. apply negb_false_iff, listed_stamp. now apply in_map.
  - intros x Hx. apply negb_true_iff, not_true_iff_false.
    unfold p. rewrite listed_stamp. intros Hin.
    rewrite map_app in Hs.
    apply in_split in Hx. destruct Hx as (l1 & l2 & E).
    rewrite E, map_app in Hs. cbn [map] in Hs.
    rewrite <- app_assoc in Hs. cbn [app] in Hs.
    apply NoDup_remove_2 in Hs. apply Hs.
    rewrite app_assoc. apply in_or_app. now right.
Qed.

Lemma copy2_fresh a dir :
  ~ In (a_stamp a) (map a_stamp dir) -> copy2 a dir = dir ++ [a].
Proof.
  induction dir as [|b dir IH]; cbn; intros Hn; [reflexivity|].
  destruct (N.eqb_spec (a_stamp b) (a_stamp a)) as [E|_].
  - exfalso. apply Hn. now left.
  - f_equal. apply IH. intros Hin. apply Hn. now right.
Qed.

(** [copy2] never removes a name from the directory. *)
Lemma copy2_keeps_stamps a dir :
  incl (map a_stamp dir) (map a_stamp (copy2 a dir)).
Proof.
  induction dir as [|b dir IH]; cbn; intros x Hx; [contradiction|].
  destruct (N.eqb_spec (a_stamp b) (a_stamp a)) as [E|_]; cbn.
  - destruct Hx as [<-|Hx]; [left; congruence | now right].
  - destruct Hx as [<-|Hx]; [now left | right; now apply IH].
Qed.

(** A name that is already there is overwritten: the directory does not
    grow. *)
Lemma copy2_same_stamp_length a dir :
  In (a_stamp a) (map a_stamp dir) -> length (copy2 a dir) = length dir.
Proof.
  induction dir as [|b dir IH]; cbn; intros Hin; [contradiction|].
  destruct (N.eqb_spec (a_stamp b) (a_stamp a)) as [E|Hne]; cbn.
  - reflexivity.
  - f_equal. apply IH. destruct Hin as [E|Hin]; [contradiction | exact Hin].
Qed.

Section BackupFacts.
Context {C : Cryptography} {P : Python} {H : Host} {G : Generators}.
Context {HL : HostLaws H}.

(** The cleanup keeps the first [n] files of the sorted listing. *)
Lemma pruned_perm n dir :
  (0 <= n)%Z -> NoDup (map a_stamp dir) ->
  Permutation (pruned n dir)
    (firstn (Z.to_nat n) (sorted_by_mtime_desc (glob_order dir))).
Proof.
  intros Hn Hnd. unfold pruned, py_slice_from.
  destruct (Z.leb_spec 0 n) as [_|]; [|lia].
  apply unlink_all_tail; [|exact Hnd].
  rewrite sorted_by_mtime_desc_perm. apply glob_order_perm.
Qed.

Lemma pruned_length n dir :
  (0 <= n)%Z -> NoDup (map a_stamp dir) ->
  length (pruned n dir) = Nat.min (Z.to_nat n) (length dir).
Proof.
  intros Hn Hnd.
  rewrite (Permutation_length (@pruned_perm n dir Hn Hnd)), length_firstn.
  now rewrite (Permutation_length (sorted_by_mtime_desc_perm _)),
    (Permutation_length (glob_order_perm _)).
Qed.

Lemma pruned_incl n dir : incl (pruned n dir) dir.
Proof. intros a Ha. unfold pruned, unlink_all in Ha. now apply filter_In in Ha. Qed.

(** What one [backup] of v2.5 does to the vault: one clock reading, the
    copy, the cleanup. *)
Lemma V25_backup_spec silent w :
  let w' := exec (V25.backup silent) w in
  w_backups w' =
    pruned (w_backup_count w)
      (copy2 (Artifact (w_clock w (w_tick w) / 1000000) (w_db_mtime w) (w_rows w))
         (w_backups w))
  /\ w_tick w' = S (w_tick w) /\ w_clock w' = w_clock w
  /\ w_backup_count w' = w_backup_count w /\ w_rows w' = w_rows w
  /\ w_db_mtime w' = w_db_mtime w.
Proof.
  destruct silent; repeat split.
Qed.

Lemma backup_at_spec silent w m :
  let w' := backup_at silent w m in
  w_backups w' =
    pruned (w_backup_count w)
      (copy2 (Artifact (w_clock w (w_tick w) / 1000000) m (w_rows w))
         (w_backups w))
  /\ w_tick w' = S (w_tick w) /\ w_clock w' = w_clock w
  /\ w_backup_count w' = w_backup_count w /\ w_rows w' = w_rows w.
Proof.
  unfold backup_at.
  destruct (V25_backup_spec silent (set_db (w_rows w) m w))
    as (E1 & E2 & E3 & E4 & E5 & _).
  repeat split; assumption.
Qed.

(** [backup] of v2 deletes nothing: every name stays in the directory. *)
Lemma V2_backup_never_deletes w :
  incl (map a_stamp (w_backups w)) (map a_stamp (w_backups (exec V2.backup w))).
Proof. apply copy2_keeps_stamps. Qed.

End BackupFacts.

Lemma firstn_snoc {A} (d : A) k (l : list A) :
  (k < length l)%nat -> firstn (S k) l = firstn k l ++ [nth k l d].
Proof.
  revert l. induction k as [|k IH]; intros [|a l] Hk; cbn in *; try lia.
  - reflexivity.
  - f_equal. apply IH. lia.
Qed.

Lemma NoDup_map_filter {A B} (f : A -> B) (p : A -> bool) l :
  NoDup (map f l) -> NoDup (map f (filter p l)).
Proof.
  induction l as [|a l IH]; cbn; intros Hnd; [constructor|].
  apply NoDup_cons_iff in Hnd. destruct Hnd as [Ha Hnd].
  destruct (p a); cbn; [|now apply IH].
  constructor; [|now apply IH].
  intros Hin. apply Ha.
  apply in_map_iff in Hin. destruct Hin as (x & E & Hx).
  apply filter_In in Hx. apply in_map_iff. exists x. tauto.
Qed.

Section Series.
Context {C : Cryptography} {P : Python} {H : Host} {G : Generators}.
Context {HL : HostLaws H}.
Variables (silent : bool) (w : world) (ms : list N).

Lemma backups_at_step k :
  (k < length ms)%nat ->
  backups_at silent (firstn (S k) ms) w =
  backup_at silent (backups_at silent (firstn k ms) w) (nth k ms 0).
Proof.
  intros Hk. rewrite firstn_snoc with (d := 0) by exact Hk. unfold backups_at.
  now rewrite fold_left_app.
Qed.

(** Each call reads the clock once and leaves the configuration and the
    rows alone. *)
Lemma backups_at_frame k :
  (k <= length ms)%nat ->
  let wk := backups_at silent (firstn k ms) w in
  w_tick wk = (w_tick w + k)%nat /\ w_clock wk = w_clock w
  /\ w_backup_count wk = w_backup_count w /\ w_rows wk = w_rows w.
Proof.
  induction k as [|k IH]; intros Hk.
  - cbn. repeat split. lia.
  - destruct IH as (I1 & I2 & I3 & I4); [lia|].
    cbv zeta. rewrite backups_at_step by lia.
    destruct (backup_at_spec silent (backups_at silent (firstn k ms) w) (nth k ms 0))
      as (_ & E2 & E3 & E4 & E5).
    rewrite E2, E3, E4, E5. repeat split; try assumption. lia.
Qed.

(** The directory after one more call. *)
Lemma backups_at_next k :
  (k < length ms)%nat ->
  w_backups (backups_at silent (firstn (S k) ms) w) =
  pruned (w_backup_count w)
    (copy2 (artifact_at w ms k) (w_backups (backups_at silent (firstn k ms) w))).
Proof.
  intros Hk. rewrite backups_at_step by exact Hk.
  destruct (backup_at_spec silent (backups_at silent (firstn k ms) w) (nth k ms 0))
    as (E1 & _).
  destruct (@backups_at_frame k) as (I1 & I2 & I3 & I4); [lia|].
  rewrite E1, I1, I2, I3, I4. reflexivity.
Qed.

Hypothesis Hcount : (0 <= w_backup_count w)%Z.
Hypothesis Hempty : w_backups w = [].
Hypothesis Hstamps : NoDup (map (stamp_at w) (seq 0 (length ms))).

Lemma stamp_at_inj i j :
  (i < length ms)%nat -> (j < length ms)%nat ->
  stamp_at w i = stamp_at w j -> i = j.
Proof.
  intros Hi Hj E.
  apply (proj1 (NoDup_nth _ 0) Hstamps); rewrite ?length_map, ?length_seq; try assumption.
  rewrite !(nth_indep _ 0 (stamp_at w 0)) by now rewrite length_map, length_seq.
  now rewrite !map_nth, !seq_nth.
Qed.

(** While the calls fall in distinct seconds, the directory holds one
    file per call, up to the retention count. *)
Lemma backups_at_count k :
  (k <= length ms)%nat ->
  let d := w_backups (backups_at silent (firstn k ms) w) in
  length d = Nat.min k (Z.to_nat (w_backup_count w))
  /\ NoDup (map a_stamp d)
  /\ forall a, In a d -> exists i, (i < k)%nat /\ a_stamp a = stamp_at w i.
Proof.
  induction k as [|k IH]; intros Hk; cbv zeta.
  - cbn. rewrite Hempty. repeat split; [constructor | intros a []].
  - destruct IH as (I1 & I2 & I3); [lia|].
    rewrite backups_at_next by lia.
    set (d := w_backups (backups_at silent (firstn k ms) w)) in *.
    assert (Hfresh : ~ In (a_stamp (artifact_at w ms k)) (map a_stamp d)).
    { intros Hin. apply in_map_iff in Hin. destruct Hin as (b & E & Hb).
      destruct (I3 b Hb) as (i & Hi & Ei).
      cbn in E. rewrite Ei in E. apply stamp_at_inj in E; lia. }
    rewrite copy2_fresh by exact Hfresh.
    assert (Hnd : NoDup (map a_stamp (d ++ [artifact_at w ms k]))).
    { rewrite map_app. apply NoDup_app; [exact I2 | repeat constructor; intros [] |].
      intros x Hx [<-|[]]. now apply Hfresh. }
    split; [|split].
    + rewrite pruned_length by assumption. rewrite length_app, I1. cbn [length]. lia.
    + now apply NoDup_map_filter.
    + intros a Ha. apply pruned_incl, in_app_or in Ha.
      destruct Ha as [Ha|[<-|[]]].
      * destruct (I3 a Ha) as (i & Hi & Ei). exists i. split; [lia | exact Ei].
      * exists k. split; [lia | reflexivity].
Qed.

Hypothesis Hwritten : written_between ms.

(** When the store was also written between the calls, the files left
    are those of the latest calls. *)
Lemma backups_at_survivors k :
  (k <= length ms)%nat ->
  let c := Nat.min k (Z.to_nat (w_backup_count w)) in
  Permutation (w_backups (backups_at silent (firstn k ms) w))
    (map (artifact_at w ms) (seq (k - c) c)).
Proof.
  induction k as [|k IH]; intros Hk; cbv zeta.
  - cbn. rewrite Hempty. constructor.
  - specialize (IH ltac:(lia)). cbv zeta in IH.
    destruct (@backups_at_count k) as (I1 & I2 & I3); [lia|].
    rewrite backups_at_next by lia.
    set (d := w_backups (backups_at silent (firstn k ms) w)) in *.
    set (n := Z.to_nat (w_backup_count w)) in *.
    set (art := artifact_at w ms) in *.
    assert (Hfresh : ~ In (a_stamp (art k)) (map a_stamp d)).
    { intros Hin. apply in_map_iff in Hin. destruct Hin as (b & E & Hb).
      destruct (I3 b Hb) as (i & Hi & Ei).
      cbn in E. rewrite Ei in E. apply stamp_at_inj in E; lia. }
    rewrite copy2_fresh by exact Hfresh.
    assert (Hnd : NoDup (map a_stamp (d ++ [art k]))).
    { rewrite map_app. apply NoDup_app; [exact I2 | repeat constructor; intros [] |].
      intros x Hx [<-|[]]. now apply Hfresh. }
    assert (Hall : Permutation (d ++ [art k])
                     (map art (seq (k - Nat.min k n) (S (Nat.min k n))))).
    { rewrite seq_S, map_app. apply Permutation_app; [exact IH|].
      replace (k - Nat.min k n + Nat.min k n)%nat with k by lia. reflexivity. }
    rewrite (@pruned_perm _ _ _ (d ++ [art k]) Hcount Hnd). fold n.
    set (s := sorted_by_mtime_desc (glob_order (d ++ [art k]))).
    assert (Hs : Permutation s (d ++ [art k])).
    { unfold s. rewrite sorted_by_mtime_desc_perm. apply glob_order_perm. }
    assert (Hlen : length s = S (Nat.min k n)).
    { rewrite (Permutation_length Hs), length_app, I1. cbn [length]. lia. }
    destruct (Nat.lt_ge_cases k n) as [Hlt|Hge].
    + rewrite firstn_all2 by lia.
      replace (Nat.min (S k) n) with (S k) by lia.
      replace (Nat.min k n) with k in Hall by lia.
      replace (S k - S k)%nat with (k - k)%nat by lia.
      now rewrite Hs.
    + replace (Nat.min (S k) n) with n by lia.
      replace (Nat.min k n) with n in * by lia.
      replace (S k - n)%nat with (S (k - n)) by lia.
      assert (Hsplit : exists x, s = firstn n s ++ [x]).
      { pose proof (firstn_skipn n s) as E.
        pose proof (length_skipn n s) as L. rewrite Hlen in L.
        destruct (skipn n s) as [|x [|y t]]; cbn [length] in L; try lia.
        exists x. now symmetry. }
      destruct Hsplit as (x & Ex).
      assert (Hsorted : StronglySorted (fun a b => a_mtime b <= a_mtime a) s)
        by apply sorted_by_mtime_desc_sorted.
      rewrite Hall in Hs. cbn [seq map] in Hs.
      assert (Hx : x = art (k - n)%nat).
      { assert (Hin : In x s) by (rewrite Ex; apply in_or_app; right; now left).
        apply (Permutation_in _ Hs) in Hin.
        change (In x (map art (seq (k - n) (S n)))) in Hin.
        apply in_map_iff in Hin. destruct Hin as (j & <- & Hj).
        apply in_seq in Hj.
        assert (Hlo : In (art (k - n)%nat) s).
        { apply (Permutation_in _ (Permutation_sym Hs)). now left. }
        rewrite Ex in Hlo. apply in_app_or in Hlo.
        destruct Hlo as [Hlo|[E|[]]]; [|now symmetry].
        rewrite Ex in Hsorted.
        pose proof (StronglySorted_app_order _ _ Hsorted _ _ Hlo
                      (or_introl eq_refl)) as Hle.
        cbn in Hle.
        destruct (Nat.eq_dec j (k - n)) as [->|Hne]; [reflexivity|].
        assert (Hinc : nth (k - n) ms 0 < nth j ms 0) by (apply Hwritten; lia).
        lia. }
      subst x. rewrite Ex in Hs.
      apply Permutation_cons_inv with (a := art (k - n)%nat).
      rewrite <- Hs. apply Permutation_cons_append.
Qed.

End Series.

(** C7 (as amended): with a retention count [n] in the configured range
    1..20 and an empty backup directory, [n + 2] calls of v2.5's [backup]
    whose clock readings fall in pairwise distinct seconds leave exactly
    [n] artifacts.  Each call copies the store to the path named after the
    second it was made in, then deletes every file after the first [n] of
    the listing sorted by modification time, newest first.  A copy carries
    the store's modification time, so it is when the store was written
    between the calls that the files left are those of the last [n] calls,
    the two oldest being pruned. *)
Theorem C7_backup_retention_distinct_seconds
    {H : Host} {HL : HostLaws H}
    (silent : bool) (w : world) (ms : list N) (n : Z) :
  (1 <= n <= 20)%Z ->
  w_backup_count w = n ->
  w_backups w = [] ->
  length ms = (Z.to_nat n + 2)%nat ->
  NoDup (map (stamp_at w) (seq 0 (length ms))) ->
  let w' := backups_at silent ms w in
  length (w_backups w') = Z.to_nat n
  /\ (written_between ms ->
      Permutation (w_backups w')
        (map (artifact_at w ms) (seq 2 (Z.to_nat n))))
  /\ (forall w0 : world,
        w_backups (exec (V25.backup silent) w0)
        = unlink_all
            (py_slice_from (w_backup_count w0)
               (sorted_by_mtime_desc
                  (glob_order
                     (copy2 (Artifact (read_time w0) (w_db_mtime w0) (w_rows w0))
                        (w_backups w0)))))
            (copy2 (Artifact (read_time w0) (w_db_mtime w0) (w_rows w0))
               (w_backups w0))).
Proof.
  intros Hn Hc Hempty Hlen Hstamps w'.
  assert (Hcount : (0 <= w_backup_count w)%Z) by lia.
  assert (Hall : firstn (length ms) ms = ms) by apply firstn_all.
  split; [|split].
  - destruct (@backups_at_count H HL silent w ms Hcount Hempty Hstamps
                (length ms) (le_n _)) as (E & _).
    rewrite Hall in E. unfold w'. rewrite E, Hc, Hlen. lia.
  - intros Hwritten.
    pose proof (@backups_at_survivors H HL silent w ms Hcount Hempty Hstamps
                  Hwritten (length ms) (le_n _)) as E.
    cbv zeta in E. rewrite Hall, Hc, Hlen in E.
    replace (Nat.min (Z.to_nat n + 2) (Z.to_nat n)) with (Z.to_nat n) in E by lia.
    replace (Z.to_nat n + 2 - Z.to_nat n)%nat with 2%nat in E by lia.
    exact E.
  - intros w0. now destruct silent.
Qed.

Section C7AtDemo.
Local Existing Instances Demo.crypto Demo.python Demo.host Demo.generators.

(** The theorem with the default retention count, 5: seven backups taken
    one second apart, the store written before each. *)
Lemma C7_backup_retention_distinct_seconds_witness :
  let w := Demo.world0 [] 1700000000000000 in
  let ms := [10; 20; 30; 40; 50; 60; 70] in
  length (w_backups (backups_at false ms w)) = 5%nat
  /\ Permutation (w_backups (backups_at false ms w))
       (map (artifact_at w ms) (seq 2 5)).
Proof.
  intros w ms.
  assert (Hn : (1 <= 5 <= 20)%Z) by lia.
  assert (Hc : w_backup_count w = 5%Z) by reflexivity.
  assert (He : w_backups w = []) by reflexivity.
  assert (Hl : length ms = (Z.to_nat 5 + 2)%nat) by reflexivity.
  assert (Hs : NoDup (map (stamp_at w) (seq 0 (length ms)))).
  { vm_compute. repeat (constructor; [cbn; intuition discriminate|]). constructor. }
  assert (Hw : written_between ms).
  { intros i j [Hij Hj].
    do 7 (destruct j as [|j];
          [do 7 (destruct i as [|i]; [cbn; lia|]); cbn in Hij; lia|]).
    cbn in Hj. lia. }
  destruct (@C7_backup_retention_distinct_seconds Demo.host demo_host_laws
              false w ms 5%Z Hn Hc He Hl Hs) as (E1 & E2 & _).
  split; [exact E1 | exact (E2 Hw)].
Defined.

(** The claim as it was stated fails: the stamp in the file name counts
    whole seconds, so calls made within one second write the same file.
    With a retention count of 2, four calls in a row leave one artifact,
    not two. *)
Lemma C7_calls_within_a_second_leave_one :
  let w := in_a_burst 1700000000000000 2 in
  w_backup_count w = 2%Z /\ w_backups w = []
  /\ length (w_backups (backups_at false [0; 0; 0; 0] w)) = 1%nat
  /\ length (w_backups (backups_at false [0; 0; 0; 0] w)) <> Z.to_nat 2.
Proof.
  cbv zeta. repeat split. vm_compute. discriminate.
Qed.

(** When the store is not written between the calls all copies carry the
    same modification time, and which files stay is left to the order in
    which the directory is listed: listed in order of creation, the first
    five files stay and the latest two are deleted. *)
Example unwritten_store_keeps_the_listing_order :
  let w := Demo.world0 [] 1700000000000000 in
  map a_stamp (w_backups (backups_at false [0; 0; 0; 0; 0; 0; 0] w))
  = map (stamp_at w) (seq 0 5).
Proof. vm_compute. reflexivity. Qed.

End C7AtDemo.

(** ** The generators *)

Lemma rbind_inl {A B} {m : R A} (k : A -> R B) {rand pos a pos'} :
  m rand pos = (inl a, pos') -> rbind m k rand pos = k a rand pos'.
Proof. intros E. unfold rbind. now rewrite E. Qed.

Lemma length_set_item {A} (i : nat) (v : A) (x : list A) :
  length (set_item i v x) = length x.
Proof.
  revert i. induction x as [|a x IH]; intros [|i]; cbn; try reflexivity.
  now rewrite IH.
Qed.

Lemma nth_error_set_item_eq {A} (i : nat) (v : A) (x : list A) :
  (i < length x)%nat -> nth_error (set_item i v x) i = Some v.
Proof.
  revert i. induction x as [|a x IH]; intros [|i] Hi; cbn in *; try lia.
  - reflexivity.
  - apply IH. lia.
Qed.

Lemma nth_error_set_item_neq {A} (i k : nat) (v : A) (x : list A) :
  k <> i -> nth_error (set_item i v x) k = nth_error x k.
Proof.
  revert i k. induction x as [|a x IH]; intros [|i] [|k] Hk; cbn;
    try reflexivity; try congruence.
  apply IH. congruence.
Qed.

(** Exchanging two items of a list rearranges it. *)
Lemma swap_perm {A} (i j : nat) (x x' : list A) :
  swap i j x = Some x' -> Permutation x' x.
Proof.
  unfold swap. destruct (nth_error x j) as [xj|] eqn:Ej; [|discriminate].
  destruct (nth_error x i) as [xi|] eqn:Ei; [|discriminate].
  intros [= <-]. symmetry.
  assert (Hi : (i < length x)%nat) by (apply nth_error_Some; congruence).
  assert (Hj : (j < length x)%nat) by (apply nth_error_Some; congruence).
  apply Permutation_nth_error. split.
  - now rewrite !length_set_item.
  - exists (fun n => if (n =? j)%nat then i else if (n =? i)%nat then j else n).
    split.
    + intros a b.
      destruct (Nat.eqb_spec a j), (Nat.eqb_spec a i),
        (Nat.eqb_spec b j), (Nat.eqb_spec b i); lia.
    + intros n. destruct (Nat.eqb_spec n j) as [->|Hnj].
      * rewrite nth_error_set_item_eq by now rewrite length_set_item.
        now symmetry.
      * rewrite nth_error_set_item_neq by exact Hnj.
        destruct (Nat.eqb_spec n i) as [->|Hni].
        -- rewrite nth_error_set_item_eq by exact Hi. now symmetry.
        -- now rewrite nth_error_set_item_neq.
Qed.

Lemma swap_in_range {A} (i j : nat) (x : list A) :
  (i < length x)%nat -> (j < length x)%nat -> exists x', swap i j x = Some x'.
Proof.
  intros Hi Hj. unfold swap.
  destruct (nth_error x j) eqn:Ej; [|apply nth_error_None in Ej; lia].
  destruct (nth_error x i) eqn:Ei; [|apply nth_error_None in Ei; lia].
  eauto.
Qed.

Section SecretsFacts.
Context {Sec : Secrets} {SL : SecretsLaws Sec}.

Lemma randbelow_r_spec (n : N) rand pos :
  0 < n -> exists r pos', randbelow_r n rand pos = (inl r, pos') /\ r < n.
Proof.
  intros Hn. unfold randbelow_r.
  pose proof (@randbelow_lt _ _ n rand pos Hn) as Hlt.
  destruct (randbelow n rand pos) as [r p]. exists r, p. now split.
Qed.

(** [choice] of a sequence that is not empty returns one of its items. *)
Lemma choice_spec {A} (seq : list A) rand pos :
  seq <> [] ->
  exists c pos', choice seq rand pos = (inl c, pos') /\ In c seq.
Proof.
  intros Hne. unfold choice. destruct seq as [|a seq']; [contradiction|].
  cbn [truthy negb].
  destruct (@randbelow_r_spec (N.of_nat (length (a :: seq'))) rand pos)
    as (r & p & E & Hr); [cbn [length]; lia|].
  rewrite (rbind_inl _ E).
  destruct (nth_error (a :: seq') (N.to_nat r)) as [c|] eqn:En.
  - exists c, p. split; [reflexivity|]. eapply nth_error_In; eassumption.
  - apply nth_error_None in En. lia.
Qed.

Lemma choices_spec {A} (n : nat) (seq : list A) rand pos :
  seq <> [] ->
  exists cs pos',
    choices n seq rand pos = (inl cs, pos')
    /\ length cs = n /\ Forall (fun c => In c seq) cs.
Proof.
  intros Hne. revert pos. induction n as [|n IH]; intros pos; cbn [choices].
  - exists [], pos. repeat split. constructor.
  - destruct (choice_spec rand pos Hne) as (c & p & E & Hc).
    rewrite (rbind_inl _ E).
    destruct (IH p) as (cs & p' & E' & Hlen & Hall).
    rewrite (rbind_inl _ E').
    exists (c :: cs), p'. repeat split; [cbn; lia | now constructor].
Qed.

Lemma shuffle_loop_spec {A} (i : nat) (x : list A) rand pos :
  (i < length x)%nat \/ i = 0%nat ->
  exists x' pos',
    shuffle_loop i x rand pos = (inl x', pos') /\ Permutation x' x.
Proof.
  revert x pos. induction i as [|i IH]; intros x pos Hi; cbn [shuffle_loop].
  - exists x, pos. split; reflexivity.
  - destruct Hi as [Hi|Hi]; [|discriminate].
    destruct (@randbelow_r_spec (N.of_nat (S (S i))) rand pos)
      as (j & p & E & Hj); [lia|].
    rewrite (rbind_inl _ E).
    destruct (@swap_in_range _ (S i) (N.to_nat j) x) as (x1 & Es); [lia|lia|].
    rewrite Es.
    pose proof (@swap_perm _ _ _ _ _ Es) as Hp.
    destruct (IH x1 p) as (x' & p' & E' & Hp').
    { left. rewrite (Permutation_length Hp). lia. }
    exists x', p'. split; [exact E'|]. now rewrite Hp'.
Qed.

(** [shuffle] returns a rearrangement of the list. *)
Lemma shuffle_spec {A} (x : list A) rand pos :
  exists x' pos', shuffle x rand pos = (inl x', pos') /\ Permutation x' x.
Proof.
  unfold shuffle. apply shuffle_loop_spec.
  destruct x; cbn [length]; [right; reflexivity | left; lia].
Qed.

End SecretsFacts.

Section GenerateFacts.
Context {Sec : Secrets} {SL : SecretsLaws Sec} {PC : PythonCase}.

(** One of the four [if use_...:] blocks of [generate], followed by the
    rest of the function. *)
Lemma class_step_run (use : bool) (cs chars required : pystr) rand pos :
  cs <> [] ->
  exists c pos',
    (use = true -> In c cs)
    /\ forall B (k : pystr * pystr -> R B),
         rbind (if use
                then rbind (choice cs)
                       (fun c => rret (chars ++ cs, required ++ [c]))
                else rret (chars, required)) k rand pos
         = k (chars ++ selected use cs, required ++ selected use [c]) rand pos'.
Proof.
  intros Hne. destruct use.
  - destruct (choice_spec rand pos Hne) as (c & p & E & Hc).
    exists c, p. split; [auto|]. intros B k.
    rewrite (rbind_inl k (rbind_inl _ E)). reflexivity.
  - exists 0, pos. split; [discriminate|]. intros B k.
    cbn [selected]. now rewrite !app_nil_r.
Qed.

Lemma class_chars_nonempty (e : bool) :
  class_chars e PyString.ascii_uppercase <> []
  /\ class_chars e PyString.ascii_lowercase <> []
  /\ class_chars e PyString.digits <> []
  /\ PyString.punctuation <> [].
Proof. destruct e; repeat split; discriminate. Qed.

Lemma alphabet_nonempty (u l d s e : bool) :
  u || l || d || s = true -> alphabet u l d s e <> [].
Proof. destruct u, l, d, s, e; try discriminate; intros _; discriminate. Qed.

(** [generate] up to the test of [chars]: the characters drawn for the
    selected classes, and the pool the others are drawn from. *)
Lemma generate_unfolded (length : Z) (u l d s e : bool) rand pos :
  exists cu cl cd cs pos',
    (u = true -> In cu (class_chars e PyString.ascii_uppercase))
    /\ (l = true -> In cl (class_chars e PyString.ascii_lowercase))
    /\ (d = true -> In cd (class_chars e PyString.digits))
    /\ (s = true -> In cs PyString.punctuation)
    /\ let chars := alphabet u l d s e in
       let required :=
         selected u [cu] ++ selected l [cl] ++ selected d [cd]
         ++ selected s [cs] in
       PasswordGenerator.generate length u l d s e rand pos
       = (if negb (truthy chars) then rraise GValueError
          else
            rbind
              (choices
                 (Z.to_nat
                    ((if (length <? Z.of_nat (List.length required))%Z
                      then Z.of_nat (List.length required) else length)
                     - Z.of_nat (List.length required)))
                 chars)
              (fun more => shuffle (required ++ more))) rand pos'.
Proof.
  destruct (class_chars_nonempty e) as (Nu & Nl & Nd & Ns).
  unfold class_chars in Nu, Nl, Nd.
  unfold PasswordGenerator.generate, alphabet, class_chars.
  unfold PasswordGenerator.uppercase, PasswordGenerator.lowercase,
    PasswordGenerator.digits, PasswordGenerator.symbols.
  cbv zeta.
  set (U := if e then without_ambiguous PyString.ascii_uppercase
            else PyString.ascii_uppercase) in *.
  set (L := if e then without_ambiguous PyString.ascii_lowercase
            else PyString.ascii_lowercase) in *.
  set (D := if e then without_ambiguous PyString.digits
            else PyString.digits) in *.
  destruct (@class_step_run u U [] [] rand pos Nu) as (cu & p1 & Hu & E1).
  destruct (@class_step_run l L ([] ++ selected u U) ([] ++ selected u [cu])
              rand p1 Nl) as (cl & p2 & Hl & E2).
  destruct (@class_step_run d D (([] ++ selected u U) ++ selected l L)
              (([] ++ selected u [cu]) ++ selected l [cl])
              rand p2 Nd) as (cd & p3 & Hd & E3).
  destruct (@class_step_run s PyString.punctuation
              ((([] ++ selected u U) ++ selected l L) ++ selected d D)
              ((([] ++ selected u [cu]) ++ selected l [cl]) ++ selected d [cd])
              rand p3 Ns) as (cs & p4 & Hs & E4).
  exists cu, cl, cd, cs, p4. repeat (split; [assumption|]).
  rewrite E1. cbv beta iota. rewrite E2. cbv beta iota.
  rewrite E3. cbv beta iota. rewrite E4. cbv beta iota.
  cbn [app]. now rewrite <- !app_assoc.
Qed.

Lemma length_selected_picks (u l d s : bool) (cu cl cd cs : N) :
  List.length (selected u [cu] ++ selected l [cl] ++ selected d [cd]
               ++ selected s [cs]) = classes u l d s.
Proof. now destruct u, l, d, s. Qed.

(** What [generate] returns when a class is selected: a rearrangement of
    the characters drawn for the classes and of the others, which come
    from the pool. *)
Lemma generate_run (length : Z) (u l d s e : bool) rand pos :
  u || l || d || s = true ->
  exists cu cl cd cs more pw pos',
    PasswordGenerator.generate length u l d s e rand pos = (inl pw, pos')
    /\ Permutation pw
         (selected u [cu] ++ selected l [cl] ++ selected d [cd]
          ++ selected s [cs] ++ more)
    /\ (u = true -> In cu (class_chars e PyString.ascii_uppercase))
    /\ (l = true -> In cl (class_chars e PyString.ascii_lowercase))
    /\ (d = true -> In cd (class_chars e PyString.digits))
    /\ (s = true -> In cs PyString.punctuation)
    /\ Forall (fun c => In c (alphabet u l d s e)) more
    /\ List.length more = (Z.to_nat length - classes u l d s)%nat.
Proof.
  intros Hsome.
  destruct (generate_unfolded length u l d s e rand pos)
    as (cu & cl & cd & cs & p4 & Hu & Hl & Hd & Hs & E).
  cbv zeta in E. rewrite length_selected_picks in E.
  pose proof (alphabet_nonempty u l d s e Hsome) as Hne.
  destruct (alphabet u l d s e) as [|a0 al] eqn:Ea; [contradiction|].
  cbn [truthy negb] in E. rewrite <- Ea in *.
  destruct (choices_spec
              (Z.to_nat
                 ((if (length <? Z.of_nat (classes u l d s))%Z
                   then Z.of_nat (classes u l d s) else length)
                  - Z.of_nat (classes u l d s))) rand p4 Hne)
    as (more & p5 & Ec & Hlen & Hall).
  rewrite (rbind_inl _ Ec) in E.
  destruct (shuffle_spec
              ((selected u [cu] ++ selected l [cl] ++ selected d [cd]
                ++ selected s [cs]) ++ more) rand p5)
    as (pw & p6 & Es & Hp).
  rewrite Es in E.
  exists cu, cl, cd, cs, more, pw, p6.
  split; [exact E|]. split; [now rewrite Hp, <- !app_assoc|].
  repeat (split; [assumption|]).
  rewrite Hlen. destruct (Z.ltb_spec length (Z.of_nat (classes u l d s))); lia.
Qed.

End GenerateFacts.

Lemma demo_secrets_laws : SecretsLaws DemoSecrets.secrets.
Proof.
  constructor. intros n rand pos Hn. cbn. apply N.mod_lt. lia.
Qed.

Lemma alphabet_not_ambiguous (u l d s : bool) :
  Forall (fun c => is_ambiguous c = false) (alphabet u l d s true).
Proof.
  apply Forall_forall. intros c Hc.
  assert (E : forallb (fun c => negb (is_ambiguous c)) (alphabet u l d s true) = true)
    by (destruct u, l, d, s; reflexivity).
  rewrite forallb_forall in E. apply negb_true_iff. now apply E.
Qed.

Lemma class_chars_in_alphabet (u l d s e : bool) :
  (u = true -> incl (class_chars e PyString.ascii_uppercase) (alphabet u l d s e))
  /\ (l = true -> incl (class_chars e PyString.ascii_lowercase) (alphabet u l d s e))
  /\ (d = true -> incl (class_chars e PyString.digits) (alphabet u l d s e))
  /\ (s = true -> incl PyString.punctuation (alphabet u l d s e)).
Proof.
  unfold alphabet.
  repeat split; intros -> c Hc; cbn [selected]; rewrite !in_app_iff; tauto.
Qed.

(** X1.  [generate] raises [ValueError] before drawing anything when no
    character class is selected.  Otherwise it returns a password, and the
    password has the requested length, or one character per selected class
    when that is more. *)
Theorem generate_length_or_value_error
    {Sec : Secrets} {SL : SecretsLaws Sec}
    (length : Z) (u l d s e : bool) (rand : nat -> byte) (pos : nat) :
  if u || l || d || s then
    exists pw pos',
      PasswordGenerator.generate length u l d s e rand pos = (inl pw, pos')
      /\ List.length pw = Nat.max (Z.to_nat length) (classes u l d s)
  else
    PasswordGenerator.generate length u l d s e rand pos = (inr GValueError, pos).
Proof.
  destruct (u || l || d || s) eqn:Hsome.
  - destruct (generate_run length u l d s e rand pos Hsome)
      as (cu & cl & cd & cs & more & pw & pos' & E & Hp & _ & _ & _ & _ & _ & Hlen).
    exists pw, pos'. split; [exact E|].
    rewrite (Permutation_length Hp), !length_app, Hlen.
    assert (Hc : (1 <= classes u l d s)%nat)
      by (destruct u, l, d, s; cbn; try lia; discriminate).
    destruct u, l, d, s;
      cbn [selected Datatypes.length classes Nat.b2n Nat.add] in *; lia.
  - destruct u, l, d, s; try discriminate. reflexivity.
Qed.

Lemma generate_length_or_value_error_witness :
  exists pw pos',
    PasswordGenerator.generate (Sec := DemoSecrets.secrets)
      10 true false true false true
      (fun i => byte_of_N (N.of_nat i * 7 + 3)) 0%nat
    = (inl pw, pos')
    /\ List.length pw = 10%nat.
Proof.
  exact (@generate_length_or_value_error DemoSecrets.secrets demo_secrets_laws
           10 true false true false true
           (fun i => byte_of_N (N.of_nat i * 7 + 3)) 0%nat).
Defined.

(** X2.  A password [generate] returns holds a character of every
    selected class, and only characters of the selected classes; with
    [exclude_ambiguous] none of [il1Lo0O] occurs in it. *)
Theorem generate_covers_selected_classes
    {Sec : Secrets} {SL : SecretsLaws Sec}
    (length : Z) (u l d s e : bool) (rand : nat -> byte) (pos : nat) :
  u || l || d || s = true ->
  exists pw pos',
    PasswordGenerator.generate length u l d s e rand pos = (inl pw, pos')
    /\ Forall (fun c => In c (alphabet u l d s e)) pw
    /\ (u = true ->
        exists c, In c pw /\ In c (class_chars e PyString.ascii_uppercase))
    /\ (l = true ->
        exists c, In c pw /\ In c (class_chars e PyString.ascii_lowercase))
    /\ (d = true -> exists c, In c pw /\ In c (class_chars e PyString.digits))
    /\ (s = true -> exists c, In c pw /\ In c PyString.punctuation)
    /\ (e = true -> Forall (fun c => is_ambiguous c = false) pw).
Proof.
  intros Hsome.
  destruct (generate_run length u l d s e rand pos Hsome)
    as (cu & cl & cd & cs & more & pw & pos' & E & Hp & Hu & Hl & Hd & Hs
        & Hmore & _).
  destruct (class_chars_in_alphabet u l d s e) as (Iu & Il & Id & Is).
  assert (Hall : Forall (fun c => In c (alphabet u l d s e)) pw).
  { apply Forall_forall. intros c Hc.
    apply (Permutation_in _ Hp) in Hc. rewrite !in_app_iff in Hc.
    rewrite Forall_forall in Hmore.
    destruct Hc as [Hc|[Hc|[Hc|[Hc|Hc]]]]; [| | | |now apply Hmore].
    - destruct u; [|contradiction]. destruct Hc as [<-|[]]. now apply Iu, Hu.
    - destruct l; [|contradiction]. destruct Hc as [<-|[]]. now apply Il, Hl.
    - destruct d; [|contradiction]. destruct Hc as [<-|[]]. now apply Id, Hd.
    - destruct s; [|contradiction]. destruct Hc as [<-|[]]. now apply Is, Hs. }
  exists pw, pos'. split; [exact E|]. split; [exact Hall|].
  assert (Hin : forall c, In c (selected u [cu] ++ selected l [cl]
                                ++ selected d [cd] ++ selected s [cs] ++ more)
                          -> In c pw).
  { intros c Hc. now apply (Permutation_in _ (Permutation_sym Hp)). }
  repeat split.
  - intros ->. exists cu. split; [|now apply Hu].
    apply Hin. cbn [selected]. rewrite !in_app_iff. left. now left.
  - intros ->. exists cl. split; [|now apply Hl].
    apply Hin. cbn [selected]. rewrite !in_app_iff. right. left. now left.
  - intros ->. exists cd. split; [|now apply Hd].
    apply Hin. cbn [selected]. rewrite !in_app_iff. right. right. left. now left.
  - intros ->. exists cs. split; [|now apply Hs].
    apply Hin. cbn [selected]. rewrite !in_app_iff. do 3 right. left. now left.
  - intros ->. pose proof (alphabet_not_ambiguous u l d s) as Ha.
    rewrite Forall_forall in *. intros c Hc. apply Ha, Hall, Hc.
Qed.

Lemma generate_covers_selected_classes_witness :
  exists pw pos',
    PasswordGenerator.generate (Sec := DemoSecrets.secrets)
      16 true true true true true
      (fun i => byte_of_N (N.of_nat i * 7 + 3)) 0%nat
    = (inl pw, pos')
    /\ Forall (fun c => is_ambiguous c = false) pw.
Proof.
  destruct (@generate_covers_selected_classes DemoSecrets.secrets
              demo_secrets_laws 16 true true true true
              true (fun i => byte_of_N (N.of_nat i * 7 + 3)) 0%nat eq_refl)
    as (pw & pos' & E & _ & _ & _ & _ & _ & Ha).
  exists pw, pos'. split; [exact E | exact (Ha eq_refl)].
Defined.

Lemma existsb_perm {A} (f : A -> bool) {l l' : list A} :
  Permutation l l' -> existsb f l = true -> existsb f l' = true.
Proof.
  intros Hp. rewrite !existsb_exists. intros (x & Hx & Hf).
  exists x. split; [now apply (Permutation_in _ Hp) | exact Hf].
Qed.

Lemma existsb_in {A} (f : A -> bool) {l : list A} (x : A) :
  In x l -> f x = true -> existsb f l = true.
Proof. intros Hx Hf. apply existsb_exists. now exists x. Qed.

Lemma without_ambiguous_in (s : pystr) (c : N) :
  In c (without_ambiguous s) -> In c s /\ is_ambiguous c = false.
Proof.
  unfold without_ambiguous. rewrite filter_In, negb_true_iff. tauto.
Qed.

Section ClassFacts.
Context {P : Python}.

Lemma uppercase_isupper (e : bool) (c : N) :
  In c (class_chars e PyString.ascii_uppercase) -> isupper c = true.
Proof.
  intros Hc.
  assert (E : forallb isupper (class_chars e PyString.ascii_uppercase) = true)
    by (destruct e; reflexivity).
  rewrite forallb_forall in E. now apply E.
Qed.

Lemma lowercase_islower (e : bool) (c : N) :
  In c (class_chars e PyString.ascii_lowercase) -> islower c = true.
Proof.
  intros Hc.
  assert (E : forallb islower (class_chars e PyString.ascii_lowercase) = true)
    by (destruct e; reflexivity).
  rewrite forallb_forall in E. now apply E.
Qed.

Lemma digits_isdigit (e : bool) (c : N) :
  In c (class_chars e PyString.digits) -> isdigit c = true.
Proof.
  intros Hc.
  assert (E : forallb isdigit (class_chars e PyString.digits) = true)
    by (destruct e; reflexivity).
  rewrite forallb_forall in E. now apply E.
Qed.

Lemma punctuation_ispunct (c : N) :
  In c PyString.punctuation -> ispunct c = true /\ is_ambiguous c = false.
Proof.
  intros Hc.
  assert (E : forallb (fun c => ispunct c && negb (is_ambiguous c))
                PyString.punctuation = true) by reflexivity.
  rewrite forallb_forall in E. specialize (E c Hc).
  apply andb_true_iff in E. destruct E as [E1 E2].
  split; [exact E1 | now apply negb_true_iff].
Qed.

End ClassFacts.

Section V2GeneratorFacts.
Context {Sec : Secrets} {SL : SecretsLaws Sec}.

Lemma generate_password_run (length : Z) rand pos :
  exists c1 c2 c3 c4 more pw pos',
    V2Generator.generate_password length rand pos = (inl pw, pos')
    /\ Permutation pw ([c1; c2; c3; c4] ++ more)
    /\ In c1 PyString.ascii_uppercase /\ In c2 PyString.ascii_lowercase
    /\ In c3 PyString.digits /\ In c4 PyString.punctuation
    /\ Forall (fun c => is_ambiguous c = false) more
    /\ List.length more = Z.to_nat (length - 4).
Proof.
  destruct (@choice_spec Sec SL N PyString.ascii_uppercase rand pos
              ltac:(discriminate)) as (c1 & p1 & E1 & H1).
  destruct (@choice_spec Sec SL N PyString.ascii_lowercase rand p1
              ltac:(discriminate)) as (c2 & p2 & E2 & H2).
  destruct (@choice_spec Sec SL N PyString.digits rand p2
              ltac:(discriminate)) as (c3 & p3 & E3 & H3).
  destruct (@choice_spec Sec SL N PyString.punctuation rand p3
              ltac:(discriminate)) as (c4 & p4 & E4 & H4).
  destruct (@choices_spec Sec SL N (Z.to_nat (length - 4))
              (without_ambiguous
                 (PyString.ascii_letters ++ PyString.digits
                  ++ PyString.punctuation)) rand p4 ltac:(discriminate))
    as (more & p5 & E5 & Hlen & Hall).
  destruct (@shuffle_spec Sec SL N ([c1; c2; c3; c4] ++ more) rand p5)
    as (pw & p6 & E6 & Hp).
  exists c1, c2, c3, c4, more, pw, p6.
  split.
  - unfold V2Generator.generate_password. cbv zeta.
    rewrite (rbind_inl _ E1), (rbind_inl _ E2), (rbind_inl _ E3),
      (rbind_inl _ E4), (rbind_inl _ E5). exact E6.
  - repeat (split; [assumption|]). split; [|exact Hlen].
    rewrite Forall_forall in *. intros c Hc.
    exact (proj2 (without_ambiguous_in _ _ (Hall c Hc))).
Qed.

End V2GeneratorFacts.

(** X3.  v2.0's [generate_password] returns a password of the requested
    length, or of four characters when fewer are asked for, holding an
    upper-case letter, a lower-case letter, a digit and a punctuation
    character.  The four characters drawn first come from the unfiltered
    classes, so up to three of [il1Lo0O] can occur in it. *)
Theorem V2_generate_password_shape
    {Sec : Secrets} {SL : SecretsLaws Sec} {P : Python}
    (length : Z) (rand : nat -> byte) (pos : nat) :
  exists pw pos',
    V2Generator.generate_password length rand pos = (inl pw, pos')
    /\ List.length pw = Nat.max (Z.to_nat length) 4
    /\ existsb isupper pw = true /\ existsb islower pw = true
    /\ existsb isdigit pw = true /\ existsb ispunct pw = true
    /\ (List.length (filter is_ambiguous pw) <= 3)%nat.
Proof.
  destruct (generate_password_run length rand pos)
    as (c1 & c2 & c3 & c4 & more & pw & pos' & E & Hp & H1 & H2 & H3 & H4
        & Hmore & Hlen).
  exists pw, pos'. split; [exact E|].
  destruct (@punctuation_ispunct c4 H4) as [Hpunct Hamb4].
  pose proof (Permutation_sym Hp) as Hp'.
  split; [|split; [|split; [|split; [|split]]]].
  - rewrite (Permutation_length Hp), length_app, Hlen. cbn [Datatypes.length]. lia.
  - apply (existsb_perm _ Hp'), (existsb_in _ c1); [now left|].
    now apply (uppercase_isupper false).
  - apply (existsb_perm _ Hp'), (existsb_in _ c2); [right; now left|].
    now apply (lowercase_islower false).
  - apply (existsb_perm _ Hp'), (existsb_in _ c3); [do 2 right; now left|].
    now apply (digits_isdigit false).
  - apply (existsb_perm _ Hp'), (existsb_in _ c4); [do 3 right; now left|].
    exact Hpunct.
  - rewrite (Permutation_length (filter_perm is_ambiguous Hp)), filter_app.
    rewrite (filter_none is_ambiguous more)
      by (rewrite Forall_forall in Hmore; exact Hmore).
    rewrite app_nil_r. cbn [filter]. rewrite Hamb4.
    destruct (is_ambiguous c1), (is_ambiguous c2), (is_ambiguous c3);
      cbn [Datatypes.length]; lia.
Qed.

Lemma V2_generate_password_shape_witness :
  exists pw pos',
    V2Generator.generate_password (Sec := DemoSecrets.secrets) 2
      (fun _ => x0e) 0%nat = (inl pw, pos')
    /\ List.length pw = 4%nat.
Proof.
  destruct (@V2_generate_password_shape DemoSecrets.secrets demo_secrets_laws
              Demo.python 2 (fun _ => x0e) 0%nat)
    as (pw & pos' & E & Hlen & _).
  exists pw, pos'. split; [exact E | exact Hlen].
Defined.

(** The bound is reached up to the letters: on a source of bytes 14 the
    password holds [O] and [o]. *)
Example V2_generate_password_ambiguous :
  exists pw pos',
    V2Generator.generate_password (Sec := DemoSecrets.secrets) 8
      (fun _ => x0e) 0%nat = (inl pw, pos')
    /\ In 79 pw /\ In 111 pw.
Proof.
  eexists _, _. split; [vm_compute; reflexivity|].
  split; cbn; tauto.
Qed.

(** ** Memorable passphrases *)

Lemma length_join (sep : pystr) (ws : list pystr) :
  length (join sep ws)
  = (list_sum (map (@length N) ws) + length sep * (length ws - 1))%nat.
Proof.
  induction ws as [|w ws IH]; [cbn; lia|].
  destruct ws as [|w' ws'].
  - cbn. lia.
  - change (join sep (w :: w' :: ws')) with (w ++ sep ++ join sep (w' :: ws')).
    rewrite !length_app, IH. unfold list_sum. cbn [map fold_right length].
    replace (S (S (length ws')) - 1)%nat with (S (S (length ws') - 1))%nat by lia.
    rewrite Nat.mul_succ_r. lia.
Qed.

Lemma in_join_word (sep : pystr) (ws : list pystr) (w : pystr) (c : N) :
  In w ws -> In c w -> In c (join sep ws).
Proof.
  induction ws as [|w0 ws IH]; [intros []|].
  intros Hw Hc. destruct ws as [|w' ws'].
  - destruct Hw as [->|[]]. exact Hc.
  - change (join sep (w0 :: w' :: ws')) with (w0 ++ sep ++ join sep (w' :: ws')).
    rewrite !in_app_iff. destruct Hw as [->|Hw]; [now left|].
    right. right. now apply IH.
Qed.

Lemma in_join_separator (sep : pystr) (ws : list pystr) (c : N) :
  (2 <= length ws)%nat -> In c sep -> In c (join sep ws).
Proof.
  destruct ws as [|w0 [|w' ws']]; cbn [length]; try lia.
  intros _ Hc.
  change (join sep (w0 :: w' :: ws')) with (w0 ++ sep ++ join sep (w' :: ws')).
  rewrite !in_app_iff. right. now left.
Qed.

Section MemorableFacts.
Context {Sec : Secrets} {SL : SecretsLaws Sec} {PC : PythonCase} {P : Python}.

(** Every word of the list, capitalized, starts with an upper-case letter
    followed by at least three lower-case ones. *)
Lemma capitalized_word (w : pystr) :
  In w PasswordGenerator.word_list ->
  exists c r,
    capitalize w = c :: r /\ isupper c = true /\ existsb islower r = true
    /\ (3 <= length r)%nat.
Proof.
  intros Hw.
  assert (E : forallb
                (fun w => match capitalize w with
                          | c :: r => isupper c && existsb islower r
                                      && (3 <=? length r)%nat
                          | [] => false
                          end) PasswordGenerator.word_list = true)
    by reflexivity.
  rewrite forallb_forall in E. specialize (E w Hw).
  destruct (capitalize w) as [|c r]; [discriminate|].
  apply andb_true_iff in E. destruct E as [E E3].
  apply andb_true_iff in E. destruct E as [E1 E2].
  exists c, r. repeat split; try assumption. now apply Nat.leb_le.
Qed.

(** [str(n)] of a number below 100 is one or two digits. *)
Lemma str_of_N_digits (n : N) :
  n < 100 -> existsb isdigit (str_of_N n) = true /\ (1 <= length (str_of_N n))%nat.
Proof.
  intros Hn.
  pose proof (@forall_below
                (fun n => existsb isdigit (str_of_N n)
                          && (1 <=? length (str_of_N n))%nat) 100 eq_refl n Hn) as E.
  cbv beta in E. apply andb_true_iff in E. destruct E as [E1 E2].
  split; [exact E1 | now apply Nat.leb_le].
Qed.

Lemma capitalized_lengths (ws : list pystr) :
  Forall (fun w => In w PasswordGenerator.word_list) ws ->
  (4 * length ws <= list_sum (map (@length N) (map capitalize ws)))%nat.
Proof.
  induction 1 as [|w ws Hw _ IH]; [cbn; lia|].
  destruct (capitalized_word Hw) as (c & r & E & _ & _ & Hr).
  unfold list_sum in *. cbn [map fold_right length]. rewrite E. cbn [length]. lia.
Qed.

(** [generate_memorable] as [add] and [update] call it. *)
Lemma generate_memorable_run (words : Z) rand pos :
  exists ws n pos',
    PasswordGenerator.generate_memorable words (str_lit "-") true true rand pos
    = (inl (join (str_lit "-") (map capitalize ws) ++ str_of_N n), pos')
    /\ length ws = Z.to_nat words
    /\ Forall (fun w => In w PasswordGenerator.word_list) ws
    /\ n < 100.
Proof.
  destruct (@choices_spec Sec SL pystr (Z.to_nat words)
              PasswordGenerator.word_list rand pos ltac:(discriminate))
    as (ws & p1 & E1 & Hlen & Hall).
  destruct (@randbelow_r_spec Sec SL 100 rand p1 ltac:(lia))
    as (n & p2 & E2 & Hn).
  exists ws, n, p2. split; [|now repeat split].
  unfold PasswordGenerator.generate_memorable.
  rewrite (rbind_inl _ E1). cbv zeta. rewrite (rbind_inl _ E2). reflexivity.
Qed.

(** The score of a passphrase of three words or more. *)
Lemma memorable_score (ws : list pystr) (n : N) :
  Forall (fun w => In w PasswordGenerator.word_list) ws ->
  n < 100 -> (3 <= length ws)%nat ->
  fst (V25.check_strength
         (join (str_lit "-") (map capitalize ws) ++ str_of_N n)) = 5%Z.
Proof.
  intros Hall Hn Hlen.
  destruct (str_of_N_digits Hn) as [Hdigit Hd1].
  destruct ws as [|w ws']; [cbn [length] in Hlen; lia|].
  pose proof (Forall_inv Hall) as Hw0.
  destruct (capitalized_word Hw0) as (c & r & Ec & Hup & Hlow & _).
  set (pw := join (str_lit "-") (map capitalize (w :: ws')) ++ str_of_N n).
  assert (Hin : forall x, In x (capitalize w) -> In x pw).
  { intros x Hx. unfold pw. rewrite in_app_iff. left.
    apply (in_join_word _ (map capitalize (w :: ws')) (capitalize w));
      [now left | exact Hx]. }
  assert (Hu : existsb isupper pw = true).
  { apply (existsb_in _ c); [|exact Hup]. apply Hin. rewrite Ec. now left. }
  assert (Hl : existsb islower pw = true).
  { apply existsb_exists in Hlow. destruct Hlow as (x & Hx & Hlx).
    apply (existsb_in _ x); [|exact Hlx]. apply Hin. rewrite Ec. now right. }
  assert (Hd : existsb isdigit pw = true).
  { apply existsb_exists in Hdigit. destruct Hdigit as (x & Hx & Hdx).
    apply (existsb_in _ x); [|exact Hdx]. unfold pw. rewrite in_app_iff.
    now right. }
  assert (Hp : existsb ispunct pw = true).
  { apply (existsb_in _ 45); [|reflexivity]. unfold pw. rewrite in_app_iff. left.
    apply in_join_separator; [|now left].
    rewrite length_map. lia. }
  assert (Hlong : (12 <= length pw)%nat).
  { unfold pw. rewrite length_app, length_join, length_map.
    pose proof (capitalized_lengths Hall) as Hs.
    cbn [length str_lit map list_ascii_of_string] in *. nia. }
  unfold V25.check_strength. cbn [fst]. fold pw.
  rewrite Hu, Hl, Hd, Hp.
  replace (8 <=? length pw)%nat with true by (symmetry; apply Nat.leb_le; lia).
  replace (12 <=? length pw)%nat with true by (symmetry; apply Nat.leb_le; lia).
  destruct (16 <=? length pw)%nat; reflexivity.
Qed.

End MemorableFacts.

(** X4.  A passphrase of [generate_memorable], called as [add] and
    [update] call it, is the chosen words of the list, capitalized and
    joined by [-], followed by a number below 100.  With three words or
    more, [check_strength] gives it the highest score. *)
Theorem generate_memorable_shape
    {Sec : Secrets} {SL : SecretsLaws Sec} {PC : PythonCase} {P : Python}
    (words : Z) (rand : nat -> byte) (pos : nat) :
  exists ws n pos',
    let passphrase := join (str_lit "-") (map capitalize ws) ++ str_of_N n in
    PasswordGenerator.generate_memorable words (str_lit "-") true true rand pos
    = (inl passphrase, pos')
    /\ length ws = Z.to_nat words
    /\ Forall (fun w => In w PasswordGenerator.word_list) ws
    /\ n < 100
    /\ ((3 <= words)%Z -> fst (V25.check_strength passphrase) = 5%Z).
Proof.
  destruct (@generate_memorable_run Sec SL PC words rand pos)
    as (ws & n & pos' & E & Hlen & Hall & Hn).
  exists ws, n, pos'. cbv zeta.
  split; [exact E|]. repeat (split; [assumption|]).
  intros Hw. apply memorable_score; try assumption. lia.
Qed.

Lemma generate_memorable_shape_witness :
  exists ws n pos',
    PasswordGenerator.generate_memorable (Sec := DemoSecrets.secrets)
      (PC := DemoSecrets.python_case) 4 (str_lit "-") true true
      (fun i => byte_of_N (N.of_nat i * 7 + 3)) 0%nat
    = (inl (join (str_lit "-") (map (capitalize (PC := DemoSecrets.python_case)) ws)
            ++ str_of_N n), pos')
    /\ fst (V25.check_strength (P := Demo.python)
              (join (str_lit "-") (map (capitalize (PC := DemoSecrets.python_case)) ws)
               ++ str_of_N n)) = 5%Z.
Proof.
  destruct (@generate_memorable_shape DemoSecrets.secrets demo_secrets_laws
              DemoSecrets.python_case Demo.python 4
              (fun i => byte_of_N (N.of_nat i * 7 + 3)) 0%nat)
    as (ws & n & pos' & E & _ & _ & _ & Hs).
  exists ws, n, pos'. split; [exact E | apply Hs; lia].
Defined.

(** ** The generators inside [add] and [update] *)

Section CalledFacts.
Context {P : Python} {Sec : Secrets} {SL : SecretsLaws Sec} {PC : PythonCase}.

(** [try: n = int(input() or default); n = max(lo, min(hi, n))
    except: n = default]: whatever is typed, and also at the end of the
    input, the size is between [lo] and [hi]. *)
Lemma typed_size_clamped (default lo hi : Z) (w : world) :
  (lo <= default <= hi)%Z ->
  exists n w1,
    try_except
      (s <- input ;;
       n <- lift_option ValueError (int_or s default) ;;
       ret (Z.max lo (Z.min hi n)))
      (fun _ => ret default) w = (inl n, w1)
    /\ (lo <= n <= hi)%Z
    /\ w_rand w1 = w_rand w /\ w_rpos w1 = w_rpos w /\ w_out w1 = w_out w
    /\ w_clipboard w1 = w_clipboard w.
Proof.
  intros Hd. unfold try_except, bind, input.
  destruct (w_stdin w) as [|s rest] eqn:Hin.
  - exists default, w. now repeat split.
  - destruct (int_or s default) as [n|]; cbn [lift_option ret raise].
    + eexists _, _. split; [reflexivity|]. split; [lia|]. now repeat split.
    + eexists _, _. split; [reflexivity|]. now repeat split.
Qed.

(** What [add] does with a generated password: it shows it, rates it and
    copies it when the clipboard is there. *)
Lemma show_generated_run (pw : pystr) (msg : string) (w : world) :
  exists shown w',
    (emit (ShowGenerated pw) ;;
     V25.display_strength pw ;;
     clipboard_copy pw msg ;;
     ret (Some pw))%monad w = (inl (Some pw), w')
    /\ w_out w'
       = w_out w ++ ShowGenerated pw
                    :: ShowStrength (fst (V25.check_strength pw)) :: shown.
Proof.
  unfold emit, V25.display_strength, clipboard_copy, print_success, emit, bind,
    modify, get_world, ret.
  cbn [w_clipboard set_out].
  destruct (w_clipboard w); eexists _, _; (split; [reflexivity|]);
    cbn [w_out set_out set_clipboard]; rewrite <- ?app_assoc; reflexivity.
Qed.

Lemma run_generate_called (n : Z) (w : world) :
  exists pw pos',
    run_generator (generate (Generators := called_generators) n) w
    = (inl pw, set_rpos pos' w)
    /\ PasswordGenerator.generate n true true true true true
         (w_rand w) (w_rpos w) = (inl pw, pos').
Proof.
  destruct (@generate_run Sec SL n true true true true true (w_rand w) (w_rpos w)
              eq_refl)
    as (cu & cl & cd & cs & more & pw & pos' & E & _).
  exists pw, pos'. split; [|exact E].
  unfold run_generator. cbn [generate called_generators]. now rewrite E.
Qed.

Lemma run_generate_memorable_called (n : Z) (w : world) :
  exists pw pos',
    run_generator (generate_memorable (Generators := called_generators) n) w
    = (inl pw, set_rpos pos' w)
    /\ PasswordGenerator.generate_memorable n (str_lit "-") true true
         (w_rand w) (w_rpos w) = (inl pw, pos').
Proof.
  destruct (@generate_memorable_run Sec SL PC n (w_rand w) (w_rpos w))
    as (ws & k & pos' & E & _).
  eexists _, pos'. split; [|exact E].
  unfold run_generator. cbn [generate_memorable called_generators]. now rewrite E.
Qed.

(** A password with all four classes and eight characters has the
    highest score. *)
Lemma four_classes_score (pw : pystr) :
  existsb isupper pw = true -> existsb islower pw = true ->
  existsb isdigit pw = true -> existsb ispunct pw = true ->
  (8 <= length pw)%nat -> fst (V25.check_strength pw) = 5%Z.
Proof.
  intros Hu Hl Hd Hp Hlen. unfold V25.check_strength. cbn [fst].
  rewrite Hu, Hl, Hd, Hp.
  replace (8 <=? length pw)%nat with true by (symmetry; apply Nat.leb_le; lia).
  destruct (12 <=? length pw)%nat, (16 <=? length pw)%nat; reflexivity.
Qed.

(** A password [generate] returns with its default options. *)
Lemma generate_default_facts (n : Z) rand pos pw pos' :
  PasswordGenerator.generate n true true true true true rand pos = (inl pw, pos') ->
  length pw = Nat.max (Z.to_nat n) 4
  /\ existsb isupper pw = true /\ existsb islower pw = true
  /\ existsb isdigit pw = true /\ existsb ispunct pw = true
  /\ Forall (fun c => is_ambiguous c = false) pw.
Proof.
  intros E.
  destruct (@generate_run Sec SL n true true true true true rand pos eq_refl)
    as (cu & cl & cd & cs & more & pw1 & p1 & E1 & Hp & Hu & Hl & Hd & Hs
        & Hmore & Hlen).
  rewrite E in E1. injection E1 as <- <-.
  specialize (Hu eq_refl). specialize (Hl eq_refl).
  specialize (Hd eq_refl). specialize (Hs eq_refl).
  cbn [selected app] in Hp. pose proof (Permutation_sym Hp) as Hp'.
  split; [|split; [|split; [|split; [|split]]]].
  - rewrite (Permutation_length Hp). cbn [length]. rewrite Hlen.
    cbn [classes Nat.b2n Nat.add]. lia.
  - apply (existsb_perm _ Hp'), (existsb_in _ cu); [now left|].
    exact (@uppercase_isupper P true cu Hu).
  - apply (existsb_perm _ Hp'), (existsb_in _ cl); [right; now left|].
    exact (@lowercase_islower P true cl Hl).
  - apply (existsb_perm _ Hp'), (existsb_in _ cd); [do 2 right; now left|].
    exact (@digits_isdigit P true cd Hd).
  - apply (existsb_perm _ Hp'), (existsb_in _ cs); [do 3 right; now left|].
    exact (proj1 (@punctuation_ispunct cs Hs)).
  - pose proof (alphabet_not_ambiguous true true true true) as Ha.
    destruct (class_chars_in_alphabet true true true true true)
      as (Iu & Il & Id & Is).
    rewrite Forall_forall in *. intros c Hc.
    apply (Permutation_in _ Hp) in Hc. apply Ha.
    destruct Hc as [<-|[<-|[<-|[<-|Hc]]]].
    + now apply Iu. + now apply Il. + now apply Id. + now apply Is.
    + now apply Hmore.
Qed.

End CalledFacts.

(** X5.  Whatever is typed at the size prompt of [add], also nothing and
    also text that is no number, the password generated under option 1
    has between 12 and 64 characters, none of them ambiguous, and the
    passphrase generated under option 2 is made of three to eight words
    of the list, capitalized and joined by [-], and a number below 100;
    both are shown with the highest strength score. *)
Theorem V25_add_generated_is_very_strong
    {P : Python} {Sec : Secrets} {SL : SecretsLaws Sec} {PC : PythonCase}
    (w : world) :
  (exists pw w' shown,
      V25.add_password (G := called_generators) (str_lit "1") w
      = (inl (Some pw), w')
      /\ (12 <= length pw <= 64)%nat
      /\ Forall (fun c => is_ambiguous c = false) pw
      /\ fst (V25.check_strength pw) = 5%Z
      /\ w_out w' = w_out w ++ ShowGenerated pw :: ShowStrength 5 :: shown)
  /\ (exists pw w' shown ws n,
        V25.add_password (G := called_generators) (str_lit "2") w
        = (inl (Some pw), w')
        /\ pw = join (str_lit "-") (map capitalize ws) ++ str_of_N n
        /\ (3 <= length ws <= 8)%nat
        /\ Forall (fun word => In word PasswordGenerator.word_list) ws
        /\ n < 100
        /\ fst (V25.check_strength pw) = 5%Z
        /\ w_out w' = w_out w ++ ShowGenerated pw :: ShowStrength 5 :: shown).
Proof.
  split.
  - destruct (@typed_size_clamped P 16 12 64 w ltac:(lia))
      as (n & w1 & E1 & Hn & _ & _ & Ho & _).
    destruct (run_generate_called n w1) as (pw & pos' & E2 & Eg).
    destruct (show_generated_run pw "Copied to clipboard!" (set_rpos pos' w1))
      as (shown & w' & E3 & Hout).
    destruct (@generate_default_facts P Sec SL _ _ _ _ _ Eg) as (Hlen & Hu & Hl & Hd & Hp & Ha).
    assert (Hs : fst (V25.check_strength pw) = 5%Z)
      by (apply four_classes_score; try assumption; lia).
    exists pw, w', shown. split; [|split; [lia|split; [exact Ha|split; [exact Hs|]]]].
    + unfold V25.add_password.
      change (pystr_eqb (str_lit "1") (str_lit "1")) with true. cbv iota.
      rewrite (bind_inl E1), (bind_inl E2). exact E3.
    + rewrite Hout, Hs. cbn [w_out set_rpos]. now rewrite Ho.
  - destruct (@typed_size_clamped P 4 3 8 w ltac:(lia))
      as (n & w1 & E1 & Hn & _ & _ & Ho & _).
    destruct (run_generate_memorable_called n w1) as (pw & pos' & E2 & Eg).
    destruct (show_generated_run pw "Copied to clipboard!" (set_rpos pos' w1))
      as (shown & w' & E3 & Hout).
    destruct (@generate_memorable_run Sec SL PC n (w_rand w1) (w_rpos w1))
      as (ws & k & p & E & Hlen & Hall & Hk).
    rewrite Eg in E. injection E as Epw _.
    assert (Hs : fst (V25.check_strength pw) = 5%Z).
    { rewrite Epw. apply memorable_score; try assumption. lia. }
    exists pw, w', shown, ws, k.
    split; [|split; [exact Epw|split; [lia|split; [exact Hall|split;
      [exact Hk|split; [exact Hs|]]]]]].
    + unfold V25.add_password.
      change (pystr_eqb (str_lit "2") (str_lit "1")) with false.
      change (pystr_eqb (str_lit "2") (str_lit "2")) with true. cbv iota.
      rewrite (bind_inl E1), (bind_inl E2). exact E3.
    + rewrite Hout, Hs. cbn [w_out set_rpos]. now rewrite Ho.
Qed.

Section GeneratedAtDemo.
Local Existing Instances Demo.crypto Demo.python Demo.host.
Local Existing Instances DemoSecrets.secrets DemoSecrets.python_case.

(** The theorem on a vault where [3] is typed as the length: the
    password has 12 characters or more all the same. *)
Lemma V25_add_generated_is_very_strong_witness :
  exists pw w' shown,
    V25.add_password (G := called_generators) (str_lit "1")
      (Demo.world0 [str_lit "3"] 0)
    = (inl (Some pw), w')
    /\ (12 <= length pw <= 64)%nat
    /\ w_out w' = ShowGenerated pw :: ShowStrength 5 :: shown.
Proof.
  destruct (@V25_add_generated_is_very_strong Demo.python DemoSecrets.secrets
              demo_secrets_laws DemoSecrets.python_case
              (Demo.world0 [str_lit "3"] 0))
    as ((pw & w' & shown & E & Hlen & _ & _ & Hout) & _).
  exists pw, w', shown. split; [exact E|]. split; [exact Hlen | exact Hout].
Defined.

End GeneratedAtDemo.

(** X6.  [update] does not clamp the length typed for option 1: the
    generated password has as many characters as were asked for, and four
    when fewer were asked for. *)
Theorem V25_update_generated_length_as_typed
    {P : Python} {Sec : Secrets} {SL : SecretsLaws Sec} {PC : PythonCase}
    (w : world) (s : pystr) (rest : list pystr) (n : Z) :
  w_stdin w = s :: rest -> s <> [] -> int_of_str s = Some n ->
  exists pw w',
    V25.update_password (G := called_generators) (str_lit "1") w
    = (inl (Some pw), w')
    /\ length pw = Nat.max (Z.to_nat n) 4
    /\ w_stdin w' = rest
    /\ In (ShowGenerated pw) (w_out w').
Proof.
  intros Hin Hs Hint.
  assert (E1 : try_except
                 (s <- input ;; lift_option ValueError (int_or s 16))
                 (fun _ => ret 16%Z) w = (inl n, set_stdin rest w)).
  { unfold try_except, bind, input. rewrite Hin. unfold int_or.
    destruct s as [|c s']; [contradiction|]. cbn [truthy]. now rewrite Hint. }
  destruct (run_generate_called n (set_stdin rest w)) as (pw & pos' & E2 & Eg).
  destruct (@generate_default_facts P Sec SL _ _ _ _ _ Eg) as (Hlen & _).
  assert (E3 : exists w',
             (emit (ShowGenerated pw) ;;
              clipboard_copy pw "Copied!" ;;
              ret (Some pw))%monad (set_rpos pos' (set_stdin rest w))
             = (inl (Some pw), w')
             /\ w_stdin w' = rest /\ In (ShowGenerated pw) (w_out w')).
  { unfold emit, clipboard_copy, print_success, emit, bind, modify, get_world, ret.
    cbn [w_clipboard set_out set_rpos set_stdin].
    destruct (w_clipboard w); eexists; (split; [reflexivity|]);
      (split; [reflexivity|]); cbn [w_out set_out set_clipboard];
      rewrite ?in_app_iff; cbn [In]; tauto. }
  destruct E3 as (w' & E3 & Hrest & Hshown).
  exists pw, w'. split; [|now repeat split].
  unfold V25.update_password.
  change (pystr_eqb (str_lit "1") (str_lit "1")) with true. cbv iota.
  rewrite (bind_inl E1), (bind_inl E2). exact E3.
Qed.

Section UpdateGeneratedAtDemo.
Local Existing Instances Demo.crypto Demo.python Demo.host.
Local Existing Instances DemoSecrets.secrets DemoSecrets.python_case.

Lemma V25_update_generated_length_as_typed_witness :
  exists pw w',
    V25.update_password (G := called_generators) (str_lit "1")
      (Demo.world0 [str_lit "1"] 0)
    = (inl (Some pw), w')
    /\ length pw = 4%nat.
Proof.
  destruct (@V25_update_generated_length_as_typed Demo.python DemoSecrets.secrets
              demo_secrets_laws DemoSecrets.python_case
              (Demo.world0 [str_lit "1"] 0) (str_lit "1") [] 1%Z
              eq_refl ltac:(discriminate) eq_refl)
    as (pw & w' & E & Hlen & _).
  exists pw, w'. split; [exact E | exact Hlen].
Defined.

End UpdateGeneratedAtDemo.

(** ** [delete] *)

Lemma delete_rows_none {H : Host} (id_ : pystr) (rows : list row) :
  find (id_matches id_) (delete_rows id_ rows) = None.
Proof.
  unfold delete_rows. induction rows as [|r rows IH]; [reflexivity|].
  cbn [filter]. destruct (id_matches id_ r) eqn:E; cbn [negb]; [exact IH|].
  cbn [find]. now rewrite E.
Qed.

Lemma delete_rows_in {H : Host} (id_ : pystr) (rows : list row) (r : row) :
  In r (delete_rows id_ rows) <-> In r rows /\ id_matches id_ r = false.
Proof. unfold delete_rows. now rewrite filter_In, negb_true_iff. Qed.

Lemma V25_auto_backup_keeps {H : Host} (w : world) :
  let w' := snd (V25.auto_backup w) in
  w_key w' = w_key w /\ w_exports w' = w_exports w
  /\ w_clipboard w' = w_clipboard w /\ w_master w' = w_master w
  /\ w_db_mtime w' = w_db_mtime w.
Proof.
  unfold V25.auto_backup, bind, get_world.
  destruct (w_auto_backup w); repeat split.
Qed.

Section DeleteFacts.
Context {H : Host}.

(** The table [delete] leaves, for the lines that are typed. *)
Lemma V25_delete_rows (w : world) :
  eval Vault25.delete w = inl tt
  /\ w_rows (exec Vault25.delete w)
     = match w_stdin w with
       | id_ :: confirm :: _ =>
           match find (id_matches (strip id_)) (w_rows w) with
           | Some _ =>
               if pystr_eqb confirm (str_lit "DELETE")
               then delete_rows (strip id_) (w_rows w) else w_rows w
           | None => w_rows w
           end
       | _ => w_rows w
       end.
Proof.
  unfold eval, exec, Vault25.delete, try_except, print_error, print_warning,
    print_success.
  destruct (w_stdin w) as [|id_ stdin'] eqn:Hin.
  - rewrite (bind_input_eof _ w Hin). split; reflexivity.
  - rewrite (bind_input _ w Hin). msteps. cbn [w_rows set_stdin].
    destruct (find (id_matches (strip id_)) (w_rows w)) as [r|] eqn:Hfind.
    2:{ destruct stdin'; split; reflexivity. }
    destruct stdin' as [|confirm rest].
    { rewrite bind_input_eof by reflexivity. split; reflexivity. }
    erewrite bind_input by reflexivity.
    destruct (pystr_eqb confirm (str_lit "DELETE")); [|split; reflexivity].
    msteps.
    match goal with
    | |- context [V25.auto_backup ?w1] =>
        destruct (V25_auto_backup_frame w1) as (H1 & H2 & _);
        destruct (V25.auto_backup w1) as [res w2]
    end.
    cbn [fst snd] in *. subst res. cbn [fst snd]. rewrite H2.
    split; reflexivity.
Qed.

Lemma V2_delete_rows (w : world) :
  w_rows (exec Vault2.delete w)
  = match w_stdin w with
    | id_ :: confirm :: _ =>
        match find (id_matches (strip id_)) (w_rows w) with
        | Some _ =>
            if pystr_eqb confirm (str_lit "DELETE")
            then delete_rows (strip id_) (w_rows w) else w_rows w
        | None => w_rows w
        end
    | _ => w_rows w
    end.
Proof.
  unfold exec, Vault2.delete, print_error, print_success.
  destruct (w_stdin w) as [|id_ stdin'] eqn:Hin.
  - now rewrite (bind_input_eof _ w Hin).
  - rewrite (bind_input _ w Hin). msteps. cbn [w_rows set_stdin].
    destruct (find (id_matches (strip id_)) (w_rows w)) as [r|] eqn:Hfind.
    2:{ now destruct stdin'. }
    destruct stdin' as [|confirm rest].
    { now rewrite bind_input_eof by reflexivity. }
    erewrite bind_input by reflexivity.
    destruct (pystr_eqb confirm (str_lit "DELETE")); reflexivity.
Qed.

End DeleteFacts.

(** X7.  [delete] removes rows only when the typed id is in the table and
    the confirmation is exactly [DELETE]; then it removes the rows with
    that id and no other, so that a lookup of the id finds nothing.  In
    every other case, also at the end of the input, the table stays as it
    was; v2.5's [delete] never raises. *)
Theorem delete_only_the_confirmed_id {H : Host} (w : world) :
  let rows' :=
    match w_stdin w with
    | id_ :: confirm :: _ =>
        match find (id_matches (strip id_)) (w_rows w) with
        | Some _ =>
            if pystr_eqb confirm (str_lit "DELETE")
            then delete_rows (strip id_) (w_rows w) else w_rows w
        | None => w_rows w
        end
    | _ => w_rows w
    end in
  eval Vault25.delete w = inl tt
  /\ w_rows (exec Vault25.delete w) = rows'
  /\ w_rows (exec Vault2.delete w) = rows'
  /\ (forall id_ : pystr,
        find (id_matches id_) (delete_rows id_ (w_rows w)) = None)
  /\ (forall (id_ : pystr) (r : row),
        In r (delete_rows id_ (w_rows w))
        <-> In r (w_rows w) /\ id_matches id_ r = false).
Proof.
  cbv zeta. destruct (V25_delete_rows w) as [E1 E2].
  split; [exact E1|]. split; [exact E2|]. split; [apply V2_delete_rows|].
  split; [intros id_; apply delete_rows_none | intros id_ r; apply delete_rows_in].
Qed.

(** ** What is stored comes back *)

Lemma fernet_token_nonempty {C : Cryptography} (f : fernet) (b : bytes)
    (t : N) (iv : bytes) :
  fernet_encrypt_from_parts f b t iv <> [].
Proof.
  intros E. unfold fernet_encrypt_from_parts, fernet_basic_parts in E.
  apply (f_equal Base64.urlsafe_b64decode) in E.
  rewrite Base64Facts.urlsafe_b64decode_encode in E. discriminate.
Qed.

Lemma next_rowid_fresh (rows : list row) (r : row) :
  In r rows -> (r_id r < next_rowid rows)%Z.
Proof.
  unfold next_rowid. induction rows as [|r0 rows IH]; [intros []|].
  cbn [map fold_right]. intros [->|Hr]; [lia|]. specialize (IH Hr). lia.
Qed.

Lemma find_app_skip {A} (p : A -> bool) (l1 l2 : list A) :
  (forall x, In x l1 -> p x = false) -> find p (l1 ++ l2) = find p l2.
Proof.
  induction l1 as [|a l1 IH]; intros Hp; [reflexivity|].
  cbn [app find]. rewrite (Hp a) by now left.
  apply IH. intros x Hx. apply Hp. now right.
Qed.

Section AddTyped.
Context {C : Cryptography} {P : Python} {H : Host} {G : Generators}.

(** v2.5: [add] with a password typed under option 3. *)
Lemma V25_add_typed_password (w : world)
    (service username choice password url notes : pystr) (rest : list pystr)
    (k : bytes) (f : fernet) (b : bytes) :
  w_stdin w = service :: username :: choice :: password :: url :: notes :: rest ->
  strip service <> [] -> strip username <> [] ->
  pystr_eqb (strip choice) (str_lit "1") = false ->
  pystr_eqb (strip choice) (str_lit "2") = false ->
  password <> [] ->
  w_key w = Some k -> Fernet k = Some f -> str_encode password = Some b ->
  eval V25.add w = inl tt
  /\ w_rows (exec V25.add w)
     = w_rows w
       ++ [Row (next_rowid (w_rows w)) (strip service) (strip username)
             (fernet_encrypt_from_parts f b (read_time w) (drawn_iv w))
             (strip url) (strip notes)
             (w_clock w (S (w_tick w))) (w_clock w (S (w_tick w)))]
  /\ w_stdin (exec V25.add w) = rest
  /\ w_key (exec V25.add w) = w_key w
  /\ w_exports (exec V25.add w) = w_exports w
  /\ w_clipboard (exec V25.add w) = w_clipboard w
  /\ w_out (exec V25.add w)
     = (w_out w ++ [ShowStrength (fst (V25.check_strength password))])
       ++ [Print LSuccess "Password added!"].
Proof.
  intros Hin Hs Hu Hc1 Hc2 Hpw Hk Hf Hb.
  unfold eval, exec, V25.add, try_except, V25.add_password, V25.display_strength,
    print_success, getpass.
  rewrite (bind_input _ w Hin).
  destruct (strip service) as [|s0 s'] eqn:Es; [contradiction|]. cbn [truthy negb].
  erewrite bind_input by reflexivity.
  destruct (strip username) as [|u0 u'] eqn:Eu; [contradiction|]. cbn [truthy negb].
  erewrite bind_input by reflexivity.
  rewrite Hc1, Hc2. msteps.
  destruct password as [|p0 p'] eqn:Ep; [contradiction|]. cbn [truthy negb].
  msteps.
  erewrite (@bind_inl _ _ (V25.encrypt (p0 :: p')));
    [|apply V25_encrypt_spec with (k := k); [exact Hk | exact Hf | exact Hb]].
  destruct (fernet_encrypt_from_parts f b _ _) as [|t0 tok] eqn:Etok;
    [now apply fernet_token_nonempty in Etok|].
  cbn [truthy negb]. msteps.
  match goal with
  | |- context [V25.auto_backup ?w1] =>
      destruct (V25_auto_backup_frame w1) as (H1 & H2 & H3 & H4);
      destruct (V25_auto_backup_keeps w1) as (K1 & K2 & K3 & _);
      destruct (V25.auto_backup w1) as [res w2]
  end.
  cbn [fst snd] in *. subst res. cbn [fst snd].
  rewrite H2, H3, H4, K1, K2, K3. repeat split.
Qed.

End AddTyped.


Section DeleteUndoesAddAtDemo.
Local Existing Instances Demo.crypto Demo.python Demo.host Demo.generators.


End DeleteUndoesAddAtDemo.

Lemma Forall2_map_self {A B} (R : A -> B -> Prop) (g : A -> B) (l : list A) :
  (forall x, In x l -> R x (g x)) -> Forall2 R l (map g l).
Proof.
  induction l as [|a l IH]; intros Hr; cbn [map]; constructor.
  - apply Hr. now left.
  - apply IH. intros x Hx. apply Hr. now right.
Qed.


Section ExportedAtDemo.
Local Existing Instances Demo.crypto Demo.python Demo.host Demo.generators
  Demo.files.


End ExportedAtDemo.

(** X10.  [update] with a new password typed under option 3 and no new
    username rewrites, in the rows with the typed id, the secret and the
    time of update only: the new secret decrypts to the password as
    typed, the other columns are as before, and every other row is
    untouched. *)
Theorem V25_update_replaces_only_the_secret
    {C : Cryptography} {L : CryptographyLaws C}
    {P : Python} {PL : PythonLaws P} {H : Host} {G : Generators}
    (w : world) (id_ user choice pw : pystr) (rest : list pystr) (r : row)
    (k : bytes) (f : fernet) (b : bytes) :
  w_stdin w = id_ :: user :: choice :: pw :: rest ->
  find (id_matches (strip id_)) (w_rows w) = Some r ->
  strip user = [] ->
  strip choice = str_lit "3" ->
  pw <> [] ->
  w_key w = Some k -> Fernet k = Some f -> str_encode pw = Some b ->
  Forall2
    (fun old new =>
       if id_matches (strip id_) old
       then decrypt_value (Some k) (r_password new) = Some pw
            /\ r_id new = r_id old /\ r_service new = r_service old
            /\ r_username new = r_username old /\ r_url new = r_url old
            /\ r_notes new = r_notes old /\ r_created new = r_created old
            /\ r_updated new = w_clock w (S (w_tick w))
       else new = old)
    (w_rows w) (w_rows (exec V25.update w)).
Proof.
  intros Hin Hfind Hu Hc Hpw Hk Hf Hb.
  destruct (V25_update_secret_only w Hin Hfind Hu Hc Hpw Hk Hf Hb) as [_ Hrows].
  rewrite Hrows. apply Forall2_map_self. intros old _.
  destruct (id_matches (strip id_) old); [|reflexivity].
  cbn [r_password r_id r_service r_username r_url r_notes r_created r_updated].
  split; [|now repeat split].
  destruct (Fernet_key_lengths _ Hf) as [_ Hek].
  apply decrypt_value_token; try assumption. apply drawn_iv_length.
Qed.

Section UpdatedAtDemo.
Local Existing Instances Demo.crypto Demo.python Demo.host Demo.generators.

Lemma V25_update_replaces_only_the_secret_witness :
  let r1 := Row 1 (str_lit "example.com") (str_lit "alice") [] [] [] 5 5 in
  let r2 := Row 2 (str_lit "example.org") (str_lit "bob") [] [] [] 6 6 in
  let w := set_db [r1; r2] 9
             (Demo.unlocked [str_lit "1"; []; str_lit "3"; str_lit "hunter2"]
                1700000000000000) in
  Forall2
    (fun old new =>
       if id_matches (strip (str_lit "1")) old
       then decrypt_value (Some Demo.key) (r_password new)
            = Some (str_lit "hunter2")
            /\ r_id new = r_id old /\ r_service new = r_service old
            /\ r_username new = r_username old /\ r_url new = r_url old
            /\ r_notes new = r_notes old /\ r_created new = r_created old
            /\ r_updated new = 1700000001000000
       else new = old)
    [r1; r2] (w_rows (exec V25.update w)).
Proof.
  intros r1 r2 w.
  exact (@V25_update_replaces_only_the_secret Demo.crypto demo_crypto_laws
           Demo.python demo_python_laws Demo.host Demo.generators w
           (str_lit "1") [] (str_lit "3") (str_lit "hunter2") [] r1
           Demo.key
           (Fernet_ (firstn 16 Demo.raw_key) (skipn 16 Demo.raw_key))
           (map byte_of_N (str_lit "hunter2"))
           eq_refl eq_refl eq_refl eq_refl ltac:(discriminate)
           eq_refl eq_refl eq_refl).
Defined.

End UpdatedAtDemo.

(** ** The master password over two runs *)

Section MasterFacts.
Context {C : Cryptography} {P : Python} {H : Host} {G : Generators}.

(** [get_key] of an encodable passphrase: the key is derived from the
    salt the file holds afterwards, and only the salt file and the
    entropy position can have changed. *)
Lemma get_key_derives (pw : pystr) (b : bytes) (w : world) :
  str_encode pw = Some b ->
  exists s w',
    get_key pw w
    = (inl (Base64.urlsafe_b64encode (pbkdf2_hmac_sha256 b s iterations 32)), w')
    /\ w_salt w' = Some s
    /\ w_master w' = w_master w /\ w_stdin w' = w_stdin w
    /\ w_out w' = w_out w /\ w_key w' = w_key w /\ w_rows w' = w_rows w.
Proof.
  intros Hb. destruct (w_salt w) as [s|] eqn:Hs.
  - exists s, w. rewrite (get_key_with_salt pw _ Hs), Hb. now repeat split.
  - eexists _, _. rewrite (get_key_without_salt pw _ Hs), Hb.
    split; [reflexivity|]. now repeat split.
Qed.

(** A strong passphrase typed twice to v2.5's [set_master]. *)
Lemma V25_set_master_accepts (w : world) (pw : pystr) (rest : list pystr)
    (b : bytes) :
  w_stdin w = pw :: pw :: rest ->
  (3 <= fst (V25.check_strength pw))%Z ->
  str_encode pw = Some b ->
  exists s w',
    V25.set_master w = (inl true, w')
    /\ w_master w' = Some (hex (sha256 b))
    /\ w_salt w' = Some s
    /\ w_key w'
       = Some (Base64.urlsafe_b64encode (pbkdf2_hmac_sha256 b s iterations 32))
    /\ w_stdin w' = rest.
Proof.
  intros Hin Hstrong Hb. rewrite V25_set_master_unfold.
  set (w0 := set_out _ w).
  assert (Hin0 : w_stdin w0 = pw :: pw :: rest) by exact Hin.
  cbn [V25.set_master_loop].
  unfold getpass. rewrite (bind_inl (input_cons w0 Hin0)).
  replace (fst (V25.check_strength pw) <? 3)%Z with false
    by (symmetry; apply Z.ltb_ge; exact Hstrong).
  rewrite (@bind_inl _ _ input _ (set_stdin (pw :: rest) w0) (set_stdin rest w0) pw)
    by reflexivity.
  rewrite pystr_eqb_refl.
  unfold bind at 1. cbn [modify].
  rewrite (hash_password_encodable pw Hb).
  unfold bind at 1. cbn [lift_option ret].
  unfold bind at 1. cbn [modify].
  destruct (get_key_derives pw
              (set_master_file (Some (hex (sha256 b)))
                 (set_master_file (Some []) (set_stdin rest w0))) Hb)
    as (s & w' & Hk & Hsalt & Hm & Hi & _).
  rewrite (bind_inl Hk).
  exists s. eexists. split; [reflexivity|].
  cbn [w_master w_salt w_key w_stdin set_out set_key].
  rewrite Hm, Hi, Hsalt. now repeat split.
Qed.

Lemma V2_set_master_accepts (w : world) (pw : pystr) (rest : list pystr)
    (b : bytes) :
  w_stdin w = pw :: pw :: rest ->
  (3 <= V2.check_strength pw)%Z ->
  str_encode pw = Some b ->
  exists s w',
    V2.set_master w = (inl true, w')
    /\ w_master w' = Some (hex (sha256 b))
    /\ w_salt w' = Some s
    /\ w_key w'
       = Some (Base64.urlsafe_b64encode (pbkdf2_hmac_sha256 b s iterations 32))
    /\ w_stdin w' = rest.
Proof.
  intros Hin Hstrong Hb. rewrite V2_set_master_unfold.
  set (w0 := set_out _ w).
  assert (Hin0 : w_stdin w0 = pw :: pw :: rest) by exact Hin.
  cbn [V2.set_master_loop].
  unfold getpass. rewrite (bind_inl (input_cons w0 Hin0)).
  replace (V2.check_strength pw <? 3)%Z with false
    by (symmetry; apply Z.ltb_ge; exact Hstrong).
  rewrite (@bind_inl _ _ input _ (set_stdin (pw :: rest) w0) (set_stdin rest w0) pw)
    by reflexivity.
  rewrite pystr_eqb_refl.
  unfold bind at 1. cbn [modify].
  rewrite (hash_password_encodable pw Hb).
  unfold bind at 1. cbn [lift_option ret].
  unfold bind at 1. cbn [modify].
  destruct (get_key_derives pw
              (set_master_file (Some (hex (sha256 b)))
                 (set_master_file (Some []) (set_stdin rest w0))) Hb)
    as (s & w' & Hk & Hsalt & Hm & Hi & _).
  rewrite (bind_inl Hk).
  exists s. eexists. split; [reflexivity|].
  cbn [w_master w_salt w_key w_stdin set_out set_key].
  rewrite Hm, Hi, Hsalt. now repeat split.
Qed.

(** On a vault whose files were written for [pw], v2.5's [verify_master]
    accepts [pw] at the first attempt and derives the key again. *)
Lemma V25_verify_master_accepts (w : world) (pw : pystr) (rest : list pystr)
    (b s : bytes) :
  w_master w = Some (hex (sha256 b)) ->
  w_salt w = Some s ->
  w_stdin w = pw :: rest ->
  str_encode pw = Some b ->
  exists w',
    V25.verify_master w = (inl true, w')
    /\ w_key w'
       = Some (Base64.urlsafe_b64encode (pbkdf2_hmac_sha256 b s iterations 32))
    /\ w_stdin w' = rest.
Proof.
  intros Hm Hs Hin Hb.
  unfold V25.verify_master. rewrite bind_get_world, Hm, strip_hex.
  cbn [V25.verify_loop].
  unfold getpass. rewrite (bind_inl (input_cons w Hin)).
  rewrite (hash_password_encodable pw Hb).
  unfold bind at 1. cbn [lift_option ret].
  rewrite pystr_eqb_refl.
  assert (Hs' : w_salt (set_stdin rest w) = Some s) by exact Hs.
  pose proof (get_key_with_salt pw _ Hs') as Hk. rewrite Hb in Hk.
  rewrite (bind_inl Hk). eexists. split; [reflexivity|]. split; reflexivity.
Qed.

End MasterFacts.

(** X11.  Three passphrases whose digests all differ from the stored line
    end [verify_master] with [False]: three lines are read and no more,
    the three refusals are printed, and nothing else changes; no key is
    derived and no salt is created. *)
Theorem verify_master_refuses_after_three_attempts
    {C : Cryptography} {P : Python} {H : Host} {G : Generators}
    (w : world) (content p1 p2 p3 : pystr) (rest : list pystr)
    (b1 b2 b3 : bytes) :
  w_master w = Some content ->
  w_stdin w = p1 :: p2 :: p3 :: rest ->
  str_encode p1 = Some b1 -> str_encode p2 = Some b2 ->
  str_encode p3 = Some b3 ->
  hex (sha256 b1) <> strip content -> hex (sha256 b2) <> strip content ->
  hex (sha256 b3) <> strip content ->
  V25.verify_master w
  = (inl false,
     set_out (w_out w ++ [Print LError "Incorrect. Attempts remaining.";
                          Print LError "Incorrect. Attempts remaining.";
                          Print LError "Too many failed attempts."])
       (set_stdin rest w))
  /\ V2.verify_master w
     = (inl false,
        set_out (w_out w ++ [Print LError "Incorrect"; Print LError "Incorrect";
                             Print LError "Incorrect"])
          (set_stdin rest w)).
Proof.
  intros Hm Hin Hb1 Hb2 Hb3 Hn1 Hn2 Hn3. split.
  - unfold V25.verify_master. rewrite bind_get_world, Hm.
    rewrite V25_verify_loop_mismatch
      with (pw := p1) (rest := p2 :: p3 :: rest) (b := b1);
      [|exact Hin|exact Hb1|exact Hn1].
    change (0 <? 2 - 0)%Z with true. cbv iota.
    unfold print_error. rewrite bind_emit.
    rewrite V25_verify_loop_mismatch
      with (pw := p2) (rest := p3 :: rest) (b := b2);
      [|reflexivity|exact Hb2|exact Hn2].
    change (0 <? 2 - 1)%Z with true. cbv iota.
    unfold print_error. rewrite bind_emit.
    rewrite V25_verify_loop_mismatch
      with (pw := p3) (rest := rest) (b := b3);
      [|reflexivity|exact Hb3|exact Hn3].
    change (0 <? 2 - 2)%Z with false. cbv iota.
    unfold print_error. rewrite bind_emit.
    cbn [ret w_out set_out set_stdin]. rewrite <- !app_assoc. reflexivity.
  - unfold V2.verify_master. rewrite bind_get_world, Hm.
    rewrite V2_verify_loop_mismatch
      with (pw := p1) (rest := p2 :: p3 :: rest) (b := b1);
      [|exact Hin|exact Hb1|exact Hn1].
    unfold print_error. rewrite bind_emit.
    rewrite V2_verify_loop_mismatch
      with (pw := p2) (rest := p3 :: rest) (b := b2);
      [|reflexivity|exact Hb2|exact Hn2].
    unfold print_error. rewrite bind_emit.
    rewrite V2_verify_loop_mismatch
      with (pw := p3) (rest := rest) (b := b3);
      [|reflexivity|exact Hb3|exact Hn3].
    unfold print_error. rewrite bind_emit.
    cbn [V2.verify_loop ret w_out set_out set_stdin].
    rewrite <- !app_assoc. reflexivity.
Qed.

Section RefusedAtDemo.
Local Existing Instances Demo.crypto Demo.python Demo.host Demo.generators.

(** The theorem on a vault whose master file holds the digest of another
    passphrase: three wrong entries, and the fourth line is not read. *)
Lemma verify_master_refuses_after_three_attempts_witness :
  let stored := hex (sha256 (map byte_of_N (str_lit "Tr0ub4dor&3"))) in
  let w := set_master_file (Some stored)
             (Demo.world0 [str_lit "a"; str_lit "b"; str_lit "c";
                           str_lit "Tr0ub4dor&3"] 0) in
  eval V25.verify_master w = inl false
  /\ w_stdin (exec V25.verify_master w) = [str_lit "Tr0ub4dor&3"]
  /\ w_key (exec V25.verify_master w) = None
  /\ w_salt (exec V25.verify_master w) = None.
Proof.
  intros stored w.
  destruct (@verify_master_refuses_after_three_attempts Demo.crypto Demo.python
              Demo.host Demo.generators w stored (str_lit "a") (str_lit "b")
              (str_lit "c") [str_lit "Tr0ub4dor&3"]
              (map byte_of_N (str_lit "a")) (map byte_of_N (str_lit "b"))
              (map byte_of_N (str_lit "c"))
              eq_refl eq_refl eq_refl eq_refl eq_refl
              ltac:(vm_compute; discriminate) ltac:(vm_compute; discriminate)
              ltac:(vm_compute; discriminate)) as [E _].
  unfold eval, exec. rewrite E. repeat split.
Defined.

End RefusedAtDemo.

(** X12.  A master password set in one run is accepted at the first
    attempt of the next run, which derives the same key again, so that
    what was encrypted before can be decrypted.  This holds from v2.5 to
    v2.5 and also for a vault set up by v2.0 and opened by v2.5. *)
Theorem master_password_set_then_verified
    {C : Cryptography} {P : Python} {H : Host} {G : Generators}
    (w : world) (pw : pystr) (rest : list pystr) (b : bytes) :
  w_master w = None ->
  w_stdin w = pw :: pw :: pw :: rest ->
  str_encode pw = Some b ->
  ((3 <= fst (V25.check_strength pw))%Z ->
   let w1 := exec V25.verify_master w in
   let w2 := exec V25.verify_master (set_key None w1) in
   eval V25.verify_master w = inl true
   /\ eval V25.verify_master (set_key None w1) = inl true
   /\ w_key w1 <> None /\ w_key w2 = w_key w1 /\ w_stdin w2 = rest)
  /\ ((3 <= V2.check_strength pw)%Z ->
      let w1 := exec V2.verify_master w in
      let w2 := exec V25.verify_master (set_key None w1) in
      eval V2.verify_master w = inl true
      /\ eval V25.verify_master (set_key None w1) = inl true
      /\ w_key w1 <> None /\ w_key w2 = w_key w1 /\ w_stdin w2 = rest).
Proof.
  intros Hm Hin Hb. split; intros Hstrong.
  - destruct (V25_set_master_accepts w Hin Hstrong Hb)
      as (s & w1 & E1 & Hm1 & Hs1 & Hk1 & Hi1).
    assert (Ev : V25.verify_master w = (inl true, w1)).
    { unfold V25.verify_master. rewrite bind_get_world, Hm. exact E1. }
    destruct (@V25_verify_master_accepts C P (set_key None w1) pw rest b s
                Hm1 Hs1 Hi1 Hb) as (w2 & E2 & Hk2 & Hi2).
    cbv zeta. unfold eval, exec. rewrite Ev. cbn [fst snd]. rewrite E2.
    cbn [fst snd]. rewrite Hk1, Hk2. repeat split; try assumption. discriminate.
  - destruct (V2_set_master_accepts w Hin Hstrong Hb)
      as (s & w1 & E1 & Hm1 & Hs1 & Hk1 & Hi1).
    assert (Ev : V2.verify_master w = (inl true, w1)).
    { unfold V2.verify_master. rewrite bind_get_world, Hm. exact E1. }
    destruct (@V25_verify_master_accepts C P (set_key None w1) pw rest b s
                Hm1 Hs1 Hi1 Hb) as (w2 & E2 & Hk2 & Hi2).
    cbv zeta. unfold eval, exec. rewrite Ev. cbn [fst snd]. rewrite E2.
    cbn [fst snd]. rewrite Hk1, Hk2. repeat split; try assumption. discriminate.
Qed.

Section SetThenVerifiedAtDemo.
Local Existing Instances Demo.crypto Demo.python Demo.host Demo.generators.

Lemma master_password_set_then_verified_witness :
  let pw := str_lit "Tr0ub4dor&3" in
  let w := Demo.world0 [pw; pw; pw] 0 in
  let w1 := exec V25.verify_master w in
  eval V25.verify_master (set_key None w1) = inl true
  /\ w_key (exec V25.verify_master (set_key None w1)) = w_key w1.
Proof.
  intros pw w w1.
  destruct (@master_password_set_then_verified Demo.crypto Demo.python
              Demo.host Demo.generators w pw [] (map byte_of_N pw)
              eq_refl eq_refl eq_refl) as [H25 _].
  destruct (H25 ltac:(vm_compute; discriminate)) as (_ & E & _ & Hk & _).
  split; [exact E | exact Hk].
Defined.

End SetThenVerifiedAtDemo.

(** ** The master password policy on any input *)

Section PolicyFacts.
Context {C : Cryptography} {P : Python} {H : Host} {G : Generators}.

Lemma hash_password_some (pw h : pystr) :
  hash_password pw = Some h -> exists b, str_encode pw = Some b.
Proof.
  unfold hash_password. destruct (str_encode pw) as [b|]; [|discriminate].
  intros _. now exists b.
Qed.

(** How the loop of v2.5's [set_master] can end, whatever is typed. *)
Lemma V25_set_master_loop_outcome (fuel : nat) (w : world) :
  match V25.set_master_loop fuel w with
  | (inl true, w') =>
      exists pw,
        In pw (w_stdin w) /\ (3 <= fst (V25.check_strength pw))%Z
        /\ hash_password pw <> None /\ w_master w' = hash_password pw
        /\ w_key w' <> None
  | (inl false, _) => False
  | (inr e, w') =>
      (e = EOFError /\ w_master w' = w_master w /\ w_key w' = w_key w)
      \/ e = UnicodeEncodeError
  end.
Proof.
  revert w. induction fuel as [|fuel IH]; intros w; cbn [V25.set_master_loop].
  - cbn. left. now repeat split.
  - unfold getpass.
    destruct (w_stdin w) as [|pw1 rest] eqn:Hin.
    { rewrite (bind_input_eof _ w Hin). left. now repeat split. }
    rewrite (bind_input _ w Hin).
    destruct (fst (V25.check_strength pw1) <? 3)%Z eqn:Hweak.
    { unfold print_warning, V25.display_strength. rewrite !bind_emit.
      match goal with |- context [V25.set_master_loop fuel ?w2] =>
        specialize (IH w2); destruct (V25.set_master_loop fuel w2) as [[[|]|e] w']
      end.
      - destruct IH as (pw & Hpw & Hrest). exists pw. split; [now right|exact Hrest].
      - exact IH.
      - exact IH. }
    apply Z.ltb_ge in Hweak.
    destruct rest as [|pw2 rest'].
    { rewrite bind_input_eof by reflexivity. left. now repeat split. }
    erewrite bind_input by reflexivity.
    destruct (pystr_eqb pw1 pw2) eqn:Heq.
    + rewrite bind_modify.
      destruct (hash_password pw1) as [h|] eqn:Hh.
      2:{ cbn [lift_option]. unfold bind at 1, raise. now right. }
      cbn [lift_option]. rewrite bind_ret_l, bind_modify.
      destruct (hash_password_some _ Hh) as (b & Hb).
      destruct (get_key_derives pw1
                  (set_master_file (Some h)
                     (set_master_file (Some []) (set_stdin rest' w))) Hb)
        as (s & w' & Hk & _ & Hm & _).
      rewrite (bind_inl Hk). rewrite bind_modify.
      unfold print_success. rewrite bind_emit. cbn [ret].
      exists pw1. split; [now left|]. split; [exact Hweak|].
      rewrite Hh. split; [discriminate|]. cbn [w_master w_key set_out set_key].
      split; [now rewrite Hm | discriminate].
    + unfold print_error. rewrite bind_emit.
      match goal with |- context [V25.set_master_loop fuel ?w2] =>
        specialize (IH w2); destruct (V25.set_master_loop fuel w2) as [[[|]|e] w']
      end.
      * destruct IH as (pw & Hpw & Hrest). exists pw.
        split; [right; right; exact Hpw | exact Hrest].
      * exact IH.
      * exact IH.
Qed.

Lemma V2_set_master_loop_outcome (fuel : nat) (w : world) :
  match V2.set_master_loop fuel w with
  | (inl true, w') =>
      exists pw,
        In pw (w_stdin w) /\ (3 <= V2.check_strength pw)%Z
        /\ hash_password pw <> None /\ w_master w' = hash_password pw
        /\ w_key w' <> None
  | (inl false, _) => False
  | (inr e, w') =>
      (e = EOFError /\ w_master w' = w_master w /\ w_key w' = w_key w)
      \/ e = UnicodeEncodeError
  end.
Proof.
  revert w. induction fuel as [|fuel IH]; intros w; cbn [V2.set_master_loop].
  - cbn. left. now repeat split.
  - unfold getpass.
    destruct (w_stdin w) as [|pw1 rest] eqn:Hin.
    { rewrite (bind_input_eof _ w Hin). left. now repeat split. }
    rewrite (bind_input _ w Hin).
    destruct (V2.check_strength pw1 <? 3)%Z eqn:Hweak.
    { unfold print_warning. rewrite !bind_emit.
      match goal with |- context [V2.set_master_loop fuel ?w2] =>
        specialize (IH w2); destruct (V2.set_master_loop fuel w2) as [[[|]|e] w']
      end.
      - destruct IH as (pw & Hpw & Hrest). exists pw. split; [now right|exact Hrest].
      - exact IH.
      - exact IH. }
    apply Z.ltb_ge in Hweak.
    destruct rest as [|pw2 rest'].
    { rewrite bind_input_eof by reflexivity. left. now repeat split. }
    erewrite bind_input by reflexivity.
    destruct (pystr_eqb pw1 pw2) eqn:Heq.
    + rewrite bind_modify.
      destruct (hash_password pw1) as [h|] eqn:Hh.
      2:{ cbn [lift_option]. unfold bind at 1, raise. now right. }
      cbn [lift_option]. rewrite bind_ret_l, bind_modify.
      destruct (hash_password_some _ Hh) as (b & Hb).
      destruct (get_key_derives pw1
                  (set_master_file (Some h)
                     (set_master_file (Some []) (set_stdin rest' w))) Hb)
        as (s & w' & Hk & _ & Hm & _).
      rewrite (bind_inl Hk). rewrite bind_modify.
      unfold print_success. rewrite bind_emit. cbn [ret].
      exists pw1. split; [now left|]. split; [exact Hweak|].
      rewrite Hh. split; [discriminate|]. cbn [w_master w_key set_out set_key].
      split; [now rewrite Hm | discriminate].
    + unfold print_error. rewrite bind_emit.
      match goal with |- context [V2.set_master_loop fuel ?w2] =>
        specialize (IH w2); destruct (V2.set_master_loop fuel w2) as [[[|]|e] w']
      end.
      * destruct IH as (pw & Hpw & Hrest). exists pw.
        split; [right; right; exact Hpw | exact Hrest].
      * exact IH.
      * exact IH.
Qed.

End PolicyFacts.

(** X13.  Whatever is typed, [set_master] never returns [False] and never
    stores the digest of a passphrase scored below 3: when it returns, the
    master file holds the digest of a typed line with score 3 or more and
    the key is set.  When the input ends first, it raises [EOFError] and
    the master file and the key are as before. *)
Theorem set_master_enforces_the_policy
    {C : Cryptography} {P : Python} {H : Host} {G : Generators} (w : world) :
  match V25.set_master w with
  | (inl true, w') =>
      exists pw,
        In pw (w_stdin w) /\ (3 <= fst (V25.check_strength pw))%Z
        /\ hash_password pw <> None /\ w_master w' = hash_password pw
        /\ w_key w' <> None
  | (inl false, _) => False
  | (inr e, w') =>
      (e = EOFError /\ w_master w' = w_master w /\ w_key w' = w_key w)
      \/ e = UnicodeEncodeError
  end
  /\ match V2.set_master w with
     | (inl true, w') =>
         exists pw,
           In pw (w_stdin w) /\ (3 <= V2.check_strength pw)%Z
           /\ hash_password pw <> None /\ w_master w' = hash_password pw
           /\ w_key w' <> None
     | (inl false, _) => False
     | (inr e, w') =>
         (e = EOFError /\ w_master w' = w_master w /\ w_key w' = w_key w)
         \/ e = UnicodeEncodeError
     end.
Proof.
  split.
  - rewrite V25_set_master_unfold.
    exact (V25_set_master_loop_outcome (S (length (w_stdin w)))
             (set_out (w_out w ++ [Print LInfo "Setting up Password Manager..."]) w)).
  - rewrite V2_set_master_unfold.
    exact (V2_set_master_loop_outcome (S (length (w_stdin w)))
             (set_out (w_out w ++ [Print LInfo "Setting up Password Manager..."]) w)).
Qed.

(** ** One backup in any directory *)

Lemma copy2_in a dir : In a (copy2 a dir).
Proof.
  induction dir as [|b dir IH]; cbn; [now left|].
  destruct (a_stamp b =? a_stamp a); [now left | now right].
Qed.

Lemma copy2_from a dir b : In b (copy2 a dir) -> b = a \/ In b dir.
Proof.
  induction dir as [|c dir IH]; cbn.
  - intros [<-|[]]. now left.
  - destruct (a_stamp c =? a_stamp a); cbn.
    + intros [<-|Hb]; [now left | right; now right].
    + intros [<-|Hb]; [right; now left|].
      destruct (IH Hb) as [->|Hin]; [now left | right; now right].
Qed.

Lemma copy2_nodup a dir :
  NoDup (map a_stamp dir) -> NoDup (map a_stamp (copy2 a dir)).
Proof.
  induction dir as [|b dir IH]; cbn; intros Hnd.
  - repeat constructor. intros [].
  - apply NoDup_cons_iff in Hnd. destruct Hnd as [Hb Hnd].
    destruct (N.eqb_spec (a_stamp b) (a_stamp a)) as [E|Hne]; cbn.
    + rewrite <- E. now constructor.
    + constructor; [|now apply IH].
      intros Hin. apply in_map_iff in Hin. destruct Hin as (c & Ec & Hc).
      destruct (copy2_from _ _ _ Hc) as [->|Hc']; [congruence|].
      apply Hb. rewrite <- Ec. now apply in_map.
Qed.

Section OneBackup.
Context {H : Host} {HL : HostLaws H}.

(** The files the cleanup keeps are the newest: none that it deletes was
    modified later than one it keeps. *)
Lemma pruned_newest n dir a b :
  (0 <= n)%Z -> NoDup (map a_stamp dir) ->
  In a (pruned n dir) -> In b dir -> ~ In b (pruned n dir) ->
  a_mtime b <= a_mtime a.
Proof.
  intros Hn Hnd Ha Hb Hnb.
  assert (Hp : Permutation (pruned n dir)
                 (firstn (Z.to_nat n) (sorted_by_mtime_desc (glob_order dir))))
    by (apply pruned_perm; assumption).
  set (s := sorted_by_mtime_desc (glob_order dir)) in *.
  set (k := Z.to_nat n) in *.
  assert (Hs : Permutation s dir).
  { unfold s. rewrite sorted_by_mtime_desc_perm. apply glob_order_perm. }
  assert (Ha' : In a (firstn k s)) by (eapply Permutation_in; eassumption).
  assert (Hb' : In b (skipn k s)).
  { assert (Hbs : In b s) by (eapply Permutation_in; [symmetry; exact Hs | exact Hb]).
    rewrite <- (firstn_skipn k s) in Hbs. apply in_app_or in Hbs.
    destruct Hbs as [Hbs|Hbs]; [|exact Hbs].
    exfalso. apply Hnb. eapply Permutation_in; [symmetry; exact Hp | exact Hbs]. }
  pose proof (sorted_by_mtime_desc_sorted (glob_order dir)) as Hsorted.
  fold s in Hsorted. rewrite <- (firstn_skipn k s) in Hsorted.
  exact (@StronglySorted_app_order _ _ _ _ Hsorted a b Ha' Hb').
Qed.

(** A file modified later than every other file of the directory is kept
    when the count is at least 1. *)
Lemma pruned_keeps_the_latest n dir a :
  (1 <= n)%Z -> NoDup (map a_stamp dir) -> In a dir ->
  (forall b, In b dir -> a_stamp b <> a_stamp a -> a_mtime b < a_mtime a) ->
  In a (pruned n dir).
Proof.
  intros Hn Hnd Ha Holder.
  assert (Hlen : length (pruned n dir) = Nat.min (Z.to_nat n) (length dir))
    by (apply pruned_length; [lia | exact Hnd]).
  unfold pruned, unlink_all in *.
  set (old := py_slice_from n (sorted_by_mtime_desc (glob_order dir))) in *.
  set (p := fun a0 => negb (existsb (fun o => a_stamp o =? a_stamp a0) old)) in *.
  destruct (p a) eqn:Epa; [apply filter_In; now split|].
  exfalso.
  destruct (filter p dir) as [|c kept] eqn:Ekept.
  { destruct dir as [|d dir]; [contradiction|]. cbn [length] in Hlen. lia. }
  assert (Hc : In c (filter p dir)) by (rewrite Ekept; now left).
  apply filter_In in Hc. destruct Hc as [Hcd Hpc].
  assert (Hne : a_stamp c <> a_stamp a).
  { intros E. unfold p in Hpc, Epa. rewrite E in Hpc. congruence. }
  pose proof (Holder c Hcd Hne) as Hlt.
  assert (Hle : a_mtime a <= a_mtime c).
  { apply (@pruned_newest n dir c a); [lia | exact Hnd | | exact Ha |].
    - unfold pruned, unlink_all. fold old. fold p. rewrite Ekept. now left.
    - unfold pruned, unlink_all. fold old. fold p. rewrite filter_In.
      intros [_ Hpa]. congruence. }
  lia.
Qed.

End OneBackup.


Section OneBackupAtDemo.
Local Existing Instances Demo.crypto Demo.python Demo.host Demo.generators.


End OneBackupAtDemo.


Section WrittenStoreAtDemo.
Local Existing Instances Demo.crypto Demo.python Demo.host Demo.generators.


End WrittenStoreAtDemo.

(** ** The automatic backup of [delete] *)

Section DeleteBackup.
Context {H : Host}.

(** A confirmed [delete] of v2.5 with automatic backups on: the commit,
    then one silent [backup] of the table as the commit left it. *)
Lemma V25_delete_confirmed (w : world) (id_ : pystr) (rest : list pystr)
    (r : row) :
  w_stdin w = id_ :: str_lit "DELETE" :: rest ->
  find (id_matches (strip id_)) (w_rows w) = Some r ->
  w_auto_backup w = true ->
  exec Vault25.delete w
  = exec (V25.backup true)
      (set_out (w_out w ++ [Print LSuccess "Deleted!"])
         (set_db (delete_rows (strip id_) (w_rows w)) (w_clock w (w_tick w))
            (set_tick (S (w_tick w)) (set_stdin rest w)))).
Proof.
  intros Hin Hfind Hauto.
  unfold exec, Vault25.delete, try_except, print_error, print_warning,
    print_success.
  rewrite (bind_input _ w Hin). msteps. cbn [w_rows set_stdin].
  rewrite Hfind. erewrite bind_input by reflexivity.
  change (pystr_eqb (str_lit "DELETE") (str_lit "DELETE")) with true.
  cbv iota. msteps. unfold V25.auto_backup. rewrite bind_get_world.
  cbn [w_auto_backup set_out set_db set_tick set_stdin]. rewrite Hauto.
  reflexivity.
Qed.

End DeleteBackup.


Section DeleteBackupAtDemo.
Local Existing Instances Demo.crypto Demo.python Demo.host Demo.generators.


End DeleteBackupAtDemo.

(** ** The strength score *)

Lemma point_le (b1 b2 : bool) :
  (b1 = true -> b2 = true) -> (point b1 <= point b2)%Z.
Proof. destruct b1, b2; cbn; intros Hb; try lia; now specialize (Hb eq_refl). Qed.

Lemma existsb_inside {A} (p : A -> bool) (pre s post : list A) :
  existsb p s = true -> existsb p (pre ++ s ++ post) = true.
Proof.
  intros E. rewrite !existsb_app, E. cbn. apply Bool.orb_true_r.
Qed.

Lemma leb_inside {A} (n : nat) (pre s post : list A) :
  (n <=? length s)%nat = true -> (n <=? length (pre ++ s ++ post))%nat = true.
Proof.
  intros E. apply Nat.leb_le in E. apply Nat.leb_le. rewrite !length_app. lia.
Qed.

(** X17.  Adding characters to a password, before or after it, never
    lowers its strength score, in either version. *)
Theorem check_strength_grows_with_the_password
    {P : Python} (pre pw post : pystr) :
  (fst (V25.check_strength pw) <= fst (V25.check_strength (pre ++ pw ++ post)))%Z
  /\ (V2.check_strength pw <= V2.check_strength (pre ++ pw ++ post))%Z.
Proof.
  rewrite !V25_score_formula, !V2_score_formula. unfold reference_criteria.
  pose proof (@point_le _ _ (@leb_inside _ 8 pre pw post)).
  pose proof (@point_le _ _ (@leb_inside _ 12 pre pw post)).
  pose proof (@point_le _ _ (@leb_inside _ 16 pre pw post)).
  pose proof (@point_le _ _ (@existsb_inside _ isupper pre pw post)).
  pose proof (@point_le _ _ (@existsb_inside _ islower pre pw post)).
  pose proof (@point_le _ _ (@existsb_inside _ isdigit pre pw post)).
  pose proof (@point_le _ _ (@existsb_inside _ ispunct pre pw post)).
  split; lia.
Qed.

(** X18.  The score of [check_strength] is between 0 and 5, so it always
    selects one of the six labels of [display_strength].  Each tip of the
    feedback stands for a point not given: the score and the number of
    tips add up to at least 5 and at most 7.  So a password with no tip
    has the highest score, and one scored below 3 gets at least three
    tips. *)
Theorem check_strength_score_and_feedback {P : Python} (pw : pystr) :
  let score := fst (V25.check_strength pw) in
  let tips := Z.of_nat (length (snd (V25.check_strength pw))) in
  (0 <= score <= 5)%Z
  /\ (5 <= score + tips <= 7)%Z
  /\ (snd (V25.check_strength pw) = [] -> score = 5%Z)
  /\ ((score < 3)%Z -> (3 <= tips)%Z).
Proof.
  cbv zeta.
  assert (Hsum :
    (0 <= fst (V25.check_strength pw) <= 5
     /\ 5 <= fst (V25.check_strength pw)
             + Z.of_nat (length (snd (V25.check_strength pw))) <= 7)%Z).
  { unfold V25.check_strength. cbn [fst snd].
    destruct (8 <=? length pw)%nat eqn:E8, (12 <=? length pw)%nat eqn:E12,
      (16 <=? length pw)%nat eqn:E16, (existsb isupper pw),
      (existsb islower pw), (existsb isdigit pw), (existsb ispunct pw);
      cbn; try lia;
      apply Nat.leb_le in E12 || apply Nat.leb_le in E16 || idtac;
      apply Nat.leb_gt in E8 || apply Nat.leb_gt in E12 || idtac; lia. }
  destruct Hsum as [Hrange Hsum].
  split; [exact Hrange|]. split; [exact Hsum|]. split.
  - intros Hnil. rewrite Hnil in Hsum. cbn [length] in Hsum. lia.
  - intros Hweak. lia.
Qed.

(** ** Methods that only read *)

Lemma ro_ret {A} (a : A) : read_only (ret a).
Proof. intros w. now split. Qed.

Lemma ro_raise {A} (e : exn) : read_only (@raise A e).
Proof. intros w. now split. Qed.

Lemma ro_bind {A B} (m : M A) (k : A -> M B) :
  read_only m -> (forall a, read_only (k a)) -> read_only (bind m k).
Proof.
  intros Hm Hk w. unfold bind. specialize (Hm w).
  destruct (m w) as [[a|e] w']; cbn [snd] in *; [|exact Hm].
  destruct (Hk a w') as [E1 E2]. destruct Hm as [F1 F2].
  split; congruence.
Qed.

Lemma ro_try {A} (m : M A) (h : exn -> M A) :
  read_only m -> (forall e, read_only (h e)) -> read_only (try_except m h).
Proof.
  intros Hm Hh w. unfold try_except. specialize (Hm w).
  destruct (m w) as [[a|e] w']; cbn [snd] in *; [exact Hm|].
  destruct (Hh e w') as [E1 E2]. destruct Hm as [F1 F2].
  split; congruence.
Qed.

Lemma ro_get_world : read_only get_world.
Proof. intros w. now split. Qed.

Lemma ro_lift_option {A} (e : exn) (o : option A) : read_only (lift_option e o).
Proof. destruct o; [apply ro_ret | apply ro_raise]. Qed.

Lemma ro_input : read_only input.
Proof. intros w. unfold input. destruct (w_stdin w); now split. Qed.

Lemma ro_emit (e : event) : read_only (emit e).
Proof. intros w. now split. Qed.

Lemma ro_clipboard_copy (s : pystr) (msg : string) :
  read_only (clipboard_copy s msg).
Proof.
  intros w. unfold clipboard_copy, bind, get_world.
  destruct (w_clipboard w); now split.
Qed.

Ltac ro_step :=
  first
    [ apply ro_ret | apply ro_raise | apply ro_get_world | apply ro_lift_option
    | apply ro_input | apply ro_emit | apply ro_clipboard_copy
    | apply ro_bind; [| intros ?]
    | apply ro_try; [| intros ?]
    | assumption
    | match goal with
      | |- read_only (match ?x with _ => _ end) => destruct x
      end ].

Ltac ro := cbv zeta; repeat ro_step.

Section ReadOnly.
Context {C : Cryptography} {P : Python} {H : Host}.

Lemma ro_decrypt (data : bytes) : read_only (decrypt data).
Proof. unfold decrypt, fernet_of_key. ro. Qed.

Lemma ro_for_each {A} (xs : list A) (body : A -> M unit) :
  (forall x, read_only (body x)) -> read_only (for_each xs body).
Proof.
  intros Hb. induction xs as [|x xs IH]; cbn [for_each]; ro. apply Hb.
Qed.

Lemma ro_V25_get_row (r : row) : read_only (V25.get_row r).
Proof.
  unfold V25.get_row, V25.display_strength, getpass. ro; apply ro_decrypt.
Qed.

Lemma ro_V2_get_row (r : row) : read_only (V2.get_row r).
Proof.
  unfold V2.get_row, V2.show_strength, getpass. ro; apply ro_decrypt.
Qed.

Lemma ro_V25_get : read_only V25.get.
Proof.
  unfold V25.get, print_warning, print_error. ro.
  apply ro_for_each, ro_V25_get_row.
Qed.

Lemma ro_V2_get : read_only V2.get.
Proof.
  unfold V2.get. ro. apply ro_for_each, ro_V2_get_row.
Qed.

End ReadOnly.

(** X19.  [get], in both versions, only reads the vault: whatever is
    typed and whatever the rows hold, the table and the time of its file,
    the backup directory, the master and salt files and the key are
    afterwards as they were, also when the call ends in an exception, and
    no file is written.  [export] never raises and writes one file at
    most, the one at the path typed to it.  When no line is left or the
    path cannot be opened it writes nothing.  When the path is that of a
    file of its own or of the configuration file, the vault is as it was.
    When it is the salt file's or the master file's, that file holds the
    JSON text afterwards and the rest of the vault is as it was.  In each
    case in which the path is opened, also when it is the database's or a
    backup's, the file at the path holds the exported entries. *)
Theorem get_reads_and_export_writes_where_told
    {C : Cryptography} {P : Python} {H : Host} {F : FileSystem} (w : world) :
  let w' := exec V25.export w in
  let data := exported_under (w_key w) (w_rows w) in
  let written :=
    w_exports w' = (export_name (hd [] (w_stdin w)), data) :: w_exports w in
  (vault_state (exec V25.get w) = vault_state w
   /\ w_exports (exec V25.get w) = w_exports w)
  /\ (vault_state (exec V2.get w) = vault_state w
      /\ w_exports (exec V2.get w) = w_exports w)
  /\ eval V25.export w = inl tt
  /\ match export_target w with
     | None | Some Unopenable =>
         vault_state w' = vault_state w /\ w_exports w' = w_exports w
     | Some OwnFile | Some ConfigFile =>
         vault_state w' = vault_state w /\ written
     | Some SaltFile =>
         vault_state w'
         = (w_rows w, w_db_mtime w, w_backups w, w_master w,
            Some (text_file_bytes (json_dump data)), w_key w)
         /\ written
     | Some MasterFile =>
         vault_state w'
         = (w_rows w, w_db_mtime w, w_backups w, Some (json_dump data),
            w_salt w, w_key w)
         /\ written
     | Some DatabaseFile | Some BackupFile => written
     end.
Proof.
  cbv zeta.
  split; [exact (ro_V25_get w)|]. split; [exact (ro_V2_get w)|].
  split; [exact (proj1 (V25_export_vault w))|].
  unfold export_target, exec.
  destruct (w_stdin w) as [|line rest] eqn:Hin.
  - unfold V25.export, try_except. rewrite (bind_input_eof _ w Hin).
    split; reflexivity.
  - rewrite (V25_export_spec w Hin). cbv zeta. cbn [snd hd].
    destruct (open_for_writing (set_stdin rest w) (export_name line));
      try split; reflexivity.
Qed.

(** ** The settings menu *)

Lemma settings_step_refl (s : session) : settings_step s s.
Proof. unfold settings_step. repeat split; auto. Qed.

Lemma settings_step_trans (s1 s2 s3 : session) :
  settings_step s1 s2 -> settings_step s2 s3 -> settings_step s1 s3.
Proof.
  unfold settings_step.
  intros (A1 & A2 & A3 & A4 & A5 & A6 & A7) (B1 & B2 & B3 & B4 & B5 & B6 & B7).
  repeat split; try congruence.
  - destruct B6 as [B6|B6]; [rewrite B6; exact A6 | now right].
  - destruct B7 as [(F & Ha & Hc)|B7]; [|now right].
    destruct A7 as [(F' & Ha' & Hc')|A7].
    + left. repeat split; congruence.
    + right. rewrite F, Ha, Hc. exact A7.
Qed.

Lemma sbind_lift_input {B} (k : pystr -> MS B) (s : session) (l : pystr)
    (rest : list pystr) :
  w_stdin (s_world s) = l :: rest ->
  sbind (lift input) k s
  = k l (Session (set_stdin rest (s_world s)) (s_config_file s)).
Proof. intros E. unfold sbind, lift, input. now rewrite E. Qed.

Lemma sbind_lift_input_eof {B} (k : pystr -> MS B) (s : session) :
  w_stdin (s_world s) = [] ->
  sbind (lift input) k s
  = (inr EOFError, Session (s_world s) (s_config_file s)).
Proof. intros E. unfold sbind, lift, input. now rewrite E. Qed.

Ltac by_fields := unfold settings_step; cbn; repeat split; auto.

Section SettingsFacts.
Context {P : Python} {H : Host}.

(** [backup] as the menu calls it: it returns, and leaves the table, the
    files of the vault, the key and the configuration alone. *)
Lemma V25_backup_shown (w : world) :
  fst (V25.backup false w) = inl tt
  /\ settings_step (Session w None) (Session (snd (V25.backup false w)) None)
  /\ w_stdin (snd (V25.backup false w)) = w_stdin w.
Proof. unfold settings_step. cbn. repeat split; auto. Qed.

(** One turn of option 2 with a number typed. *)
Lemma settings_count_turn (fuel : nat) (s : session) (text : pystr)
    (rest : list pystr) (n : Z) :
  w_stdin (s_world s) = str_lit "2" :: text :: rest ->
  int_of_str text = Some n ->
  Settings25.settings_loop (S fuel) s
  = Settings25.settings_loop fuel
      (Session
         (set_out (w_out (s_world s) ++ [Print LSuccess "Backup count set."])
            (set_config (w_auto_backup (s_world s)) (Z.max 1 (Z.min 20 n))
               (set_stdin rest (s_world s))))
         (Some (Config (w_auto_backup (s_world s)) (Z.max 1 (Z.min 20 n))))).
Proof.
  intros Hin Hn. cbn [Settings25.settings_loop].
  rewrite (sbind_lift_input _ s Hin).
  change (pystr_eqb (str_lit "2") (str_lit "1")) with false.
  change (pystr_eqb (str_lit "2") (str_lit "2")) with true. cbv iota.
  unfold sbind at 1, except_ValueError.
  erewrite sbind_lift_input by reflexivity.
  unfold sbind, lift, Settings25.save_config, modify, print_success, emit.
  cbn [s_world s_config_file]. rewrite Hn. reflexivity.
Qed.

(** One turn of option 2 with something typed that is no number. *)
Lemma settings_invalid_turn (fuel : nat) (s : session) (text : pystr)
    (rest : list pystr) :
  w_stdin (s_world s) = str_lit "2" :: text :: rest ->
  int_of_str text = None ->
  Settings25.settings_loop (S fuel) s
  = Settings25.settings_loop fuel
      (Session
         (set_out (w_out (s_world s) ++ [Print LError "Invalid number."])
            (set_stdin rest (s_world s)))
         (s_config_file s)).
Proof.
  intros Hin Hn. cbn [Settings25.settings_loop].
  rewrite (sbind_lift_input _ s Hin).
  change (pystr_eqb (str_lit "2") (str_lit "1")) with false.
  change (pystr_eqb (str_lit "2") (str_lit "2")) with true. cbv iota.
  unfold sbind at 1, except_ValueError.
  erewrite sbind_lift_input by reflexivity.
  unfold sbind, lift, print_error, emit.
  cbn [s_world s_config_file]. rewrite Hn. reflexivity.
Qed.

(** Option 4 ends the menu. *)
Lemma settings_back_turn (fuel : nat) (s : session) (rest : list pystr) :
  w_stdin (s_world s) = str_lit "4" :: rest ->
  Settings25.settings_loop (S fuel) s
  = (inl tt, Session (set_stdin rest (s_world s)) (s_config_file s)).
Proof.
  intros Hin. cbn [Settings25.settings_loop].
  rewrite (sbind_lift_input _ s Hin). reflexivity.
Qed.

Lemma settings_loop_keeps (fuel : nat) (s : session) (r : unit + exn)
    (s' : session) :
  Settings25.settings_loop fuel s = (r, s') ->
  (r = inl tt \/ r = inr EOFError) /\ settings_step s s'.
Proof.
  revert s. induction fuel as [|fuel IH]; intros s E.
  - cbn in E. inversion E; subst. split; [now right | by_fields].
  - cbn [Settings25.settings_loop] in E.
    destruct (w_stdin (s_world s)) as [|choice rest] eqn:Hin.
    { rewrite (sbind_lift_input_eof _ s Hin) in E. inversion E; subst.
      split; [now right | by_fields]. }
    rewrite (sbind_lift_input _ s Hin) in E.
    set (s1 := Session (set_stdin rest (s_world s)) (s_config_file s)) in *.
    assert (H1 : settings_step s s1) by by_fields.
    assert (Hnext : forall s2, settings_step s1 s2 ->
              Settings25.settings_loop fuel s2 = (r, s') ->
              (r = inl tt \/ r = inr EOFError) /\ settings_step s s').
    { intros s2 H2 E2. destruct (IH _ E2) as [Hr Hs]. split; [exact Hr|].
      eapply settings_step_trans; [exact H1|].
      eapply settings_step_trans; [exact H2 | exact Hs]. }
    destruct (pystr_eqb choice (str_lit "1")).
    { unfold sbind, lift, Settings25.save_config, modify, print_success, emit in E.
      cbn [s_world s_config_file s1] in E.
      eapply Hnext; [|exact E]. by_fields. }
    destruct (pystr_eqb choice (str_lit "2")).
    { unfold sbind at 1, except_ValueError in E.
      destruct rest as [|text rest'].
      { rewrite sbind_lift_input_eof in E by reflexivity. inversion E; subst.
        split; [now right | by_fields]. }
      erewrite sbind_lift_input in E by reflexivity.
      unfold sbind, lift, Settings25.save_config, modify, print_success,
        print_error, emit in E.
      cbn [s_world s_config_file s1] in E.
      destruct (int_of_str text) as [n|]; cbn [lift_option ret raise] in E;
        (eapply Hnext; [|exact E]); by_fields.
      right. lia. }
    destruct (pystr_eqb choice (str_lit "3")).
    { unfold sbind at 1, lift at 1 in E. cbn [s_world s_config_file s1] in E.
      destruct (V25_backup_shown (set_stdin rest (s_world s))) as (Hr & Hs & _).
      destruct (V25.backup false (set_stdin rest (s_world s))) as [r2 w2].
      cbn [fst snd] in Hr, Hs. subst r2.
      eapply Hnext; [|exact E].
      unfold settings_step in *. cbn [s_world s_config_file s1] in *.
      destruct Hs as (A1 & A2 & A3 & A4 & A5 & A6 & A7).
      repeat split; auto.
      destruct A7 as [(_ & Ha & Hc)|A7]; [|discriminate].
      left. now repeat split. }
    destruct (pystr_eqb choice (str_lit "4")).
    { cbn [sret] in E. inversion E; subst. split; [now left | exact H1]. }
    eapply Hnext; [|exact E]. apply settings_step_refl.
Qed.

End SettingsFacts.



Section SettingsAtDemo.
Local Existing Instances Demo.crypto Demo.python Demo.host Demo.generators.


End SettingsAtDemo.
